(** * Ingrosmart agent: retry engine, content classifier, login and download flow

    A shallow embedding of the JavaScript sources of the repository, and the
    properties of its specification that hold of them.

    Definitions, in the order of the file:
    - [JsString]: the string built-ins the program relies on ([includes],
      [toLowerCase], [trim]) on 8-bit characters;
    - [Utils]: [ensureCsv] of utils.js, the content classifier;
    - [Effects]: the state and exception monad in which the asynchronous code
      is written, over an external world reached through the interfaces
      [Clock], [Browser], [Delivery] and [Backends], with the trace of the
      interactions;
    - [Retry]: [sleep], [withRetry] and [generateTimestamp] of utils.js;
    - [Agent]: [clickFirst], [fillFirst], [login], [downloadCsv] and
      [runAgent] of index.js;
    - [Storage]: [deliver] and [pruneHistory] of storage.js, in the most
      recent revision ([Storage.Latest]) and in the older one
      ([Storage.Older]);
    - [Fake]: scripted worlds on which the program can be run;
    - [Logger]: [formatMessage] and the methods of [logger] of logger.js, as
      functions of the environment, the clock and the arguments;
    - [Startup]: the flag that index.js reads from [LOG_LEVEL];
    - [Calendar]: dates, the order on them and the history file names;
    - [Tracing]: predicates on the trace of a run: the interactions it is
      confined to, what it costs in requests and waiting, how it ends;
    - [Worlds]: further scripted worlds.
    The properties follow, module by module.

    Modelling choices.  Numbers that the program only uses as integers
    (lengths, attempt counters, delays in milliseconds, HTTP status codes,
    minutes) are [nat] or [Z]; the double arithmetic of JavaScript is exact on
    them below 2^53.  Thrown values are [Error] objects, that is, values with
    a [message], as the [catch] blocks of the program take them to be when
    they read [error.message]; [option exn] is a thrown value that may still
    be [undefined].  Calls to the logger are left out of the flows: on such
    values they do not change the control flow; the logger is modelled on its
    own in [Logger].  Text is modelled at the byte level:
    [Buffer.toString('utf-8')] carries every byte to one character, which is
    exact for ASCII payloads; the needles that the program searches for are
    all ASCII, and none of them can appear or disappear through the decoding
    or the lower-casing of bytes outside ASCII.  [trim] strips the ASCII
    white space; the white space outside ASCII that JavaScript strips as well
    can only remove more TAB, LF and CR from the ends of the sample, which
    every statement below about absent separators allows. *)

From Stdlib Require Import ZArith List String Ascii Bool Lia.
From Stdlib Require Import Strings.Byte DecimalString.
From Stdlib Require Import Permutation Sorted OrdersEx RelationClasses.
Import ListNotations.

Local Open Scope string_scope.
Local Open Scope list_scope.

(* ===================================================================== *)
(** ** Strings *)
(* ===================================================================== *)

Module JsString.

(** [s.includes(x)]: [x] occurs in [s] as a contiguous substring. *)
Fixpoint includes (s x : string) : bool :=
  String.prefix x s ||
  match s with
  | EmptyString => false
  | String _ t => includes t x
  end.

Definition is_upper (c : ascii) : bool :=
  let n := nat_of_ascii c in (65 <=? n)%nat && (n <=? 90)%nat.

Definition is_lower (c : ascii) : bool :=
  let n := nat_of_ascii c in (97 <=? n)%nat && (n <=? 122)%nat.

Definition lower_ascii (c : ascii) : ascii :=
  if is_upper c then ascii_of_nat (nat_of_ascii c + 32) else c.

(** [s.toLowerCase()] *)
Fixpoint toLowerCase (s : string) : string :=
  match s with
  | EmptyString => EmptyString
  | String c t => String (lower_ascii c) (toLowerCase t)
  end.

(** White space removed by [trim]: TAB, LF, VT, FF, CR and SPACE. *)
Definition is_ws (c : ascii) : bool :=
  let n := nat_of_ascii c in ((9 <=? n)%nat && (n <=? 13)%nat) || (n =? 32)%nat.

Fixpoint trimStart (s : string) : string :=
  match s with
  | EmptyString => EmptyString
  | String c t => if is_ws c then trimStart t else s
  end.

Fixpoint trimEnd (s : string) : string :=
  match s with
  | EmptyString => EmptyString
  | String c t =>
      match trimEnd t with
      | EmptyString => if is_ws c then EmptyString else String c EmptyString
      | t' => String c t'
      end
  end.

(** [s.trim()] *)
Definition trim (s : string) : string := trimEnd (trimStart s).

Definition TAB : string := String "009"%char EmptyString.
Definition LF : string := String "010"%char EmptyString.
Definition CR : string := String "013"%char EmptyString.

(** First and last character of a string (a space when it is empty). *)
Definition headc (s : string) : ascii :=
  match s with EmptyString => " "%char | String c _ => c end.

Fixpoint lastc (s : string) : ascii :=
  match s with
  | EmptyString => " "%char
  | String c EmptyString => c
  | String _ t => lastc t
  end.

(** Two strings that differ at most in the case of their ASCII letters. *)
Inductive same_ignoring_case : string -> string -> Prop :=
| sic_nil : same_ignoring_case EmptyString EmptyString
| sic_cons a b s t :
    lower_ascii a = lower_ascii b ->
    same_ignoring_case s t ->
    same_ignoring_case (String a s) (String b t).

(** [s] contains [x] when case is ignored. *)
Definition contains_ignoring_case (s x : string) : Prop :=
  exists pre mid post,
    s = (pre ++ mid ++ post)%string /\ same_ignoring_case mid x.

End JsString.

(* ===================================================================== *)
(** ** utils.js: the content classifier *)
(* ===================================================================== *)

Module Utils.
Import JsString.

(** A Node [Buffer]. *)
Definition Buffer := list byte.

(** [buffer.slice(start, end)] for [0 <= start <= end]. *)
Definition slice (b : Buffer) (start stop : nat) : Buffer :=
  firstn (stop - start) (skipn start b).

(** [buffer.toString('utf-8')] *)
Definition toString (b : Buffer) : string := string_of_list_byte b.

Definition validTypes : list string :=
  ["text/csv"; "application/csv"; "application/octet-stream"; "application/x-csv"].

Definition htmlMarkers : list string :=
  ["<!doctype"; "<html"; "<head"; "<body"; "<meta"; "<title"; "<script"; "<div"].

Definition delimiters : list string := [","; ";"; TAB; "|"].
Definition newlines : list string := [LF; CR].

(** The local [sample] of [ensureCsv]. *)
Definition sample (buffer : Buffer) : string :=
  let sampleSize := Nat.min (List.length buffer) 2048 in
  trim (toLowerCase (toString (slice buffer 0 sampleSize))).

(** The first 2048 bytes as text, before lower-casing and trimming. *)
Definition rawSample (buffer : Buffer) : string :=
  toString (firstn 2048 buffer).

Definition ensureCsv (buffer : Buffer) (contentType : string) : bool :=
  let lowerContentType := toLowerCase contentType in
  if includes lowerContentType "text/html"
     || includes lowerContentType "application/xhtml"
  then false
  else
    let sample := sample buffer in
    if existsb (fun marker => includes sample marker) htmlMarkers then false
    else
      let hasDelimiters :=
        includes sample "," || includes sample ";"
        || includes sample TAB || includes sample "|" in
      let hasNewlines := includes sample LF || includes sample CR in
      if negb hasDelimiters && (100 <? List.length buffer)%nat then false
      else if existsb (fun type => includes lowerContentType type) validTypes
      then true
      else hasDelimiters || hasNewlines || (List.length buffer <? 100)%nat.

(** What the claims call the checks of [ensureCsv]. *)
Definition htmlContentType (contentType : string) : bool :=
  includes (toLowerCase contentType) "text/html"
  || includes (toLowerCase contentType) "application/xhtml".

Definition csvContentType (contentType : string) : bool :=
  existsb (fun type => includes (toLowerCase contentType) type) validTypes.

Definition lacks (s : string) (needles : list string) : Prop :=
  forall x, In x needles -> includes s x = false.

Definition bytes_of (s : string) : Buffer := list_byte_of_string s.

End Utils.

(* ===================================================================== *)
(** ** Effects: a state and exception monad over an external world *)
(* ===================================================================== *)

Module Effects.
Import Utils.

(** A thrown JavaScript [Error] object: its [message], and the [code] that
    Node sets on file-system errors. *)
Record exn := Error { message : string; code : option string }.

(** [new Error(message)] *)
Definition newError (message : string) : exn := Error message None.

Inductive result (E A : Type) : Type :=
| Ok (a : A)
| Throw (e : E).
Arguments Ok {E A} a.
Arguments Throw {E A} e.

(** Objects passed to, or answered by, the world. *)
Definition ClickOptions := list (string * string).

Record Response := { status : Z; contentTypeHeader : option string }.

Record Date := {
  getFullYear : Z; getMonth : Z; getDate : Z;
  getHours : Z; getMinutes : Z; getSeconds : Z
}.

(** An entry of [Contents] in the answer to [ListObjectsV2Command];
    [LastModified] is the date in milliseconds. *)
Record S3Object := { Key : string; LastModified : Z }.

(** One interaction of the program with its world, with the answer it got. *)
Inductive event : Type :=
| EvSleep (ms : Z)
| EvInvoke (threw : option exn)
| EvGoto (url : string) (r : result exn unit)
| EvLocator (selector : string) (r : result exn unit)
| EvIsVisible (selector : string) (r : result exn bool)
| EvClick (selector : string) (options : ClickOptions) (r : result exn unit)
| EvFill (selector value : string) (r : result exn unit)
| EvPress (key : string) (r : result exn unit)
| EvWaitForLoadState (r : result exn unit)
| EvRequestGet (url : string) (r : result exn Response)
| EvBody (response : Response) (r : result exn Buffer)
| EvMkdir (path : string) (r : result exn unit)
| EvScreenshot (name : string) (r : result exn unit)
| EvLaunch (r : result exn unit)
| EvNewContext (r : result exn unit)
| EvNewPage (r : result exn unit)
| EvClosePage (r : result exn unit)
| EvCloseContext (r : result exn unit)
| EvCloseBrowser (r : result exn unit)
| EvDeliver (buffer : Buffer) (timestamp : string) (r : result exn unit)
| EvPruneHistory (target : string) (keepCount : Z) (r : result exn unit)
| EvExit (exitCode : Z)
| EvWordPressPost (filename : string) (r : result exn unit)
| EvS3Put (key : string) (r : result exn unit)
| EvWriteFile (path : string) (r : result exn unit)
| EvReaddir (path : string) (r : result exn (list string))
| EvUnlink (path : string) (r : result exn unit)
| EvS3List (prefix : string) (r : result exn (option (list S3Object)))
| EvS3Delete (key : string) (r : result exn unit).

(** The state threaded through the program: the world it talks to and the
    interactions so far, oldest first. *)
Record St (W : Type) : Type := mkSt { world : W; trace : list event }.
Arguments mkSt {W} world trace.
Arguments world {W} s.
Arguments trace {W} s.

(** A computation that returns an [A] or throws an [E]. *)
Definition M (W E A : Type) : Type := St W -> result E A * St W.

Definition ret {W E A} (a : A) : M W E A := fun s => (Ok a, s).

Definition throw {W E A} (e : E) : M W E A := fun s => (Throw e, s).

Definition bind {W E A B} (m : M W E A) (k : A -> M W E B) : M W E B :=
  fun s =>
    match m s with
    | (Ok a, s') => k a s'
    | (Throw e, s') => (Throw e, s')
    end.

(** [try { m } catch (e) { h e }] *)
Definition tryCatch {W E E' A} (m : M W E A) (h : E -> M W E' A) : M W E' A :=
  fun s =>
    match m s with
    | (Ok a, s') => (Ok a, s')
    | (Throw e, s') => h e s'
    end.

(** Ask the world, and record the question with its answer. *)
Definition perform {W E A} (h : W -> result E A * W) (log : result E A -> event)
  : M W E A :=
  fun s =>
    let (r, w') := h (world s) in
    (r, mkSt w' (trace s ++ [log r])).

(** The events that a run from [s] to [s'] added. *)
Definition emitted {W} (s s' : St W) (t : list event) : Prop :=
  trace s' = trace s ++ t.

(** [m] only adds events that satisfy [p], from every state. *)
Definition quiet {W E A} (p : event -> bool) (m : M W E A) : Prop :=
  forall s, exists t, emitted s (snd (m s)) t /\ forallb p t = true.

Module Notations.
Declare Scope js_scope.
Delimit Scope js_scope with js.
Notation "x <- m ;; k" := (bind m (fun x => k))
  (at level 61, m at next level, right associativity) : js_scope.
Notation "m ;; k" := (bind m (fun _ => k))
  (at level 61, right associativity) : js_scope.
End Notations.

(** A Hoare triple with one postcondition for a return and one for a throw. *)
Definition hoare {W E A} (P : St W -> Prop) (m : M W E A)
    (Q : A -> St W -> Prop) (R : E -> St W -> Prop) : Prop :=
  forall s, P s ->
    match m s with
    | (Ok a, s') => Q a s'
    | (Throw e, s') => R e s'
    end.

(** Timers and the wall clock. *)
Class Clock (W : Type) := {
  tick : Z -> W -> W;
  now : W -> Date
}.

(** The Playwright browser, its page and the screenshot directory. *)
Class Browser (W : Type) := {
  chromium_launch : W -> result exn unit * W;
  browser_newContext : W -> result exn unit * W;
  context_newPage : W -> result exn unit * W;
  page_goto : string -> W -> result exn unit * W;
  page_locator_first : string -> W -> result exn unit * W;
  element_isVisible : string -> W -> result exn bool * W;
  element_click : string -> ClickOptions -> W -> result exn unit * W;
  element_fill : string -> string -> W -> result exn unit * W;
  keyboard_press : string -> W -> result exn unit * W;
  page_waitForLoadState : W -> result exn unit * W;
  page_url : W -> string;
  page_request_get : string -> W -> result exn Response * W;
  response_body : Response -> W -> result exn Buffer * W;
  fs_mkdir : string -> W -> result exn unit * W;
  page_screenshot : string -> W -> result exn unit * W;
  page_close : W -> result exn unit * W;
  context_close : W -> result exn unit * W;
  browser_close : W -> result exn unit * W
}.

(** storage.js as the agent sees it. *)
Class Delivery (W : Type) := {
  storage_deliver : Buffer -> string -> W -> result exn unit * W;
  storage_pruneHistory : string -> Z -> W -> result exn unit * W
}.

(** What storage.js reaches: the WordPress endpoint, the S3 bucket and the
    local output directory. *)
Class Backends (W : Type) := {
  axios_post : string -> Buffer -> W -> result exn unit * W;
  s3_send_put : string -> Buffer -> W -> result exn unit * W;
  fs_mkdir_recursive : string -> W -> result exn unit * W;
  fs_writeFile : string -> Buffer -> W -> result exn unit * W;
  fs_readdir : string -> W -> result exn (list string) * W;
  fs_unlink : string -> W -> result exn unit * W;
  s3_send_list : string -> W -> result exn (option (list S3Object)) * W;
  s3_send_delete : string -> W -> result exn unit * W
}.

End Effects.

(* ===================================================================== *)
(** ** utils.js: sleep, withRetry, generateTimestamp *)
(* ===================================================================== *)

Module Retry.
Import Effects Effects.Notations.
Local Open Scope js_scope.

(** [String(n)] for an integer [n]. *)
Definition string_of_Z (z : Z) : string :=
  DecimalString.NilZero.string_of_int (Z.to_int z).

(** [s.padStart(2, '0')] *)
Definition padStart2 (s : string) : string :=
  match String.length s with
  | O => "00"
  | 1%nat => ("0" ++ s)%string
  | _ => s
  end.

Definition generateTimestamp (now : Date) : string :=
  let year := getFullYear now in
  let month := padStart2 (string_of_Z (getMonth now + 1)) in
  let day := padStart2 (string_of_Z (getDate now)) in
  let hours := padStart2 (string_of_Z (getHours now)) in
  let minutes := padStart2 (string_of_Z (getMinutes now)) in
  let seconds := padStart2 (string_of_Z (getSeconds now)) in
  (string_of_Z year ++ month ++ day ++ "-" ++ hours ++ minutes ++ seconds)%string.

(** The retry policy.  [retries] counts retries, so it is a natural number;
    the delays are milliseconds. *)
Record RetryOptions := {
  retries : nat;
  baseDelayMs : Z;
  maxDelayMs : Z;
  taskName : string
}.

(** The defaults of the destructuring in [withRetry]. *)
Definition defaultOptions : RetryOptions :=
  {| retries := 2; baseDelayMs := 1500; maxDelayMs := 30000; taskName := "Task" |}.

Section WithClock.
Context {W : Type} `{Clock W}.

Definition sleep {E} (ms : Z) : M W E unit :=
  fun s => (Ok tt, mkSt (tick ms (world s)) (trace s ++ [EvSleep ms])).

(** The [for] loop of [withRetry], with [remaining] iterations to go from
    [attempt]; [lastError] is [None] while it is still [undefined].  Leaving
    the loop is [throw lastError]. *)
Fixpoint withRetry_loop {A} (fn : M W exn A) (options : RetryOptions)
    (remaining : nat) (attempt : nat) (lastError : option exn)
  : M W (option exn) A :=
  match remaining with
  | O => throw lastError
  | S remaining' =>
      tryCatch fn (fun error =>
        (if (attempt <=? retries options)%nat
         then
           let delay :=
             Z.min (baseDelayMs options * 2 ^ (Z.of_nat attempt - 1))
                   (maxDelayMs options) in
           sleep delay
         else ret tt) ;;
        withRetry_loop fn options remaining' (S attempt) (Some error))
  end.

(** [for (let attempt = 1; attempt <= retries + 1; attempt++)] runs
    [retries + 1] times unless it returns. *)
Definition withRetry {A} (fn : M W exn A) (options : RetryOptions)
  : M W (option exn) A :=
  withRetry_loop fn options (retries options + 1) 1 None.

(** An operation of the world, made visible in the trace: every invocation
    is recorded with the error it threw, if any. *)
Definition observed {A} (operation : W -> result exn A * W) : M W exn A :=
  perform operation
    (fun r => EvInvoke match r with Ok _ => None | Throw e => Some e end).

End WithClock.

(** The delay before attempt [k + 1], as the policy states it. *)
Definition backoff (options : RetryOptions) (k : nat) : Z :=
  Z.min (baseDelayMs options * 2 ^ (Z.of_nat k - 1)) (maxDelayMs options).

(** The invocations recorded in a trace, and the delays slept. *)
Fixpoint invocations (t : list event) : list (option exn) :=
  match t with
  | [] => []
  | EvInvoke r :: t' => r :: invocations t'
  | _ :: t' => invocations t'
  end.

Fixpoint sleeps (t : list event) : list Z :=
  match t with
  | [] => []
  | EvSleep ms :: t' => ms :: sleeps t'
  | _ :: t' => sleeps t'
  end.

(** The shape of a run of [withRetry] that starts at attempt [k]: failed
    invocations, each followed by its back-off sleep while retries remain,
    closed by a success or by the failure of attempt [retries + 1]. *)
Inductive retry_run (options : RetryOptions) {A : Type}
  : nat -> list event -> result (option exn) A -> Prop :=
| run_success k a :
    (k <= retries options + 1)%nat ->
    retry_run options k [EvInvoke None] (Ok a)
| run_exhausted e :
    retry_run options (retries options + 1) [EvInvoke (Some e)] (Throw (Some e))
| run_again k e t r :
    (k <= retries options)%nat ->
    retry_run options (S k) t r ->
    retry_run options k (EvInvoke (Some e) :: EvSleep (backoff options k) :: t) r.

End Retry.

(* ===================================================================== *)
(** ** index.js: the agent *)
(* ===================================================================== *)

Module Agent.
Import JsString Utils Effects Effects.Notations Retry.
Local Open Scope js_scope.

(** The [config] object, read from the environment at start-up. *)
Record Config := {
  baseUrl : string;
  loginUrl : string;
  exportUrl : string;
  username : string;
  password : string;
  target : string;
  keepHistory : Z;
  screenshotOnError : bool
}.

(** The export of selectors.js: one ordered list of locator strings per
    role.  The flows are stated for any such lists. *)
Record Selectors := {
  cookieAccept : list string;
  emailSelectors : list string;
  passwordSelectors : list string;
  submit : list string;
  accountIndicators : list string
}.

(** What [downloadCsv] returns. *)
Record Download := { buffer : Buffer; contentType : string; bytes : nat }.

(** [process.exit(code)] ends the run where it stands. *)
Inductive exit := ProcessExit (exitCode : Z).

Section WithBrowser.
Context {W : Type} `{Clock W} `{Browser W} `{Delivery W}.
Variable config : Config.
Variable selectors : Selectors.

(** The page, one recorded interaction each. *)
Definition locator (selector : string) : M W exn unit :=
  perform (page_locator_first selector) (EvLocator selector).
Definition isVisible (selector : string) : M W exn bool :=
  perform (element_isVisible selector) (EvIsVisible selector).
Definition click (selector : string) (options : ClickOptions) : M W exn unit :=
  perform (element_click selector options) (EvClick selector options).
Definition fill (selector value : string) : M W exn unit :=
  perform (element_fill selector value) (EvFill selector value).
Definition goto (url : string) : M W exn unit :=
  perform (page_goto url) (EvGoto url).
Definition press (key : string) : M W exn unit :=
  perform (keyboard_press key) (EvPress key).
Definition waitForLoadState : M W exn unit :=
  perform page_waitForLoadState EvWaitForLoadState.
Definition url : M W exn string :=
  fun s => (Ok (page_url (world s)), s).
Definition requestGet (u : string) : M W exn Response :=
  perform (page_request_get u) (EvRequestGet u).
Definition body (response : Response) : M W exn Buffer :=
  perform (response_body response) (EvBody response).
Definition mkdir (path : string) : M W exn unit :=
  perform (fs_mkdir path) (EvMkdir path).
Definition screenshot (name : string) : M W exn unit :=
  perform (page_screenshot name) (EvScreenshot name).
Definition deliver (b : Buffer) (timestamp : string) : M W exn unit :=
  perform (storage_deliver b timestamp) (EvDeliver b timestamp).
Definition pruneHistory (target : string) (keepCount : Z) : M W exn unit :=
  perform (storage_pruneHistory target keepCount) (EvPruneHistory target keepCount).
Definition processExit {A} (exitCode : Z) : M W exit A :=
  fun s => (Throw (ProcessExit exitCode), mkSt (world s) (trace s ++ [EvExit exitCode])).

(** The body of the loop of [clickFirst] for one selector: [true] stands
    for [return true], [false] for going on to the next selector.  The
    [attempted] array only feeds the log. *)
Definition clickFirst_try (selector : string) (options : ClickOptions) : M W exn bool :=
  tryCatch
    (locator selector ;;
     isVisible <- tryCatch (isVisible selector) (fun _ => ret false) ;;
     if isVisible : bool
     then click selector options ;; ret true
     else ret false)
    (fun e => ret false).

Fixpoint clickFirst (selectorList : list string) (options : ClickOptions)
  : M W exn bool :=
  match selectorList with
  | [] => ret false
  | selector :: rest =>
      clicked <- clickFirst_try selector options ;;
      if clicked : bool then ret true else clickFirst rest options
  end.

Definition fillFirst_try (selector value : string) : M W exn bool :=
  tryCatch
    (locator selector ;;
     isVisible <- tryCatch (isVisible selector) (fun _ => ret false) ;;
     if isVisible : bool
     then fill selector value ;; ret true
     else ret false)
    (fun e => ret false).

Fixpoint fillFirst (selectorList : list string) (value : string) : M W exn bool :=
  match selectorList with
  | [] => ret false
  | selector :: rest =>
      filled <- fillFirst_try selector value ;;
      if filled : bool then ret true else fillFirst rest value
  end.

(** The block of a [catch] that saves a screenshot when diagnostics are on. *)
Definition screenshotIfEnabled (name : string) : M W exn unit :=
  if screenshotOnError config
  then mkdir "screenshots" ;; screenshot name
  else ret tt.

(** The URL test of the login verification. *)
Definition urlShowsLogin (currentUrl : string) : bool :=
  negb (includes currentUrl "/login")
  && (includes currentUrl "/account"
      || includes currentUrl "/dashboard"
      || String.eqb currentUrl (baseUrl config ++ "/")).

(** The loop over [selectors.accountIndicators]: [true] once an indicator
    is visible ([break]); a lookup or a visibility check that throws moves
    on to the next indicator. *)
Fixpoint indicatorVisible (indicators : list string) : M W exn bool :=
  match indicators with
  | [] => ret false
  | indicator :: rest =>
      found <- tryCatch (locator indicator ;; isVisible indicator)
                        (fun e => ret false) ;;
      if found : bool then ret true else indicatorVisible rest
  end.

(** The value of [isLoggedIn] when the verification is over. *)
Definition verifyLogin : M W exn bool :=
  currentUrl <- url ;;
  let isLoggedIn := urlShowsLogin currentUrl in
  if negb isLoggedIn
  then indicatorVisible (accountIndicators selectors)
  else ret isLoggedIn.

(** [login] between the navigation and the verification. *)
Definition enterCredentials : M W exn unit :=
  cookieAccepted <- clickFirst (cookieAccept selectors) [] ;;
  (if cookieAccepted : bool then sleep 1000 else ret tt) ;;
  emailFilled <- fillFirst (emailSelectors selectors) (username config) ;;
  if negb emailFilled
  then throw (newError "Could not find email input field")
  else
    passwordFilled <- fillFirst (passwordSelectors selectors) (password config) ;;
    if negb passwordFilled
    then throw (newError "Could not find password input field")
    else
      submitClicked <- clickFirst (submit selectors) [] ;;
      (if negb submitClicked then press "Enter" else ret tt) ;;
      waitForLoadState.

(** [login] up to the wait that follows the submission. *)
Definition submitCredentials : M W exn unit :=
  goto (loginUrl config) ;;
  enterCredentials.

Definition verificationFailed : exn :=
  newError
    "Login verification failed - still on login page or no account indicators found".

Definition login : M W exn bool :=
  tryCatch
    (submitCredentials ;;
     isLoggedIn <- verifyLogin ;;
     if negb isLoggedIn
     then throw verificationFailed
     else ret true)
    (fun error => screenshotIfEnabled "login-error" ;; throw error).

Definition notCsv : exn :=
  newError "Received HTML instead of CSV - session may have expired".

(** [downloadCsv] once the response is there. *)
Definition checkResponse (response : Response) : M W exn Download :=
  let status := status response in
  let contentType :=
    match contentTypeHeader response with
    | Some c => c
    | None => EmptyString
    end in
  buffer <- body response ;;
  if negb (status =? 200)%Z
  then throw (newError ("HTTP " ++ string_of_Z status ++ " received"))
  else if negb (ensureCsv buffer contentType)
  then throw notCsv
  else ret {| buffer := buffer; contentType := contentType;
              bytes := List.length buffer |}.

Definition downloadCsv : M W exn Download :=
  tryCatch
    (response <- requestGet (exportUrl config) ;;
     checkResponse response)
    (fun error => screenshotIfEnabled "download-error" ;; throw error).

Definition downloadWithRelogin : M W exn Download :=
  tryCatch downloadCsv
    (fun error =>
       if includes (message error) "HTML instead of CSV"
       then login ;; downloadCsv
       else throw error).

(** A step that throws inside the [try] of [runAgent]. *)
Definition await {A} (m : M W exn A) : M W (option exn) A :=
  tryCatch m (fun e => throw (Some e)).

(** [p.catch(() => {})] *)
Definition quietly (m : M W exn unit) : M W exit unit :=
  tryCatch m (fun _ => ret tt).

Definition runAgent : M W exit unit :=
  tryCatch
    (await (perform chromium_launch EvLaunch) ;;
     await (perform browser_newContext EvNewContext) ;;
     await (perform context_newPage EvNewPage) ;;
     withRetry login
       {| retries := 2; baseDelayMs := 3000; maxDelayMs := 30000;
          taskName := "Login" |} ;;
     download <- withRetry downloadWithRelogin
       {| retries := 2; baseDelayMs := 2000; maxDelayMs := 30000;
          taskName := "Download CSV" |} ;;
     timestamp <- (fun s => (Ok (generateTimestamp (now (world s))), s)) ;;
     await (deliver (buffer download) timestamp) ;;
     await (pruneHistory (target config) (keepHistory config)))
    (fun error => processExit 1) ;;
  quietly (perform page_close EvClosePage) ;;
  quietly (perform context_close EvCloseContext) ;;
  quietly (perform browser_close EvCloseBrowser).

End WithBrowser.

(** The content type that [downloadCsv] reads off a response. *)
Definition declaredType (response : Response) : string :=
  match contentTypeHeader response with
  | Some c => c
  | None => EmptyString
  end.

(** The trace of one pass over a selector that did not end in a successful
    action: the lookup threw, or the element was not reported visible, or it
    was and the action threw. *)
Inductive missed (action : string -> result exn unit -> event) (selector : string)
  : list event -> Prop :=
| missed_lookup e :
    missed action selector [EvLocator selector (Throw e)]
| missed_hidden r :
    r <> Ok true ->
    missed action selector [EvLocator selector (Ok tt); EvIsVisible selector r]
| missed_action e :
    missed action selector
      [EvLocator selector (Ok tt); EvIsVisible selector (Ok true);
       action selector (Throw e)].

(** The trace of a pass that found the element visible and acted on it. *)
Definition hit (action : string -> result exn unit -> event) (selector : string)
  : list event :=
  [EvLocator selector (Ok tt); EvIsVisible selector (Ok true);
   action selector (Ok tt)].

(** The trace of [clickFirst] and [fillFirst] over a selector list, with
    the value they return: misses in list order, then either the first hit,
    after which nothing more is tried, or the end of the list. *)
Inductive first_acted (action : string -> result exn unit -> event)
  : list string -> list event -> bool -> Prop :=
| acted_none : first_acted action [] [] false
| acted_here selector rest :
    first_acted action (selector :: rest) (hit action selector) true
| acted_later selector rest t1 t2 b :
    missed action selector t1 ->
    first_acted action rest t2 b ->
    first_acted action (selector :: rest) (t1 ++ t2) b.

(** Counting interactions in a trace. *)
Definition is_fetch (e : event) : bool :=
  match e with EvRequestGet _ _ => true | _ => false end.
Definition is_goto (e : event) : bool :=
  match e with EvGoto _ _ => true | _ => false end.
Definition is_action (e : event) : bool :=
  match e with EvClick _ _ _ | EvFill _ _ _ => true | _ => false end.

(** Events of the form handling and of the diagnostics: neither a
    navigation, nor a fetch, nor a delivery. *)
Definition form_event (e : event) : bool :=
  match e with
  | EvSleep _ | EvLocator _ _ | EvIsVisible _ _ | EvClick _ _ _ | EvFill _ _ _
  | EvPress _ _ | EvWaitForLoadState _ | EvBody _ _ | EvMkdir _ _
  | EvScreenshot _ _ => true
  | _ => false
  end.

Definition not_delivery (e : event) : bool :=
  match e with EvDeliver _ _ _ => false | _ => true end.

Definition fetches (t : list event) : nat := List.length (filter is_fetch t).
Definition logins (t : list event) : nat := List.length (filter is_goto t).

(** The selectors that a trace touches. *)
Definition selector_of (e : event) : option string :=
  match e with
  | EvLocator s _ | EvIsVisible s _ | EvClick s _ _ | EvFill s _ _ => Some s
  | _ => None
  end.

(** The reading under which a page whose URL is the configured base URL,
    as it stands, counts as logged in. *)
Definition base_url_suffices {W : Type} `{Browser W}
    (config : Config) (selectors : Selectors) (s : St W) : Prop :=
  page_url (world s) = baseUrl config ->
  fst (verifyLogin config selectors s) = Ok true.

(** The diagnostic screenshot cannot throw: it is switched off, or the
    directory and the screenshot can always be written. *)
Definition diagnostics_safe {W : Type} `{Browser W} (config : Config) : Prop :=
  screenshotOnError config = false
  \/ ((forall path w, fst (fs_mkdir path w) = Ok tt)
      /\ (forall name w, fst (page_screenshot name w) = Ok tt)).

(** The reading under which a body classified as not CSV always leads to
    one more login followed by one more fetch. *)
Definition relogin_then_refetch {W : Type} `{Clock W} `{Browser W}
    (config : Config) (selectors : Selectors) (s : St W) : Prop :=
  forall response b w1 w2,
    page_request_get (exportUrl config) (world s) = (Ok response, w1) ->
    response_body response w1 = (Ok b, w2) ->
    status response = 200%Z ->
    ensureCsv b (declaredType response) = false ->
    forall t,
      emitted s (snd (downloadWithRelogin config selectors s)) t ->
      logins t = 1%nat /\ fetches t = 2%nat.

(** The reading under which an element seen visible ends the search: the
    first selector reported visible is acted upon, the result is success,
    and no selector after it in the list is touched. *)
Definition stops_at_first_visible
    (selectorList : list string) (t : list event) (r : result exn bool) : Prop :=
  forall pre selector post,
    selectorList = pre ++ selector :: post ->
    In (EvIsVisible selector (Ok true)) t ->
    (forall p, In p pre -> ~ In (EvIsVisible p (Ok true)) t) ->
    r = Ok true
    /\ (exists a, In a t /\ is_action a = true /\ selector_of a = Some selector)
    /\ (forall e later, In e t -> In later post -> selector_of e <> Some later).

(** [b] was fetched with status 200 and classified as CSV in [t]. *)
Definition validated (t : list event) (b : Buffer) : Prop :=
  exists response,
    In (EvBody response (Ok b)) t
    /\ status response = 200%Z
    /\ ensureCsv b (declaredType response) = true.

Definition no_delivery (t : list event) : Prop := forallb not_delivery t = true.

(** Every delivery in the trace hands over a buffer validated before it. *)
Definition deliveries_validated (t : list event) : Prop :=
  forall t1 b timestamp r t2,
    t = t1 ++ EvDeliver b timestamp r :: t2 -> validated t1 b.

End Agent.

(* ===================================================================== *)
(** ** storage.js, in its two revisions *)
(* ===================================================================== *)

Module Storage.
Import JsString Utils Effects Effects.Notations Retry.
Local Open Scope js_scope.

(** The variables of [process.env] that storage.js reads. *)
Record Env := {
  TARGET : option string;
  WP_DEST_FILE : option string;
  WP_BASE_URL : option string;
  WP_USER : option string;
  WP_APP_PASS : option string;
  S3_ENDPOINT : option string;
  S3_BUCKET : option string;
  S3_ACCESS_KEY : option string;
  S3_SECRET_KEY : option string;
  S3_KEY_PREFIX : option string;
  S3_KEY_PREFIX_HISTORY : option string
}.

(** [process.env.X || fallback] *)
Definition orElse (v : option string) (fallback : string) : string :=
  match v with
  | None | Some EmptyString => fallback
  | Some x => x
  end.

(** [!process.env.X] *)
Definition unset (v : option string) : bool :=
  match v with
  | None | Some EmptyString => true
  | Some _ => false
  end.

(** [s.endsWith(x)] *)
Definition endsWith (s x : string) : bool :=
  (String.length x <=? String.length s)%nat
  && String.eqb (substring (String.length s - String.length x) (String.length x) s) x.

(** [s.startsWith(x)] *)
Definition startsWith (s x : string) : bool := String.prefix x s.

(** [array.sort(compare)], a stable sort; [before x y] stands for
    [compare(x, y) <= 0]. *)
Section Sorting.
Context {A : Type}.
Variable before : A -> A -> bool.

Fixpoint insertBy (x : A) (l : list A) : list A :=
  match l with
  | [] => [x]
  | y :: r => if before x y then x :: l else y :: insertBy x r
  end.

Fixpoint sortBy (l : list A) : list A :=
  match l with
  | [] => []
  | x :: r => insertBy x (sortBy r)
  end.

End Sorting.

(** [array.sort()] on strings: ascending by character codes. *)
Definition sort (l : list string) : list string := sortBy String.leb l.

(** [(a, b) => b.LastModified - a.LastModified]: most recent first. *)
Definition newerFirst (a b : S3Object) : bool :=
  (LastModified b <=? LastModified a)%Z.

(** [array.slice(start)] *)
Definition sliceFrom {A} (l : list A) (start : Z) : list A :=
  if (start <? 0)%Z
  then skipn (Z.to_nat (Z.max (Z.of_nat (List.length l) + start) 0)) l
  else skipn (Z.to_nat start) l.

Definition outputDir : string := "output".
Definition historyDir : string := "output/history".

(** [path.join(dir, name)] for a plain file name. *)
Definition join (dir name : string) : string := (dir ++ "/" ++ name)%string.

Section WithBackends.
Context {W : Type} `{Clock W} `{Backends W}.
Variable env : Env.

(** The request to the WordPress endpoint; its answer is the error that the
    [catch] of [uploadToWordPress] throws, if any. *)
Definition uploadToWordPress (buffer : Buffer) (filename : string) : M W exn unit :=
  if unset (WP_BASE_URL env) || unset (WP_USER env) || unset (WP_APP_PASS env)
  then throw (newError
                "Missing WordPress configuration (WP_BASE_URL, WP_USER, WP_APP_PASS)")
  else perform (axios_post filename buffer) (EvWordPressPost filename).

Definition uploadToS3 (buffer : Buffer) (filename : string) (isHistory : bool)
  : M W exn unit :=
  if unset (S3_ENDPOINT env) || unset (S3_BUCKET env)
     || unset (S3_ACCESS_KEY env) || unset (S3_SECRET_KEY env)
  then throw (newError "Missing S3 configuration")
  else
    let key :=
      if isHistory
      then (orElse (S3_KEY_PREFIX_HISTORY env) "ingrosmart/history/" ++ filename)%string
      else orElse (S3_KEY_PREFIX env) "ingrosmart/ingrosmart_catalog.csv" in
    tryCatch (perform (s3_send_put key buffer) (EvS3Put key))
      (fun error => throw (newError ("S3 upload failed: " ++ message error))).

Definition saveToFileSystem (buffer : Buffer) (filename : string) (isHistory : bool)
  : M W exn string :=
  perform (fs_mkdir_recursive historyDir) (EvMkdir historyDir) ;;
  let filePath :=
    if isHistory
    then join historyDir filename
    else join outputDir "ingrosmart_catalog.csv" in
  perform (fs_writeFile filePath buffer) (EvWriteFile filePath) ;;
  ret filePath.

(** The [switch (target)] of [deliver], the same in both revisions. *)
Definition deliverTo (target : string) (buffer : Buffer)
    (catalogFilename historyFilename : string) : M W exn unit :=
  if String.eqb target "wp"
  then uploadToWordPress buffer catalogFilename ;;
       uploadToWordPress buffer historyFilename
  else if String.eqb target "s3"
  then uploadToS3 buffer catalogFilename false ;;
       uploadToS3 buffer historyFilename true
  else saveToFileSystem buffer catalogFilename false ;;
       saveToFileSystem buffer historyFilename true ;;
       ret tt.

End WithBackends.

(** *** The most recent revision: two alternating slots *)
Module Latest.
Section WithBackends.
Context {W : Type} `{Clock W} `{Backends W}.
Variable env : Env.

Definition deliver (buffer : Buffer) (timestamp : string) : M W exn unit :=
  let target := orElse (TARGET env) "fs" in
  let catalogFilename := orElse (WP_DEST_FILE env) "ingrosmart_catalog.csv" in
  currentMinute <- (fun s => (Ok (getMinutes (now (world s))), s)) ;;
  let backupSlot := if (currentMinute <? 30)%Z then "1" else "2" in
  let historyFilename := ("ingrosmart_backup_" ++ backupSlot ++ ".csv")%string in
  tryCatch (deliverTo env target buffer catalogFilename historyFilename)
    (fun error => throw error).

Definition pruneHistory (target : string) (keepCount : Z) : M W exn unit :=
  ret tt.

(** The legacy functions, kept and no longer called. *)
Definition pruneLocalHistory (keepCount : Z) : M W exn unit := ret tt.
Definition pruneS3History (keepCount : Z) : M W exn unit := ret tt.

End WithBackends.
End Latest.

(** *** The older revision: time-stamped copies, pruned to the newest *)
Module Older.
Section WithBackends.
Context {W : Type} `{Clock W} `{Backends W}.
Variable env : Env.

Definition deliver (buffer : Buffer) (timestamp : string) : M W exn unit :=
  let target := orElse (TARGET env) "fs" in
  let historyFilename := ("ingrosmart-" ++ timestamp ++ ".csv")%string in
  let catalogFilename := orElse (WP_DEST_FILE env) "ingrosmart_catalog.csv" in
  tryCatch (deliverTo env target buffer catalogFilename historyFilename)
    (fun error => throw error).

(** [for (const file of toDelete) await fs.unlink(...)] *)
Fixpoint unlinkAll (toDelete : list string) : M W exn unit :=
  match toDelete with
  | [] => ret tt
  | file :: rest =>
      perform (fs_unlink (join historyDir file)) (EvUnlink (join historyDir file)) ;;
      unlinkAll rest
  end.

Definition isHistoryCsv (f : string) : bool :=
  startsWith f "ingrosmart-" && endsWith f ".csv".

Definition pruneLocalHistory (keepCount : Z) : M W exn unit :=
  tryCatch
    (files <- perform (fs_readdir historyDir) (EvReaddir historyDir) ;;
     let csvFiles := rev (sort (filter isHistoryCsv files)) in
     if (Z.of_nat (List.length csvFiles) >? keepCount)%Z
     then
       let toDelete := sliceFrom csvFiles keepCount in
       unlinkAll toDelete
     else ret tt)
    (fun error =>
       if negb (match code error with
                | Some c => String.eqb c "ENOENT"
                | None => false
                end)
       then throw error
       else ret tt).

(** [for (const obj of toDelete) await client.send(new DeleteObjectCommand(...))] *)
Fixpoint deleteAll (toDelete : list S3Object) : M W exn unit :=
  match toDelete with
  | [] => ret tt
  | obj :: rest =>
      perform (s3_send_delete (Key obj)) (EvS3Delete (Key obj)) ;;
      deleteAll rest
  end.

Definition isHistoryObject (obj : S3Object) : bool :=
  includes (Key obj) "ingrosmart-" && endsWith (Key obj) ".csv".

Definition pruneS3History (keepCount : Z) : M W exn unit :=
  let keyPrefixHistory := orElse (S3_KEY_PREFIX_HISTORY env) "ingrosmart/history/" in
  if unset (S3_ENDPOINT env) || unset (S3_BUCKET env) then ret tt
  else
    listResponse <- perform (s3_send_list keyPrefixHistory) (EvS3List keyPrefixHistory) ;;
    match listResponse with
    | None => ret tt
    | Some contents =>
        if (Z.of_nat (List.length contents) <=? keepCount)%Z then ret tt
        else
          let sorted := sortBy newerFirst (filter isHistoryObject contents) in
          if (Z.of_nat (List.length sorted) <=? keepCount)%Z then ret tt
          else
            let toDelete := sliceFrom sorted keepCount in
            deleteAll toDelete
    end.

Definition pruneHistory (target : string) (keepCount : Z) : M W exn unit :=
  if (keepCount <=? 0)%Z then ret tt
  else
    tryCatch
      (if String.eqb target "s3"
       then pruneS3History keepCount
       else if String.eqb target "fs"
       then pruneLocalHistory keepCount
       else ret tt)
      (fun error => ret tt).

End WithBackends.
End Older.

(** Where the two copies of a delivery go, by target: the name posted to
    WordPress, the S3 key, or the local path. *)
Definition catalogAt (env : Env) (target catalogFilename : string) : string :=
  if String.eqb target "wp" then catalogFilename
  else if String.eqb target "s3"
  then orElse (S3_KEY_PREFIX env) "ingrosmart/ingrosmart_catalog.csv"
  else "output/ingrosmart_catalog.csv".

Definition historyAt (env : Env) (target historyFilename : string) : string :=
  if String.eqb target "wp" then historyFilename
  else if String.eqb target "s3"
  then (orElse (S3_KEY_PREFIX_HISTORY env) "ingrosmart/history/" ++ historyFilename)%string
  else ("output/history/" ++ historyFilename)%string.

Definition catalogDestination (env : Env) : string :=
  catalogAt env (orElse (TARGET env) "fs")
    (orElse (WP_DEST_FILE env) "ingrosmart_catalog.csv").

Definition historyDestination (env : Env) (historyFilename : string) : string :=
  historyAt env (orElse (TARGET env) "fs") historyFilename.

(** The order of [sort] on file names. *)
Definition le (a b : string) : Prop := String.leb a b = true.

(** The slot of the most recent revision, by minute of the hour. *)
Definition slotFilename (minute : Z) : string :=
  if (minute <? 30)%Z then "ingrosmart_backup_1.csv" else "ingrosmart_backup_2.csv".

(** The destinations written, and the paths unlinked, in a trace. *)
Fixpoint written (t : list event) : list string :=
  match t with
  | [] => []
  | EvWordPressPost d _ :: t' | EvS3Put d _ :: t' | EvWriteFile d _ :: t' =>
      d :: written t'
  | _ :: t' => written t'
  end.

Fixpoint unlinked (t : list event) : list string :=
  match t with
  | [] => []
  | EvUnlink path _ :: t' => path :: unlinked t'
  | _ :: t' => unlinked t'
  end.

Fixpoint deletedKeys (t : list event) : list string :=
  match t with
  | [] => []
  | EvS3Delete key _ :: t' => key :: deletedKeys t'
  | _ :: t' => deletedKeys t'
  end.

(** The reading under which the older [pruneHistory] always leaves only the
    newest [keepCount] history files of the local directory. *)
Definition prunes_all_but_newest {W : Type} `{Backends W}
    (env : Env) (target : string) (keepCount : Z) (s : St W) : Prop :=
  forall files w1,
    fs_readdir historyDir (world s) = (Ok files, w1) ->
    unlinked (trace (snd (Older.pruneHistory env target keepCount s)))
    = map (join historyDir)
        (skipn (Z.to_nat keepCount) (rev (sort (filter Older.isHistoryCsv files)))).

End Storage.

(* ===================================================================== *)
(** ** Scripted worlds, for running the program on concrete inputs *)
(* ===================================================================== *)

Module Fake.
Import JsString Utils Effects Retry Agent.

(** A world that only counts the invocations of an operation. *)
#[export] Instance counter_clock : Clock nat := {
  tick := fun _ n => n;
  now := fun _ => Build_Date 2026 0 1 0 0 0
}.

Definition always_fails (n : nat) : result exn string * nat :=
  (Throw (newError ("failure " ++ string_of_Z (Z.of_nat n))), S n).

Definition fails_once (n : nat) : result exn string * nat :=
  (if (n =? 0)%nat then Throw (newError "Test retry error") else Ok "success", S n).

(** A scripted site: which selectors show, which lookups and actions throw,
    where the browser lands after the form is sent, and the answers of the
    export endpoint, in order. *)
Record Site := {
  visible : list string;
  unlocatable : list string;
  stuck : list string;
  currentUrl : string;
  landingUrl : string;
  responses : list (Response * Buffer);
  pendingBody : Buffer;
  minuteOfHour : Z
}.

Definition mem (x : string) (l : list string) : bool := existsb (String.eqb x) l.

Definition timeout : exn := newError "Timeout 30000ms exceeded".

Definition navigate (u : string) (p : Site) : Site :=
  {| visible := visible p; unlocatable := unlocatable p; stuck := stuck p;
     currentUrl := u; landingUrl := landingUrl p;
     responses := responses p; pendingBody := pendingBody p;
     minuteOfHour := minuteOfHour p |}.

Definition answer (p : Site) : result exn Response * Site :=
  match responses p with
  | [] => (Throw (newError "net::ERR_CONNECTION_REFUSED"), p)
  | (r, b) :: rest =>
      (Ok r,
       {| visible := visible p; unlocatable := unlocatable p; stuck := stuck p;
          currentUrl := currentUrl p; landingUrl := landingUrl p;
          responses := rest; pendingBody := b;
          minuteOfHour := minuteOfHour p |})
  end.

#[export] Instance site_clock : Clock Site := {
  tick := fun _ p => p;
  now := fun p => Build_Date 2026 0 1 12 (minuteOfHour p) 0
}.

#[export] Instance site_browser : Browser Site := {
  chromium_launch := fun p => (Ok tt, p);
  browser_newContext := fun p => (Ok tt, p);
  context_newPage := fun p => (Ok tt, p);
  page_goto := fun u p => (Ok tt, navigate u p);
  page_locator_first := fun sel p =>
    (if mem sel (unlocatable p) then Throw (newError "Unknown engine") else Ok tt, p);
  element_isVisible := fun sel p => (Ok (mem sel (visible p)), p);
  element_click := fun sel _ p =>
    (if mem sel (stuck p) then Throw timeout else Ok tt, p);
  element_fill := fun sel _ p =>
    (if mem sel (stuck p) then Throw timeout else Ok tt, p);
  keyboard_press := fun _ p => (Ok tt, p);
  page_waitForLoadState := fun p => (Ok tt, navigate (landingUrl p) p);
  page_url := currentUrl;
  page_request_get := fun _ p => answer p;
  response_body := fun _ p => (Ok (pendingBody p), p);
  fs_mkdir := fun _ p => (Ok tt, p);
  page_screenshot := fun _ p => (Ok tt, p);
  page_close := fun p => (Ok tt, p);
  context_close := fun p => (Ok tt, p);
  browser_close := fun p => (Ok tt, p)
}.

#[export] Instance site_delivery : Delivery Site := {
  storage_deliver := fun _ _ p => (Ok tt, p);
  storage_pruneHistory := fun _ _ p => (Ok tt, p)
}.

Definition blank : Site :=
  {| visible := []; unlocatable := []; stuck := [];
     currentUrl := "about:blank"; landingUrl := "about:blank";
     responses := []; pendingBody := []; minuteOfHour := 0 |}.

(** Only the third of three selectors shows. *)
Definition third_shows : Site :=
  {| visible := ["#third"]; unlocatable := ["#first"]; stuck := [];
     currentUrl := "about:blank"; landingUrl := "about:blank";
     responses := []; pendingBody := []; minuteOfHour := 0 |}.

(** Two buttons show; clicking the first one times out. *)
Definition first_stuck : Site :=
  {| visible := ["#a"; "#b"]; unlocatable := []; stuck := ["#a"];
     currentUrl := "about:blank"; landingUrl := "about:blank";
     responses := []; pendingBody := []; minuteOfHour := 0 |}.

(** The site as configured by default, and as configured with a base URL
    that ends in a slash. *)
Definition config : Config :=
  {| baseUrl := "https://www.ingrosmart.it";
     loginUrl := "https://www.ingrosmart.it/customer/account/login/";
     exportUrl := "https://www.ingrosmart.it/datacomcontroller/agent/productExport/";
     username := "user@example.com"; password := "secret";
     target := "fs"; keepHistory := 10; screenshotOnError := false |}.

Definition config_slash : Config :=
  {| baseUrl := "https://www.ingrosmart.it/";
     loginUrl := "https://www.ingrosmart.it/customer/account/login/";
     exportUrl := "https://www.ingrosmart.it/datacomcontroller/agent/productExport/";
     username := "user@example.com"; password := "secret";
     target := "fs"; keepHistory := 10; screenshotOnError := false |}.

Definition selectors : Selectors :=
  {| cookieAccept := ["#accept-cookies"; "button.cookie-accept"];
     emailSelectors := ["#email"; "input[name='login[username]']"];
     passwordSelectors := ["#pass"; "input[type='password']"];
     submit := ["#send2"; "button[type='submit']"];
     accountIndicators := [".customer-welcome"; "a[href*='logout']"] |}.

(** A page that shows the login form and lands on [landing] once it is
    sent, with no account indicator in sight; the export endpoint answers
    with [answers]. *)
Definition form_site (landing : string) (answers : list (Response * Buffer)) : Site :=
  {| visible := ["#email"; "#pass"; "#send2"]; unlocatable := []; stuck := [];
     currentUrl := "about:blank"; landingUrl := landing;
     responses := answers; pendingBody := []; minuteOfHour := 0 |}.

(** A page resting on [u], with no account indicator in sight. *)
Definition resting_at (u : string) : Site :=
  {| visible := []; unlocatable := []; stuck := [];
     currentUrl := u; landingUrl := u;
     responses := []; pendingBody := []; minuteOfHour := 0 |}.

(** The session has expired; the login form works and lands on the account
    page, after which the export is served. *)
Definition expired_then_ok : Site :=
  {| visible := ["#email"; "#pass"; "#send2"]; unlocatable := []; stuck := [];
     currentUrl := "about:blank";
     landingUrl := "https://www.ingrosmart.it/customer/account/";
     responses :=
       [({| status := 200; contentTypeHeader := Some "text/html; charset=UTF-8" |},
         bytes_of "<!DOCTYPE html><html><body>Login</body></html>");
        ({| status := 200; contentTypeHeader := Some "text/csv" |},
         bytes_of ("id,name,price" ++ LF ++ "1,Product,100")%string)];
     pendingBody := []; minuteOfHour := 0 |}.

(** A local output directory: the names in [output/history]. *)
Record Disk := {
  history : list string;
  objects : list S3Object;
  clockMinute : Z
}.

#[export] Instance disk_clock : Clock Disk := {
  tick := fun _ d => d;
  now := fun d => Build_Date 2026 0 1 12 (clockMinute d) 0
}.

#[export] Instance disk_backends : Backends Disk := {
  axios_post := fun _ _ d => (Ok tt, d);
  s3_send_put := fun _ _ d => (Ok tt, d);
  fs_mkdir_recursive := fun _ d => (Ok tt, d);
  fs_writeFile := fun _ _ d => (Ok tt, d);
  fs_readdir := fun _ d => (Ok (history d), d);
  fs_unlink := fun path d =>
    (Ok tt,
     {| history :=
          filter (fun f => negb (String.eqb (Storage.join Storage.historyDir f) path))
                 (history d);
        objects := objects d;
        clockMinute := clockMinute d |});
  s3_send_list := fun _ d => (Ok (Some (objects d)), d);
  s3_send_delete := fun key d =>
    (Ok tt,
     {| history := history d;
        objects := filter (fun o => negb (String.eqb (Key o) key)) (objects d);
        clockMinute := clockMinute d |})
}.

Definition four_copies : Disk :=
  {| history :=
       ["ingrosmart-20260102-060000.csv"; "notes.txt";
        "ingrosmart-20260101-060000.csv"; "ingrosmart-20260104-060000.csv";
        "ingrosmart-20260103-060000.csv"];
     objects :=
       [{| Key := "ingrosmart/history/ingrosmart-20260102-060000.csv";
           LastModified := 1767333600000 |};
        {| Key := "ingrosmart/history/ingrosmart-20260103-060000.csv";
           LastModified := 1767420000000 |};
        {| Key := "ingrosmart/history/ingrosmart-20260101-060000.csv";
           LastModified := 1767247200000 |}];
     clockMinute := 42 |}.

Definition env_fs : Storage.Env :=
  {| Storage.TARGET := None; Storage.WP_DEST_FILE := None;
     Storage.WP_BASE_URL := None; Storage.WP_USER := None;
     Storage.WP_APP_PASS := None; Storage.S3_ENDPOINT := None;
     Storage.S3_BUCKET := None; Storage.S3_ACCESS_KEY := None;
     Storage.S3_SECRET_KEY := None; Storage.S3_KEY_PREFIX := None;
     Storage.S3_KEY_PREFIX_HISTORY := None |}.

Definition env_s3 : Storage.Env :=
  {| Storage.TARGET := Some "s3"; Storage.WP_DEST_FILE := None;
     Storage.WP_BASE_URL := None; Storage.WP_USER := None;
     Storage.WP_APP_PASS := None;
     Storage.S3_ENDPOINT := Some "https://s3.example.com";
     Storage.S3_BUCKET := Some "catalog"; Storage.S3_ACCESS_KEY := Some "key";
     Storage.S3_SECRET_KEY := Some "secret"; Storage.S3_KEY_PREFIX := None;
     Storage.S3_KEY_PREFIX_HISTORY := None |}.

Definition html_page : Response * Buffer :=
  ({| status := 200; contentTypeHeader := Some "text/html; charset=UTF-8" |},
   bytes_of "<!DOCTYPE html><html><body>Login</body></html>").

Definition csv_export : Response * Buffer :=
  ({| status := 200; contentTypeHeader := Some "text/csv" |},
   bytes_of ("id,name,price" ++ LF ++ "1,Product,100")%string).

Definition server_error : Response * Buffer :=
  ({| status := 503; contentTypeHeader := None |}, bytes_of "Service Unavailable").

(** The session has expired and the login page no longer shows its form. *)
Definition expired_no_form : Site :=
  {| visible := []; unlocatable := []; stuck := [];
     currentUrl := "about:blank"; landingUrl := "about:blank";
     responses := [html_page; csv_export]; pendingBody := []; minuteOfHour := 0 |}.

End Fake.

(* ===================================================================== *)
(** ** logger.js *)
(* ===================================================================== *)

Module Logger.
Import JsString.

(** The four methods of [logger], by the level they log at. *)
Inductive Level := debug | info | warn | error.

(** The name of a level, as the method hands it to [formatMessage]. *)
Definition name (level : Level) : string :=
  match level with
  | debug => "debug"
  | info => "info"
  | warn => "warn"
  | error => "error"
  end.

(** [LOG_LEVELS.debug], ..., [LOG_LEVELS.error] *)
Definition LOG_LEVELS (level : Level) : Z :=
  match level with
  | debug => 0
  | info => 1
  | warn => 2
  | error => 3
  end.

(** What [LOG_LEVELS[key]] evaluates to: the number of a level, a member
    that every object inherits, which is not a number, or [undefined]. *)
Inductive Member := Number (n : Z) | Inherited | Undefined.

(** [LOG_LEVELS[key]] for a key in lower case.  Of the members that an object
    literal inherits, [constructor] and [__proto__] are the ones whose names
    are in lower case. *)
Definition member (key : string) : Member :=
  if String.eqb key "debug" then Number (LOG_LEVELS debug)
  else if String.eqb key "info" then Number (LOG_LEVELS info)
  else if String.eqb key "warn" then Number (LOG_LEVELS warn)
  else if String.eqb key "error" then Number (LOG_LEVELS error)
  else if String.eqb key "constructor" || String.eqb key "__proto__" then Inherited
  else Undefined.

(** [LOG_LEVELS[process.env.LOG_LEVEL?.toLowerCase()] ?? LOG_LEVELS.info] *)
Definition currentLevel (LOG_LEVEL : option string) : Member :=
  let found :=
    match LOG_LEVEL with
    | Some v => member (toLowerCase v)
    | None => Undefined
    end in
  match found with
  | Undefined => Number (LOG_LEVELS info)
  | _ => found
  end.

(** [currentLevel <= n]: false when [currentLevel] is not a number. *)
Definition atMost (current : Member) (n : Z) : bool :=
  match current with
  | Number k => (k <=? n)%Z
  | _ => false
  end.

(** [currentLevel === n] *)
Definition exactly (current : Member) (n : Z) : bool :=
  match current with
  | Number k => (k =? n)%Z
  | _ => false
  end.

Definition upper_ascii (c : ascii) : ascii :=
  if is_lower c then ascii_of_nat (nat_of_ascii c - 32) else c.

(** [s.toUpperCase()] *)
Fixpoint toUpperCase (s : string) : string :=
  match s with
  | EmptyString => EmptyString
  | String c t => String (upper_ascii c) (toUpperCase t)
  end.

(** An argument after the message: an [Error] with its [message] and
    [stack], another object with the text that [JSON.stringify(arg, null, 2)]
    gives for it, or any other value with the text that [join] prints for
    it. *)
Inductive Arg :=
| ErrorArg (message stack : string)
| ObjectArg (json : string)
| ValueArg (text : string).

(** The function mapped over [args] in [formatMessage]. *)
Definition formatArg (current : Member) (arg : Arg) : string :=
  match arg with
  | ErrorArg message stack =>
      (message ++ (if exactly current (LOG_LEVELS debug) then LF ++ stack else EmptyString))%string
  | ObjectArg json => json
  | ValueArg text => text
  end.

(** [formatMessage(level, message, ...args)]; [timestamp] is the value of
    [new Date().toISOString()] at the call. *)
Definition formatMessage (current : Member) (timestamp : string)
    (level : Level) (message : string) (args : list Arg) : string :=
  let prefix := ("[" ++ timestamp ++ "] [" ++ toUpperCase (name level) ++ "]")%string in
  let formattedArgs := map (formatArg current) args in
  trim (prefix ++ " " ++ message ++ " " ++ String.concat " " formattedArgs)%string.

(** The methods of [console] that the logger calls. *)
Inductive Console := console_log | console_warn | console_error.

Definition console (level : Level) : Console :=
  match level with
  | debug | info => console_log
  | warn => console_warn
  | error => console_error
  end.

(** [logger.debug], [logger.info], [logger.warn] and [logger.error]: the
    method of [console] called and the line handed to it, or nothing. *)
Definition logger (LOG_LEVEL : option string) (timestamp : string)
    (level : Level) (message : string) (args : list Arg)
  : option (Console * string) :=
  let current := currentLevel LOG_LEVEL in
  if atMost current (LOG_LEVELS level)
  then Some (console level, formatMessage current timestamp level message args)
  else None.



End Logger.

(* ===================================================================== *)
(** ** index.js: the configuration read at start-up *)
(* ===================================================================== *)

Module Startup.

(** [screenshotOnError: process.env.LOG_LEVEL === 'debug'] *)
Definition screenshotOnError (LOG_LEVEL : option string) : bool :=
  match LOG_LEVEL with
  | Some v => String.eqb v "debug"
  | None => false
  end.

End Startup.

(* ===================================================================== *)
(** ** Dates and the names made of them *)
(* ===================================================================== *)

Module Calendar.
Import Effects Retry.

(** A date as [new Date()] gives it, in a year of four digits. *)
Definition validDate (d : Date) : Prop :=
  (1000 <= getFullYear d <= 9999 /\ 0 <= getMonth d <= 11
   /\ 1 <= getDate d <= 31 /\ 0 <= getHours d <= 23
   /\ 0 <= getMinutes d <= 59 /\ 0 <= getSeconds d <= 59)%Z.

(** Lexicographic combination of two comparisons. *)
Definition thenBy (c c' : comparison) : comparison :=
  match c with
  | Eq => c'
  | _ => c
  end.

(** Which of two dates comes first. *)
Definition compareDate (a b : Date) : comparison :=
  thenBy (getFullYear a ?= getFullYear b)%Z
    (thenBy (getMonth a ?= getMonth b)%Z
       (thenBy (getDate a ?= getDate b)%Z
          (thenBy (getHours a ?= getHours b)%Z
             (thenBy (getMinutes a ?= getMinutes b)%Z
                (getSeconds a ?= getSeconds b)%Z)))).

Definition is_digit (c : ascii) : bool :=
  let n := nat_of_ascii c in (48 <=? n)%nat && (n <=? 57)%nat.

Fixpoint all_digits (s : string) : bool :=
  match s with
  | EmptyString => true
  | String c t => is_digit c && all_digits t
  end.

(** The format YYYYMMDD-HHMMSS: eight digits, a dash, six digits. *)
Definition stamped (s : string) : bool :=
  (String.length s =? 15)%nat
  && all_digits (substring 0 8 s)
  && String.eqb (substring 8 1 s) "-"
  && all_digits (substring 9 6 s).

(** The decimal digit of [n], and a number below 100 on two digits. *)
Definition digit (n : Z) : ascii := ascii_of_nat (48 + Z.to_nat n).

Definition two (n : Z) : string :=
  String (digit (n / 10)) (String (digit (n mod 10)) EmptyString).

(** The name that the older [deliver] gives to the copy of a run at [d]. *)
Definition historyName (d : Date) : string :=
  ("ingrosmart-" ++ generateTimestamp d ++ ".csv")%string.

End Calendar.

(* ===================================================================== *)
(** ** What a trace holds *)
(* ===================================================================== *)

Module Tracing.
Import Effects Retry Agent.

(** [m] only adds events that satisfy [P], from every state. *)
Definition confined {W E A} (P : event -> Prop) (m : M W E A) : Prop :=
  forall s, exists t, emitted s (snd (m s)) t /\ Forall P t.

(** The kinds of interaction that a run is charged for. *)
Inductive Kind :=
| Navigation
| Fetch
| Pause (ms : Z)
| Other.

Definition kind (e : event) : Kind :=
  match e with
  | EvGoto _ _ => Navigation
  | EvRequestGet _ _ => Fetch
  | EvSleep ms => Pause ms
  | _ => Other
  end.

(** The cost of a trace under a price list. *)
Definition cost (price : Kind -> Z) (t : list event) : Z :=
  fold_right (fun e total => price (kind e) + total)%Z 0%Z t.

(** [m] adds events of total cost [n] at most, from every state. *)
Definition within {W E A} (price : Kind -> Z) (n : Z) (m : M W E A) : Prop :=
  forall s, exists t, emitted s (snd (m s)) t /\ (cost price t <= n)%Z.

(** What [remaining] turns of the loop of [withRetry] cost at most, from
    [attempt] on, when one invocation costs [n] at most. *)
Fixpoint retryBudget (price : Kind -> Z) (options : RetryOptions) (n : Z)
    (remaining attempt : nat) : Z :=
  match remaining with
  | O => 0
  | S remaining' =>
      n + (if (attempt <=? retries options)%nat
           then price (Pause (backoff options attempt))
           else 0)
      + retryBudget price options n remaining' (S attempt)
  end.

(** Price lists: one per navigation, one per fetch, the milliseconds of a
    pause. *)
Definition perNavigation (k : Kind) : Z :=
  match k with Navigation => 1 | _ => 0 end.

Definition perFetch (k : Kind) : Z :=
  match k with Fetch => 1 | _ => 0 end.

Definition perMillisecond (k : Kind) : Z :=
  match k with Pause ms => Z.max 0 ms | _ => 0 end.

(** The time slept in a trace, in milliseconds. *)
Definition waited (t : list event) : Z := fold_right Z.add 0%Z (sleeps t).

(** Interactions with the page and its diagnostics: no navigation, no pause,
    no fetch. *)
Definition page_event (e : event) : bool :=
  match e with
  | EvLocator _ _ | EvIsVisible _ _ | EvClick _ _ _ | EvFill _ _ _
  | EvPress _ _ | EvWaitForLoadState _ | EvBody _ _ | EvMkdir _ _
  | EvScreenshot _ _ => true
  | _ => false
  end.

(** What a pass over [selectorList] may do: look its selectors up, and click
    with [options], or fill [value] in, or neither. *)
Definition looking (selectorList : list string) (e : event) : Prop :=
  match e with
  | EvLocator sel _ | EvIsVisible sel _ => In sel selectorList
  | _ => False
  end.

Definition clicking (selectorList : list string) (options : ClickOptions)
    (e : event) : Prop :=
  match e with
  | EvClick sel o _ => In sel selectorList /\ o = options
  | _ => looking selectorList e
  end.

Definition filling (selectorList : list string) (value : string) (e : event) : Prop :=
  match e with
  | EvFill sel v _ => In sel selectorList /\ v = value
  | _ => looking selectorList e
  end.

(** What a login may do: open the login page, look selectors of the
    configuration up, click the cookie and submit buttons, type the user name
    into an e-mail field and the password into a password field, press Enter,
    wait, and save the diagnostic screenshot when diagnostics are on. *)
Definition login_event (config : Config) (selectors : Selectors) (e : event) : Prop :=
  match e with
  | EvGoto u _ => u = loginUrl config
  | EvLocator sel _ | EvIsVisible sel _ =>
      In sel (cookieAccept selectors ++ emailSelectors selectors
              ++ passwordSelectors selectors ++ submit selectors
              ++ accountIndicators selectors)
  | EvClick sel options _ =>
      options = [] /\ In sel (cookieAccept selectors ++ submit selectors)
  | EvFill sel value _ =>
      (In sel (emailSelectors selectors) /\ value = username config)
      \/ (In sel (passwordSelectors selectors) /\ value = password config)
  | EvPress key _ => key = "Enter"
  | EvSleep ms => ms = 1000%Z
  | EvWaitForLoadState _ => True
  | EvMkdir path _ => screenshotOnError config = true /\ path = "screenshots"
  | EvScreenshot name _ => screenshotOnError config = true /\ name = "login-error"
  | _ => False
  end.

(** Events that send the login form: a click on a button that is no cookie
    button, the Enter key, and the wait for the page that follows. *)
Definition submitting (selectors : Selectors) (e : event) : Prop :=
  match e with
  | EvClick sel _ _ => ~ In sel (cookieAccept selectors)
  | EvPress _ _ | EvWaitForLoadState _ => True
  | _ => False
  end.

(** The user name was typed into an e-mail field, and the password into a
    password field, with success. *)
Definition emailTyped (config : Config) (selectors : Selectors) (t : list event) : Prop :=
  exists sel,
    In sel (emailSelectors selectors) /\ In (EvFill sel (username config) (Ok tt)) t.

Definition passwordTyped (config : Config) (selectors : Selectors) (t : list event)
  : Prop :=
  exists sel,
    In sel (passwordSelectors selectors)
    /\ In (EvFill sel (password config) (Ok tt)) t.

(** Every event of [t] that sends the form comes after both credentials
    were typed. *)
Definition orderly (config : Config) (selectors : Selectors) (t : list event) : Prop :=
  forall t1 e t2,
    t = t1 ++ e :: t2 -> submitting selectors e ->
    emailTyped config selectors t1 /\ passwordTyped config selectors t1.

(** Events of the work of a run: everything but the exit of the process and
    the closing of the page, the context and the browser. *)
Definition working (e : event) : bool :=
  match e with
  | EvExit _ | EvClosePage _ | EvCloseContext _ | EvCloseBrowser _ => false
  | _ => true
  end.

(** Events before the hand-over: neither a delivery nor a pruning, nor the
    exit or the closing. *)
Definition preparing (e : event) : bool :=
  match e with
  | EvDeliver _ _ _ | EvPruneHistory _ _ _ => false
  | _ => working e
  end.

(** The end of the work of a run, after the preparation: nothing handed over,
    a delivery that threw, a delivery followed by a pruning that threw, or a
    delivery followed by a pruning. *)
Inductive handover (config : Config) : list event -> bool -> Prop :=
| handover_none : handover config [] false
| handover_undelivered b timestamp e :
    handover config [EvDeliver b timestamp (Throw e)] false
| handover_unpruned b timestamp e :
    handover config
      [EvDeliver b timestamp (Ok tt);
       EvPruneHistory (target config) (keepHistory config) (Throw e)] false
| handover_done b timestamp :
    handover config
      [EvDeliver b timestamp (Ok tt);
       EvPruneHistory (target config) (keepHistory config) (Ok tt)] true.

(** The closing of a run: the three resources closed in order when the work
    is done, the exit of the process with code 1 otherwise. *)
Definition closing (done : bool) (t : list event) (r : result exit unit) : Prop :=
  if done
  then r = Ok tt
       /\ exists r1 r2 r3, t = [EvClosePage r1; EvCloseContext r2; EvCloseBrowser r3]
  else r = Throw (ProcessExit 1) /\ t = [EvExit 1].



(** [m] ends the work of a run: after events of the preparation it hands
    over, and it returns exactly when the hand-over is complete. *)
Definition concluding {W A} (config : Config) (m : M W (option exn) A) : Prop :=
  forall s, exists before last done,
    emitted s (snd (m s)) (before ++ last)
    /\ forallb preparing before = true
    /\ handover config last done
    /\ (done = true <-> exists a, fst (m s) = Ok a).

End Tracing.

(* ===================================================================== *)
(** ** More scripted worlds *)
(* ===================================================================== *)

Module Worlds.
Import JsString Utils Effects Retry Agent Fake.

(** The export endpoint answers with status 200 and not one byte. *)
Definition empty_export : Site :=
  form_site "about:blank"
    [({| status := 200; contentTypeHeader := Some "text/csv" |}, [])].

(** The login works and lands on the account page, and the export endpoint
    answers with the login page every time. *)
Definition always_expired : Site :=
  form_site "https://www.ingrosmart.it/customer/account/" (repeat html_page 6).

(** A site on a machine where the screenshot directory cannot be made. *)
Record ReadOnly := { site : Site }.

Definition lift {A} (h : Site -> result exn A * Site) (p : ReadOnly)
  : result exn A * ReadOnly :=
  let (r, q) := h (site p) in (r, {| site := q |}).

Definition denied : exn :=
  Error "EACCES: permission denied, mkdir 'screenshots'" (Some "EACCES").

#[export] Instance readonly_clock : Clock ReadOnly := {
  tick := fun ms p => {| site := tick ms (site p) |};
  now := fun p => now (site p)
}.

#[export] Instance readonly_browser : Browser ReadOnly := {
  chromium_launch := lift chromium_launch;
  browser_newContext := lift browser_newContext;
  context_newPage := lift context_newPage;
  page_goto := fun u => lift (page_goto u);
  page_locator_first := fun sel => lift (page_locator_first sel);
  element_isVisible := fun sel => lift (element_isVisible sel);
  element_click := fun sel options => lift (element_click sel options);
  element_fill := fun sel value => lift (element_fill sel value);
  keyboard_press := fun key => lift (keyboard_press key);
  page_waitForLoadState := lift page_waitForLoadState;
  page_url := fun p => page_url (site p);
  page_request_get := fun u => lift (page_request_get u);
  response_body := fun response => lift (response_body response);
  fs_mkdir := fun _ p => (Throw denied, p);
  page_screenshot := fun name => lift (page_screenshot name);
  page_close := lift page_close;
  context_close := lift context_close;
  browser_close := lift browser_close
}.

(** The configuration with the diagnostics on. *)
Definition config_debug : Config :=
  {| baseUrl := baseUrl Fake.config; loginUrl := loginUrl Fake.config;
     exportUrl := exportUrl Fake.config;
     username := username Fake.config; password := password Fake.config;
     target := target Fake.config; keepHistory := keepHistory Fake.config;
     screenshotOnError := true |}.

End Worlds.

(* ===================================================================== *)
(** * Properties *)
(* ===================================================================== *)

(** ** Substrings, lower-casing and trimming *)

Module JsStringFacts.
Import JsString.

Lemma append_assoc (a b c : string) :
  ((a ++ b) ++ c)%string = (a ++ b ++ c)%string.
Proof. induction a; simpl; [reflexivity | now rewrite IHa]. Qed.


Lemma includes_unfold s x :
  includes s x =
  String.prefix x s || match s with EmptyString => false | String _ t => includes t x end.
Proof. destruct s; reflexivity. Qed.

Lemma prefix_append x r : String.prefix x (x ++ r)%string = true.
Proof.
  induction x as [|a x IH]; simpl.
  - destruct r; reflexivity.
  - destruct (ascii_dec a a); [exact IH | congruence].
Qed.

Lemma prefix_inv x : forall s,
  String.prefix x s = true -> exists post, s = (x ++ post)%string.
Proof.
  induction x as [|a x IH]; intros s H.
  - exists s. reflexivity.
  - destruct s as [|b s]; simpl in H; [discriminate|].
    destruct (ascii_dec a b) as [->|]; [|discriminate].
    destruct (IH _ H) as [post ->]. now exists post.
Qed.

Lemma includes_append pre x post : includes (pre ++ x ++ post)%string x = true.
Proof.
  induction pre as [|a pre IH]; simpl.
  - rewrite includes_unfold, prefix_append. reflexivity.
  - rewrite IH. apply orb_true_r.
Qed.

Lemma includes_inv s x :
  includes s x = true -> exists pre post, s = (pre ++ x ++ post)%string.
Proof.
  induction s as [|a s IH]; rewrite includes_unfold; intros H;
    apply orb_true_iff in H; destruct H as [H|H]; try discriminate.
  - destruct (prefix_inv _ _ H) as [post E]. now exists EmptyString, post.
  - destruct (prefix_inv _ _ H) as [post E]. now exists EmptyString, post.
  - destruct (IH H) as (pre & post & ->). now exists (String a pre), post.
Qed.

Lemma includes_iff s x :
  includes s x = true <-> exists pre post, s = (pre ++ x ++ post)%string.
Proof.
  split; [apply includes_inv | intros (pre & post & ->); apply includes_append].
Qed.

(** A substring of a substring is a substring. *)
Lemma includes_within u v s x :
  includes s x = true -> includes (u ++ s ++ v)%string x = true.
Proof.
  intros H. apply includes_inv in H. destruct H as (pre & post & ->).
  apply includes_iff. exists (u ++ pre)%string, (post ++ v)%string.
  now rewrite !append_assoc.
Qed.

Lemma toLowerCase_append a b :
  toLowerCase (a ++ b) = (toLowerCase a ++ toLowerCase b)%string.
Proof. induction a; simpl; [reflexivity | now rewrite IHa]. Qed.

Lemma same_ignoring_case_lower s t :
  same_ignoring_case s t -> toLowerCase s = toLowerCase t.
Proof. induction 1; simpl; congruence. Qed.

Lemma includes_ignoring_case s x :
  contains_ignoring_case s x -> toLowerCase x = x ->
  includes (toLowerCase s) x = true.
Proof.
  intros (pre & mid & post & -> & Hm) Hx.
  rewrite !toLowerCase_append, (same_ignoring_case_lower _ _ Hm), Hx.
  apply includes_append.
Qed.

(** The only character that lower-cases to a non-lower-case [c] is [c]. *)
Lemma lower_ascii_fixed x c :
  lower_ascii x = c -> is_lower c = false -> x = c.
Proof.
  unfold lower_ascii. destruct (is_upper x) eqn:U; [|congruence].
  intros <- L. exfalso. revert U L.
  destruct x as [[] [] [] [] [] [] [] []]; vm_compute; congruence.
Qed.

Lemma includes_char_lower s c :
  is_lower c = false ->
  includes (toLowerCase s) (String c EmptyString) = true -> includes s (String c EmptyString) = true.
Proof.
  intros L. induction s as [|a s IH]; simpl; [trivial|].
  destruct (ascii_dec c (lower_ascii a)) as [E|N].
  - intros _. symmetry in E. apply lower_ascii_fixed in E; [subst a|exact L].
    destruct (ascii_dec c c); [|congruence].
    destruct s; reflexivity.
  - destruct (ascii_dec c a) as [->|_].
    + intros _. destruct s; reflexivity.
    + simpl. exact IH.
Qed.

(** [trimStart] drops a prefix, [trimEnd] a suffix. *)
Lemma trimStart_suffix s : exists pre, s = (pre ++ trimStart s)%string.
Proof.
  induction s as [|a s [pre IH]]; simpl.
  - now exists EmptyString.
  - destruct (is_ws a).
    + exists (String a pre). simpl. now rewrite <- IH.
    + now exists EmptyString.
Qed.

Lemma trimEnd_prefix s : exists post, s = (trimEnd s ++ post)%string.
Proof.
  induction s as [|a s [post IH]]; simpl.
  - now exists EmptyString.
  - destruct (trimEnd s) eqn:E.
    + destruct (is_ws a).
      * now exists (String a s).
      * exists post. simpl. now rewrite IH at 1.
    + exists post. simpl. now rewrite IH at 1.
Qed.

Lemma includes_trim_inv s x :
  includes (trim s) x = true -> includes s x = true.
Proof.
  unfold trim. intros H.
  destruct (trimStart_suffix s) as [pre Hs].
  destruct (trimEnd_prefix (trimStart s)) as [post Ht].
  rewrite Hs, Ht. now apply includes_within.
Qed.

Lemma trimStart_keeps pre c r :
  is_ws c = false ->
  exists pre', trimStart (pre ++ String c r) = (pre' ++ String c r)%string.
Proof.
  intros Hc. induction pre as [|a pre [pre' IH]]; simpl.
  - rewrite Hc. now exists EmptyString.
  - destruct (is_ws a).
    + now exists pre'.
    + now exists (String a pre).
Qed.

Lemma trimEnd_keeps c post :
  is_ws c = false ->
  forall p, exists post',
    trimEnd (p ++ String c post) = (p ++ String c post')%string.
Proof.
  intros Hc p. induction p as [|a p [post' IH]]; simpl.
  - destruct (trimEnd post) eqn:E.
    + rewrite Hc. now exists EmptyString.
    + now exists (String a s).
  - rewrite IH. destruct (p ++ String c post')%string eqn:E.
    + destruct p; discriminate.
    + exists post'. now rewrite E.
Qed.

Lemma string_snoc m :
  m <> EmptyString -> exists u, m = (u ++ String (lastc m) EmptyString)%string.
Proof.
  induction m as [|a m IH]; intros H; [congruence|].
  destruct m as [|b m].
  - now exists EmptyString.
  - destruct IH as [u Hu]; [discriminate|].
    exists (String a u). simpl in *. now rewrite <- Hu.
Qed.

(** Trimming keeps every occurrence of a needle that neither starts nor ends
    with white space. *)
Lemma includes_trim s m :
  m <> EmptyString -> is_ws (headc m) = false -> is_ws (lastc m) = false ->
  includes s m = true -> includes (trim s) m = true.
Proof.
  intros Hm Hh Hl H. apply includes_inv in H. destruct H as (pre & post & ->).
  destruct (string_snoc m Hm) as [u Hu]. revert Hu Hl.
  generalize (lastc m) as c2. intros c2 Hu Hl.
  destruct m as [|c1 v]; [congruence|]. simpl in Hh.
  unfold trim.
  destruct (trimStart_keeps pre c1 (v ++ post) Hh) as [pre' Hs].
  change (pre ++ String c1 v ++ post)%string
    with (pre ++ String c1 (v ++ post))%string.
  rewrite Hs.
  replace (pre' ++ String c1 (v ++ post))%string
    with ((pre' ++ u) ++ String c2 post)%string.
  2:{ change (String c1 (v ++ post)) with (String c1 v ++ post)%string.
      rewrite Hu, !append_assoc. reflexivity. }
  destruct (trimEnd_keeps c2 post Hl (pre' ++ u)%string) as [post' ->].
  rewrite Hu. apply includes_iff. exists pre', post'.
  rewrite !append_assoc. reflexivity.
Qed.

End JsStringFacts.

(* ===================================================================== *)
(** ** The content classifier *)
(* ===================================================================== *)

Module ClassifierFacts.
Import JsString JsStringFacts Utils.

Example ensureCsv_csv :
  ensureCsv (bytes_of ("id,name,price" ++ LF ++ "1,Product,100")%string) "text/csv" = true.
Proof. reflexivity. Qed.

Example ensureCsv_html :
  ensureCsv (bytes_of "<!DOCTYPE html><html><body>Not CSV</body></html>") "text/html"
  = false.
Proof. reflexivity. Qed.

Example ensureCsv_html_as_csv :
  ensureCsv (bytes_of "<!DOCTYPE html><html><body>x</body></html>") "text/csv" = false.
Proof. reflexivity. Qed.

Example ensureCsv_short_prose :
  ensureCsv (bytes_of "hello world") EmptyString = true.
Proof. reflexivity. Qed.

Example ensureCsv_trailing_tab :
  ensureCsv (bytes_of (String.concat EmptyString (repeat "abcdefghij" 10) ++ TAB)%string) EmptyString = false.
Proof. vm_compute. reflexivity. Qed.

Lemma slice_firstn (buffer : Buffer) :
  slice buffer 0 (Nat.min (List.length buffer) 2048) = firstn 2048 buffer.
Proof.
  unfold slice. rewrite Nat.sub_0_r. change (skipn 0 buffer) with buffer.
  destruct (Nat.le_ge_cases (List.length buffer) 2048) as [H|H].
  - rewrite Nat.min_l by exact H.
    now rewrite firstn_all, firstn_all2 by exact H.
  - now rewrite Nat.min_r by exact H.
Qed.

Lemma sample_rawSample buffer :
  sample buffer = trim (toLowerCase (rawSample buffer)).
Proof. unfold sample, rawSample. now rewrite slice_firstn. Qed.

Lemma lacks_existsb s needles :
  lacks s needles -> existsb (fun x => includes s x) needles = false.
Proof.
  intros H. induction needles as [|x l IH]; simpl; [reflexivity|].
  rewrite (H x) by now left. apply IH. intros y Hy. apply H. now right.
Qed.

(** A separator absent from the first 2048 bytes is absent from [sample]. *)
Lemma lacks_sample_of_raw buffer needles :
  (forall x, In x needles -> exists c, x = String c EmptyString /\ is_lower c = false) ->
  lacks (rawSample buffer) needles -> lacks (sample buffer) needles.
Proof.
  intros Hn H x Hx. destruct (Hn x Hx) as (c & -> & Hc).
  destruct (includes (sample buffer) (String c EmptyString)) eqn:E; [|reflexivity].
  rewrite sample_rawSample in E.
  apply includes_trim_inv, includes_char_lower in E; [|exact Hc].
  now rewrite (H _ Hx) in E.
Qed.

Lemma separators_single x :
  In x (delimiters ++ newlines) -> exists c, x = String c EmptyString /\ is_lower c = false.
Proof.
  simpl. intros H.
  repeat (destruct H as [<-|H]; [eexists; split; reflexivity|]).
  destruct H.
Qed.

Lemma lacks_app s l1 l2 : lacks s (l1 ++ l2) -> lacks s l1 /\ lacks s l2.
Proof. unfold lacks. split; intros x Hx; apply H, in_or_app; auto. Qed.

Lemma sample_lacks_delimiters buffer :
  lacks (rawSample buffer) delimiters \/ lacks (sample buffer) delimiters ->
  lacks (sample buffer) delimiters.
Proof.
  intros [H|H]; [|exact H]. revert H. apply lacks_sample_of_raw.
  intros x Hx. apply separators_single, in_or_app. now left.
Qed.

Lemma sample_lacks_separators buffer :
  lacks (rawSample buffer) (delimiters ++ newlines)
  \/ lacks (sample buffer) (delimiters ++ newlines) ->
  lacks (sample buffer) (delimiters ++ newlines).
Proof.
  intros [H|H]; [|exact H]. revert H. apply lacks_sample_of_raw.
  apply separators_single.
Qed.

(** Every marker survives trimming. *)
Lemma marker_in_sample buffer marker :
  In marker htmlMarkers ->
  includes (toLowerCase (rawSample buffer)) marker = true ->
  includes (sample buffer) marker = true.
Proof.
  intros Hm H. rewrite sample_rawSample. apply includes_trim; [| | |exact H];
    simpl in Hm;
    repeat (destruct Hm as [<-|Hm]; [first [discriminate | reflexivity]|]);
    destruct Hm.
Qed.

(** C4 -- A declared content type that contains [text/html] or
    [application/xhtml], whatever the case of its letters, makes [ensureCsv]
    answer [false] for every buffer, CSV text included. *)
Theorem ensureCsv_html_content_type (buffer : Buffer) (contentType : string) :
  contains_ignoring_case contentType "text/html"
  \/ contains_ignoring_case contentType "application/xhtml" ->
  ensureCsv buffer contentType = false.
Proof.
  intros H. unfold ensureCsv.
  destruct H as [H|H]; apply includes_ignoring_case in H; try reflexivity;
    rewrite H; [reflexivity | now rewrite orb_true_r].
Qed.

Lemma ensureCsv_html_content_type_witness :
  ensureCsv (bytes_of ("id,name,price" ++ LF ++ "1,Product,100")%string)
            "Text/HTML; charset=UTF-8" = false.
Proof.
  apply ensureCsv_html_content_type. left.
  exists EmptyString, "Text/HTML", "; charset=UTF-8". split; [reflexivity|].
  repeat (constructor; [reflexivity|]). constructor.
Defined.

(** C5 -- When the first 2048 bytes, lower-cased, contain one of the HTML
    markers, [ensureCsv] answers [false] for every declared content type, the
    CSV ones included: the marker check comes before the rule that trusts the
    header. *)
Theorem ensureCsv_html_marker (buffer : Buffer) (contentType marker : string) :
  In marker htmlMarkers ->
  includes (toLowerCase (rawSample buffer)) marker = true ->
  ensureCsv buffer contentType = false.
Proof.
  intros Hm H. unfold ensureCsv.
  destruct (_ || _); [reflexivity|].
  replace (existsb _ htmlMarkers) with true; [reflexivity|].
  symmetry. apply existsb_exists. exists marker. split; [exact Hm|].
  now apply marker_in_sample.
Qed.

Lemma ensureCsv_html_marker_witness :
  csvContentType "text/csv" = true /\
  ensureCsv (bytes_of "<!DOCTYPE html><html><body>x</body></html>") "text/csv"
  = false.
Proof.
  split; [reflexivity|].
  apply (ensureCsv_html_marker _ _ "<!doctype"); [now left | reflexivity].
Defined.

(** C6 -- The length and delimiter rules, in the order of the code.  A buffer
    of more than 100 bytes whose sample shows none of [,], [;], TAB, [|] is
    rejected for every content type, so also for the CSV ones that the next
    rule would trust (the hypothesis holds as soon as the first 2048 bytes show
    no delimiter, and also when only the trimmed sample shows none).  A buffer
    of fewer than 100 bytes that passes the content-type and marker checks is
    accepted, whatever its delimiters, newlines and content type. *)
Theorem ensureCsv_length_delimiter_rules :
  (forall buffer contentType,
      (100 < List.length buffer)%nat ->
      lacks (rawSample buffer) delimiters \/ lacks (sample buffer) delimiters ->
      ensureCsv buffer contentType = false)
  /\
  (forall buffer contentType,
      (List.length buffer < 100)%nat ->
      htmlContentType contentType = false ->
      lacks (sample buffer) htmlMarkers ->
      ensureCsv buffer contentType = true).
Proof.
  split.
  - intros buffer ct Hlen Hd. apply sample_lacks_delimiters in Hd.
    unfold ensureCsv.
    destruct (_ || _); [reflexivity|].
    destruct (existsb _ htmlMarkers); [reflexivity|].
    rewrite !Hd by (simpl; auto).
    apply Nat.ltb_lt in Hlen. rewrite Hlen. reflexivity.
  - intros buffer ct Hlen Hct Hm. unfold ensureCsv.
    unfold htmlContentType in Hct. rewrite Hct.
    rewrite (lacks_existsb _ _ Hm).
    replace (100 <? List.length buffer)%nat with false
      by (symmetry; apply Nat.ltb_ge; lia).
    rewrite andb_false_r.
    apply Nat.ltb_lt in Hlen. rewrite Hlen.
    destruct (existsb _ validTypes); [reflexivity|].
    now rewrite orb_true_r.
Qed.

Lemma ensureCsv_length_delimiter_rules_witness :
  ensureCsv (repeat "a"%byte 5000) "text/csv" = false /\
  ensureCsv (repeat "a"%byte 50) EmptyString = true.
Proof.
  destruct ensureCsv_length_delimiter_rules as [Hlong Hshort]. split.
  - apply Hlong; [rewrite repeat_length; lia|]. right.
    intros x Hx. simpl in Hx.
    repeat (destruct Hx as [<-|Hx]; [vm_compute; reflexivity|]). destruct Hx.
  - apply Hshort; [rewrite repeat_length; lia | reflexivity |].
    intros x Hx. simpl in Hx.
    repeat (destruct Hx as [<-|Hx]; [vm_compute; reflexivity|]). destruct Hx.
Defined.

(** C10 -- A buffer of exactly 100 bytes with no delimiter and no newline in
    its sample, declared with a content type that is neither an HTML one nor a
    CSV one (the empty string, for one), is not CSV: neither [length > 100] nor
    [length < 100] holds at 100, and the last disjunction is all false. *)
Theorem ensureCsv_exactly_100 (buffer : Buffer) (contentType : string) :
  List.length buffer = 100%nat ->
  lacks (rawSample buffer) (delimiters ++ newlines)
  \/ lacks (sample buffer) (delimiters ++ newlines) ->
  htmlContentType contentType = false ->
  csvContentType contentType = false ->
  ensureCsv buffer contentType = false.
Proof.
  intros Hlen Hs Hhtml Hcsv. apply sample_lacks_separators in Hs.
  unfold ensureCsv.
  unfold htmlContentType in Hhtml. rewrite Hhtml.
  destruct (existsb _ htmlMarkers); [reflexivity|].
  unfold csvContentType in Hcsv. rewrite Hcsv.
  rewrite !Hs by (simpl; auto 10). rewrite Hlen. reflexivity.
Qed.

Lemma ensureCsv_exactly_100_witness :
  ensureCsv (repeat "a"%byte 100) EmptyString = false.
Proof.
  apply ensureCsv_exactly_100; try reflexivity.
  right. intros x Hx. simpl in Hx.
  repeat (destruct Hx as [<-|Hx]; [vm_compute; reflexivity|]). destruct Hx.
Defined.

End ClassifierFacts.

(* ===================================================================== *)
(** ** The retry engine *)
(* ===================================================================== *)

Module RetryFacts.
Import Effects Retry.

Section Loop.
Context {W : Type} `{Clock W} {A : Type}.
Variable fn : M W exn A.
Variable options : RetryOptions.

(** One turn of the loop. *)
Lemma withRetry_loop_step remaining attempt lastError s :
  withRetry_loop fn options (S remaining) attempt lastError s =
  match fn s with
  | (Ok a, s') => (Ok a, s')
  | (Throw error, s') =>
      withRetry_loop fn options remaining (S attempt) (Some error)
        (if (attempt <=? retries options)%nat
         then mkSt (tick (backoff options attempt) (world s'))
                   (trace s' ++ [EvSleep (backoff options attempt)])
         else s')
  end.
Proof.
  simpl. unfold tryCatch, bind.
  destruct (fn s) as [[a|e] s']; [reflexivity|].
  destruct (attempt <=? retries options)%nat; reflexivity.
Qed.

(** A value returned by [withRetry] is the value of an invocation of [fn],
    and nothing runs after that invocation. *)
Lemma withRetry_loop_ok remaining : forall attempt lastError s a s',
  withRetry_loop fn options remaining attempt lastError s = (Ok a, s') ->
  exists s1, fn s1 = (Ok a, s').
Proof.
  induction remaining as [|n IH]; intros attempt lastError s a s' Hrun.
  - discriminate.
  - rewrite withRetry_loop_step in Hrun.
    destruct (fn s) as [[a0|e] s0] eqn:Hfn.
    + inversion Hrun; subst. now exists s.
    + eapply IH, Hrun.
Qed.

End Loop.

Section Run.
Context {W : Type} `{Clock W} {A : Type}.
Variable operation : W -> result exn A * W.
Variable options : RetryOptions.

Lemma observed_run s :
  observed operation s =
  (fst (operation (world s)),
   mkSt (snd (operation (world s)))
        (trace s ++ [EvInvoke match fst (operation (world s)) with
                              | Ok _ => None
                              | Throw e => Some e
                              end])).
Proof.
  unfold observed, perform. now destruct (operation (world s)).
Qed.

Lemma withRetry_loop_shape n : forall attempt lastError s,
  (attempt + n = retries options + 1)%nat ->
  exists t,
    emitted s
      (snd (withRetry_loop (observed operation) options (S n) attempt lastError s)) t
    /\ retry_run options attempt t
         (fst (withRetry_loop (observed operation) options (S n) attempt lastError s)).
Proof.
  unfold emitted.
  induction n as [|n IH]; intros attempt lastError s Hn;
    rewrite withRetry_loop_step, observed_run;
    destruct (fst (operation (world s))) as [a|e].
  - exists [EvInvoke None]. split; [reflexivity | constructor; lia].
  - replace (attempt <=? retries options)%nat with false
      by (symmetry; apply Nat.leb_gt; lia).
    exists [EvInvoke (Some e)]. split; [reflexivity|].
    replace attempt with (retries options + 1)%nat by lia. constructor.
  - exists [EvInvoke None]. split; [reflexivity | constructor; lia].
  - replace (attempt <=? retries options)%nat with true
      by (symmetry; apply Nat.leb_le; lia).
    match goal with
    | |- context [withRetry_loop _ _ _ _ ?le ?st] =>
        destruct (IH (S attempt) le st) as (t & Ht & Hrun); [lia|]
    end.
    exists (EvInvoke (Some e) :: EvSleep (backoff options attempt) :: t).
    split.
    + rewrite Ht. simpl. rewrite <- !app_assoc. reflexivity.
    + constructor; [lia | exact Hrun].
Qed.

End Run.

(** What the shape of a run says about counts, delays and outcome. *)
Section Shape.
Context {A : Type}.
Variable options : RetryOptions.

Lemma retry_run_count k t (r : result (option exn) A) :
  retry_run options k t r ->
  (k + List.length (invocations t) <= retries options + 2)%nat.
Proof. induction 1; simpl; lia. Qed.

Lemma retry_run_sleeps k t (r : result (option exn) A) :
  retry_run options k t r ->
  sleeps t = map (backoff options) (seq k (List.length (invocations t) - 1)).
Proof.
  induction 1; simpl; try reflexivity.
  rewrite IHretry_run.
  destruct (invocations t) eqn:E; simpl.
  - inversion H0; subst; discriminate.
  - rewrite Nat.sub_0_r. reflexivity.
Qed.

Lemma retry_run_ok k t (r : result (option exn) A) a :
  retry_run options k t r -> r = Ok a ->
  exists errors t0,
    t = t0 ++ [EvInvoke None]
    /\ invocations t0 = map Some errors
    /\ invocations t = map Some errors ++ [None].
Proof.
  induction 1; intros Hr; try discriminate.
  - exists [], []. repeat split.
  - destruct (IHretry_run Hr) as (errors & t0 & -> & H1 & H2).
    exists (e :: errors), (EvInvoke (Some e) :: EvSleep (backoff options k) :: t0).
    simpl. rewrite H1, H2. repeat split.
Qed.

Lemma retry_run_throw k t (r : result (option exn) A) :
  retry_run options k t r -> (forall a, r <> Ok a) ->
  exists errors e,
    invocations t = map Some (errors ++ [e])
    /\ (k + List.length (errors ++ [e]) = retries options + 2)%nat
    /\ r = Throw (Some e).
Proof.
  induction 1; intros Hr.
  - now contradiction (Hr a).
  - exists [], e. simpl. repeat split. lia.
  - destruct (IHretry_run Hr) as (errors & e' & H1 & H2 & H3).
    exists (e :: errors), e'. simpl. rewrite H1. repeat split; [|exact H3].
    simpl in H2. lia.
Qed.

Lemma retry_run_some_ok k t (r : result (option exn) A) :
  retry_run options k t r -> In None (invocations t) -> exists a, r = Ok a.
Proof.
  induction 1; simpl; intros Hin.
  - now exists a.
  - destruct Hin as [Hin|[]]. discriminate.
  - destruct Hin as [Hin|Hin]; [discriminate | auto].
Qed.

End Shape.

(** C1 -- [withRetry] around any operation, under any policy.  The trace of
    the run is a sequence of failed invocations, the one of attempt [k]
    followed by a sleep of [min(baseDelayMs * 2^(k-1), maxDelayMs)], closed
    by a successful invocation or by the failure of attempt [retries + 1];
    so the operation is invoked at most [retries + 1] times.  When every
    invocation throws there are exactly [retries + 1] of them and the error
    thrown by [withRetry] is the very error of the last one.  When an
    invocation succeeds it is the last event of the run, its value is what
    [withRetry] returns, and the world is left as that invocation left it. *)
Theorem withRetry_attempts_backoff_rethrow
    {W : Type} `{Clock W} {A : Type}
    (operation : W -> result exn A * W) (options : RetryOptions) (w : W) :
  let run := withRetry (observed operation) options (mkSt w []) in
  let t := trace (snd run) in
  retry_run options 1 t (fst run)
  /\ (List.length (invocations t) <= retries options + 1)%nat
  /\ sleeps t =
     map (backoff options) (seq 1 (List.length (invocations t) - 1))
  /\ (Forall (fun threw => threw <> None) (invocations t) ->
      List.length (invocations t) = (retries options + 1)%nat
      /\ exists e, last (invocations t) None = Some e
                   /\ fst run = Throw (Some e))
  /\ (In None (invocations t) ->
      exists a errors t0,
        fst run = Ok a
        /\ t = t0 ++ [EvInvoke None]
        /\ invocations t0 = map Some errors
        /\ exists w1, operation w1 = (Ok a, world (snd run))).
Proof.
  intros run t.
  destruct (withRetry_loop_shape operation options (retries options) 1 None
              (mkSt w [])) as (t' & Ht & Hrun); [lia|].
  unfold emitted in Ht.
  assert (Hfold : withRetry_loop (observed operation) options
                    (S (retries options)) 1 None (mkSt w []) = run).
  { unfold run, withRetry. now rewrite Nat.add_1_r. }
  rewrite Hfold in Ht, Hrun. fold t in Ht. simpl in Ht. subst t'.
  split; [exact Hrun|].
  split; [apply retry_run_count in Hrun; lia|].
  split; [now apply retry_run_sleeps in Hrun|].
  split.
  - intros Hall.
    destruct (retry_run_throw options 1 t (fst run) Hrun) as (errors & e & H1 & H2 & H3).
    { intros a Ha.
      destruct (retry_run_ok options 1 t _ a Hrun Ha) as (errs & t0 & _ & _ & Hinv).
      rewrite Hinv in Hall. apply Forall_app in Hall. destruct Hall as [_ Hall].
      inversion Hall; subst. congruence. }
    rewrite H1, length_map. split; [lia|].
    exists e. split; [|exact H3].
    rewrite map_app. simpl. apply last_last.
  - intros Hin.
    destruct (retry_run_some_ok options 1 t _ Hrun Hin) as [a Ha].
    destruct (retry_run_ok options 1 t _ a Hrun Ha) as (errors & t0 & Ht0 & Hinv0 & _).
    exists a, errors, t0. repeat split; try assumption.
    destruct (withRetry_loop_ok (observed operation) options
                (retries options + 1) 1 None (mkSt w []) a (snd run)) as [s1 Hs1].
    { fold (withRetry (observed operation) options (mkSt w [])). fold run.
      rewrite <- Ha. now destruct run. }
    exists (world s1). rewrite observed_run in Hs1.
    inversion Hs1 as [[Hr Hw]].
    destruct (operation (world s1)) as [r1 w1]; simpl in *. now subst.
Qed.

End RetryFacts.

Module RetryExamples.
Import Effects Retry RetryFacts Fake.

Example withRetry_always_failing :
  let run := withRetry (observed always_fails)
               {| retries := 2; baseDelayMs := 100; maxDelayMs := 30000;
                  taskName := "Test Retry" |} (mkSt 0%nat []) in
  fst run = Throw (Some (newError "failure 2"))
  /\ trace (snd run) =
     [EvInvoke (Some (newError "failure 0")); EvSleep 100;
      EvInvoke (Some (newError "failure 1")); EvSleep 200;
      EvInvoke (Some (newError "failure 2"))].
Proof. split; reflexivity. Qed.

Example withRetry_fails_once :
  let run := withRetry (observed fails_once)
               {| retries := 2; baseDelayMs := 500; maxDelayMs := 30000;
                  taskName := "Test Retry" |} (mkSt 0%nat []) in
  fst run = Ok "success"
  /\ trace (snd run) =
     [EvInvoke (Some (newError "Test retry error")); EvSleep 500; EvInvoke None].
Proof. split; reflexivity. Qed.

Example withRetry_capped_delay :
  sleeps (trace (snd (withRetry (observed always_fails)
                        {| retries := 3; baseDelayMs := 1500; maxDelayMs := 5000;
                           taskName := "Task" |} (mkSt 0%nat []))))
  = [1500; 3000; 5000]%Z.
Proof. reflexivity. Qed.

Lemma withRetry_attempts_backoff_rethrow_witness :
  let run := withRetry (observed always_fails)
               {| retries := 2; baseDelayMs := 100; maxDelayMs := 30000;
                  taskName := "Test Retry" |} (mkSt 0%nat []) in
  List.length (invocations (trace (snd run))) = 3%nat
  /\ sleeps (trace (snd run)) = [100; 200]%Z
  /\ fst run = Throw (Some (newError "failure 2")).
Proof.
  intros run.
  destruct (withRetry_attempts_backoff_rethrow always_fails
              {| retries := 2; baseDelayMs := 100; maxDelayMs := 30000;
                 taskName := "Test Retry" |} 0%nat)
    as (_ & _ & Hsleeps & Hall & _).
  destruct Hall as (Hcount & e & Hlast & Hthrow).
  { repeat constructor; discriminate. }
  fold run in Hcount, Hsleeps, Hlast, Hthrow.
  split; [exact Hcount|]. split; [exact Hsleeps|].
  rewrite Hthrow. f_equal. symmetry. exact Hlast.
Defined.

End RetryExamples.

(* ===================================================================== *)
(** ** The resilient action primitives *)
(* ===================================================================== *)

Module ActionFacts.
Import Utils Effects Retry Agent.

(** Runs the next interaction with the world and splits on its answer. *)
Ltac step_world :=
  match goal with
  | |- context [?h (world ?s)] =>
      lazymatch type of (h (world s)) with
      | (result _ _ * _)%type =>
          let r := fresh "r" in
          let w := fresh "w" in
          destruct (h (world s)) as [r w]; destruct r; simpl
      end
  | |- context [let (_, _) := ?x in _] =>
      let r := fresh "r" in
      let w := fresh "w" in
      destruct x as [r w]; destruct r; simpl
  end.

Ltac unfold_page :=
  unfold tryCatch, bind, ret, throw, locator, isVisible, click, fill, perform;
  simpl.

Section Primitives.
Context {W : Type} `{Browser W}.

Lemma clickFirst_try_shape selector options (s : St W) :
  let action := fun sel r => EvClick sel options r in
  (fst (clickFirst_try selector options s) = Ok true
   /\ emitted s (snd (clickFirst_try selector options s)) (hit action selector))
  \/ (fst (clickFirst_try selector options s) = Ok false
      /\ exists t, emitted s (snd (clickFirst_try selector options s)) t
                   /\ missed action selector t).
Proof.
  unfold clickFirst_try, emitted, hit. unfold_page.
  destruct (page_locator_first selector (world s)) as [[[]|e] w1]; simpl.
  - destruct (element_isVisible selector w1) as [[[|]|e] w2]; simpl.
    + destruct (element_click selector options w2) as [[[]|e] w3]; simpl.
      * left. split; [reflexivity|]. now rewrite <- !app_assoc.
      * right. split; [reflexivity|]. eexists. split;
          [now rewrite <- !app_assoc | simpl; exact (missed_action _ _ e)].
    + right. split; [reflexivity|]. eexists. split;
        [now rewrite <- !app_assoc | simpl; apply missed_hidden; discriminate].
    + right. split; [reflexivity|]. eexists. split;
        [now rewrite <- !app_assoc | simpl; apply missed_hidden; discriminate].
  - right. split; [reflexivity|]. eexists. split;
      [reflexivity | apply missed_lookup].
Qed.

Lemma fillFirst_try_shape selector value (s : St W) :
  let action := fun sel r => EvFill sel value r in
  (fst (fillFirst_try selector value s) = Ok true
   /\ emitted s (snd (fillFirst_try selector value s)) (hit action selector))
  \/ (fst (fillFirst_try selector value s) = Ok false
      /\ exists t, emitted s (snd (fillFirst_try selector value s)) t
                   /\ missed action selector t).
Proof.
  unfold fillFirst_try, emitted, hit. unfold_page.
  destruct (page_locator_first selector (world s)) as [[[]|e] w1]; simpl.
  - destruct (element_isVisible selector w1) as [[[|]|e] w2]; simpl.
    + destruct (element_fill selector value w2) as [[[]|e] w3]; simpl.
      * left. split; [reflexivity|]. now rewrite <- !app_assoc.
      * right. split; [reflexivity|]. eexists. split;
          [now rewrite <- !app_assoc | simpl; exact (missed_action _ _ e)].
    + right. split; [reflexivity|]. eexists. split;
        [now rewrite <- !app_assoc | simpl; apply missed_hidden; discriminate].
    + right. split; [reflexivity|]. eexists. split;
        [now rewrite <- !app_assoc | simpl; apply missed_hidden; discriminate].
  - right. split; [reflexivity|]. eexists. split;
      [reflexivity | apply missed_lookup].
Qed.

Lemma clickFirst_shape selectorList options : forall s : St W,
  exists b t,
    fst (clickFirst selectorList options s) = Ok b
    /\ emitted s (snd (clickFirst selectorList options s)) t
    /\ first_acted (fun sel r => EvClick sel options r) selectorList t b.
Proof.
  induction selectorList as [|selector rest IH]; intros s.
  - exists false, []. simpl. unfold emitted. rewrite app_nil_r.
    repeat split. constructor.
  - simpl. unfold bind.
    destruct (clickFirst_try_shape selector options s) as [[Hr Ht]|[Hr (t1 & Ht & Hm)]];
      destruct (clickFirst_try selector options s) as [r s1]; simpl in *; subst r.
    + exists true, (hit (fun sel r => EvClick sel options r) selector).
      repeat split; [exact Ht | constructor].
    + destruct (IH s1) as (b & t2 & Hb & Ht2 & Hf).
      exists b, (t1 ++ t2). repeat split; [exact Hb | | now constructor].
      unfold emitted in *. now rewrite Ht2, Ht, app_assoc.
Qed.

Lemma fillFirst_shape selectorList value : forall s : St W,
  exists b t,
    fst (fillFirst selectorList value s) = Ok b
    /\ emitted s (snd (fillFirst selectorList value s)) t
    /\ first_acted (fun sel r => EvFill sel value r) selectorList t b.
Proof.
  induction selectorList as [|selector rest IH]; intros s.
  - exists false, []. simpl. unfold emitted. rewrite app_nil_r.
    repeat split. constructor.
  - simpl. unfold bind.
    destruct (fillFirst_try_shape selector value s) as [[Hr Ht]|[Hr (t1 & Ht & Hm)]];
      destruct (fillFirst_try selector value s) as [r s1]; simpl in *; subst r.
    + exists true, (hit (fun sel r => EvFill sel value r) selector).
      repeat split; [exact Ht | constructor].
    + destruct (IH s1) as (b & t2 & Hb & Ht2 & Hf).
      exists b, (t1 ++ t2). repeat split; [exact Hb | | now constructor].
      unfold emitted in *. now rewrite Ht2, Ht, app_assoc.
Qed.

End Primitives.

(** What the shape of the trace says. *)
Section Shape.
Variable action : string -> result exn unit -> event.
Hypothesis action_selector :
  forall sel r, selector_of (action sel r) = Some sel.

Lemma missed_selector selector t e :
  missed action selector t -> In e t -> selector_of e = Some selector.
Proof.
  destruct 1; simpl; intros Hin;
    repeat (destruct Hin as [<-|Hin]; [auto|]); destruct Hin.
Qed.

(** Only selectors of the list are touched, each one after those before it
    in the list, and none after the one acted upon. *)
Lemma first_acted_touches selectorList t b :
  first_acted action selectorList t b ->
  exists tried rest,
    selectorList = tried ++ rest
    /\ (forall e, In e t -> exists sel, selector_of e = Some sel /\ In sel tried)
    /\ (b = true -> exists pre sel t0,
           tried = pre ++ [sel] /\ t = t0 ++ hit action sel
           /\ forall e, In e t0 -> exists p, selector_of e = Some p /\ In p pre)
    /\ (b = false -> rest = []).
Proof.
  induction 1 as [|selector rest|selector rest t1 t2 b Hm Hf IH].
  - exists [], []. repeat split; try discriminate. intros e [].
  - exists [selector], rest. repeat split; try discriminate.
    + intros e Hin. exists selector. split; [|now left].
      unfold hit in Hin. simpl in Hin.
      repeat (destruct Hin as [<-|Hin]; [auto|]). destruct Hin.
    + intros _. exists [], selector, []. repeat split. intros e [].
  - destruct IH as (tried & rest' & -> & Hall & Htrue & Hfalse).
    exists (selector :: tried), rest'. repeat split.
    + intros e Hin. apply in_app_or in Hin. destruct Hin as [Hin|Hin].
      * exists selector. split; [eapply missed_selector; eauto | now left].
      * destruct (Hall e Hin) as (sel & Hs & Hi). exists sel. split; [|right]; auto.
    + intros Hb. destruct (Htrue Hb) as (pre & sel & t0 & -> & -> & Hpre).
      exists (selector :: pre), sel, (t1 ++ t0). repeat split.
      * now rewrite app_assoc.
      * intros e Hin. apply in_app_or in Hin. destruct Hin as [Hin|Hin].
        -- exists selector. split; [eapply missed_selector; eauto | now left].
        -- destruct (Hpre e Hin) as (p & Hp & Hi). exists p. split; [|right]; auto.
    + exact Hfalse.
Qed.

End Shape.

End ActionFacts.

Module ActionClaims.
Import Utils Effects Retry Agent ActionFacts Fake.

Example clickFirst_third_only :
  let run := clickFirst ["#first"; "#second"; "#third"; "#fourth"] []
               (mkSt Fake.third_shows []) in
  fst run = Ok true
  /\ filter is_action (trace (snd run)) = [EvClick "#third" [] (Ok tt)]
  /\ trace (snd run) =
     [EvLocator "#first" (Throw (newError "Unknown engine"));
      EvLocator "#second" (Ok tt); EvIsVisible "#second" (Ok false);
      EvLocator "#third" (Ok tt); EvIsVisible "#third" (Ok true);
      EvClick "#third" [] (Ok tt)].
Proof. repeat split. Qed.

Example clickFirst_none_visible :
  fst (clickFirst ["#first"; "#second"] [] (mkSt Fake.blank [])) = Ok false.
Proof. reflexivity. Qed.

(** C7, as amended -- [clickFirst] and [fillFirst] never throw.  They pass
    over the selectors in list order; a selector whose lookup throws, whose
    element is not reported visible, or whose action throws, is left behind
    and the next one is tried; at the first selector whose element is visible
    and whose action succeeds they return [true] and touch no later selector;
    when the list is exhausted they return [false]. *)
Theorem clickFirst_fillFirst_first_acted
    {W : Type} `{Browser W}
    (selectorList : list string) (options : ClickOptions) (value : string)
    (s : St W) :
  (exists b t,
      fst (clickFirst selectorList options s) = Ok b
      /\ emitted s (snd (clickFirst selectorList options s)) t
      /\ first_acted (fun sel r => EvClick sel options r) selectorList t b)
  /\ (exists b t,
      fst (fillFirst selectorList value s) = Ok b
      /\ emitted s (snd (fillFirst selectorList value s)) t
      /\ first_acted (fun sel r => EvFill sel value r) selectorList t b).
Proof.
  split; [apply clickFirst_shape | apply fillFirst_shape].
Qed.

(** C7, as stated, fails: with two visible buttons of which the first
    cannot be clicked, [clickFirst] goes on to the second one. *)
Lemma clickFirst_visible_then_later_tried :
  let run := clickFirst ["#a"; "#b"] [] (mkSt Fake.first_stuck []) in
  ~ stops_at_first_visible ["#a"; "#b"] (trace (snd run)) (fst run).
Proof.
  intros run Hclaim.
  destruct (Hclaim [] "#a" ["#b"]) as (_ & _ & Hlater).
  - reflexivity.
  - vm_compute. auto.
  - intros p [].
  - apply (Hlater (EvLocator "#b" (Ok tt)) "#b").
    + vm_compute. auto 10.
    + now left.
    + reflexivity.
Qed.

End ActionClaims.

(* ===================================================================== *)
(** ** Login verification *)
(* ===================================================================== *)

Module LoginFacts.
Import JsString Utils Effects Retry Agent ActionFacts Fake.

Section Verification.
Context {W : Type} `{Clock W} `{Browser W}.
Variable config : Config.
Variable selectors : Selectors.

Lemma urlShowsLogin_iff currentUrl :
  urlShowsLogin config currentUrl = true <->
  includes currentUrl "/login" = false
  /\ (includes currentUrl "/account" = true
      \/ includes currentUrl "/dashboard" = true
      \/ currentUrl = (baseUrl config ++ "/")%string).
Proof.
  unfold urlShowsLogin.
  rewrite andb_true_iff, negb_true_iff, !orb_true_iff, String.eqb_eq.
  tauto.
Qed.

(** The loop over the account indicators answers [true] exactly when one
    visibility check answered [true], and it checks indicators only. *)
Lemma indicatorVisible_shape indicators : forall s : St W,
  exists b t,
    fst (indicatorVisible indicators s) = Ok b
    /\ emitted s (snd (indicatorVisible indicators s)) t
    /\ (b = true <-> exists indicator, In (EvIsVisible indicator (Ok true)) t)
    /\ (forall sel r, In (EvIsVisible sel r) t -> In sel indicators).
Proof.
  unfold emitted.
  induction indicators as [|indicator rest IH]; intros s.
  - exists false, []. simpl. rewrite app_nil_r. repeat split; try discriminate.
    + intros [? []].
    + intros ? ? [].
  - simpl. unfold_page.
    destruct (page_locator_first indicator (world s)) as [[[]|e] w1]; simpl.
    + destruct (element_isVisible indicator w1) as [[[|]|e] w2]; simpl.
      * eexists true, _. split; [reflexivity|]. split;
          [now rewrite <- !app_assoc|]. simpl. split.
        -- split; [intros _; exists indicator; auto | reflexivity].
        -- intros sel r [Hin|[Hin|[]]]; inversion Hin; subst; now left.
      * match goal with |- context [indicatorVisible rest ?st] =>
          destruct (IH st) as (b & t & Hb & Ht & Hiff & Hsel) end.
        exists b, (EvLocator indicator (Ok tt) :: EvIsVisible indicator (Ok false) :: t).
        split; [exact Hb|]. split; [rewrite Ht; simpl; now rewrite <- !app_assoc|].
        split.
        -- rewrite Hiff. split; intros [i Hi]; exists i.
           ++ now do 2 right.
           ++ destruct Hi as [Hi|[Hi|Hi]]; [discriminate | discriminate | exact Hi].
        -- intros sel r [Hin|[Hin|Hin]]; [discriminate | inversion Hin; now left|].
           right. eapply Hsel, Hin.
      * match goal with |- context [indicatorVisible rest ?st] =>
          destruct (IH st) as (b & t & Hb & Ht & Hiff & Hsel) end.
        exists b, (EvLocator indicator (Ok tt) :: EvIsVisible indicator (Throw e) :: t).
        split; [exact Hb|]. split; [rewrite Ht; simpl; now rewrite <- !app_assoc|].
        split.
        -- rewrite Hiff. split; intros [i Hi]; exists i.
           ++ now do 2 right.
           ++ destruct Hi as [Hi|[Hi|Hi]]; [discriminate | discriminate | exact Hi].
        -- intros sel r [Hin|[Hin|Hin]]; [discriminate | inversion Hin; now left|].
           right. eapply Hsel, Hin.
    + match goal with |- context [indicatorVisible rest ?st] =>
        destruct (IH st) as (b & t & Hb & Ht & Hiff & Hsel) end.
      exists b, (EvLocator indicator (Throw e) :: t).
      split; [exact Hb|]. split; [rewrite Ht; simpl; now rewrite <- !app_assoc|].
      split.
      * rewrite Hiff. split; intros [i Hi]; exists i.
        -- now right.
        -- destruct Hi as [Hi|Hi]; [discriminate | exact Hi].
      * intros sel r [Hin|Hin]; [discriminate|]. right. eapply Hsel, Hin.
Qed.

Lemma verifyLogin_shape (s : St W) :
  exists b t,
    fst (verifyLogin config selectors s) = Ok b
    /\ emitted s (snd (verifyLogin config selectors s)) t
    /\ (b = true <->
        urlShowsLogin config (page_url (world s)) = true
        \/ exists indicator,
             In indicator (accountIndicators selectors)
             /\ In (EvIsVisible indicator (Ok true)) t).
Proof.
  unfold verifyLogin, url, bind.
  destruct (urlShowsLogin config (page_url (world s))) eqn:Hurl; simpl.
  - exists true, []. unfold emitted, ret. simpl. rewrite app_nil_r.
    repeat split; auto.
  - destruct (indicatorVisible_shape (accountIndicators selectors) s)
      as (b & t & Hb & Ht & Hiff & Hsel).
    exists b, t. repeat split; try assumption.
    + intros Hbt. right. apply Hiff in Hbt. destruct Hbt as [i Hi].
      exists i. split; [eapply Hsel, Hi | exact Hi].
    + intros [Hc|(i & _ & Hi)]; [discriminate|]. apply Hiff. now exists i.
Qed.

(** [login] returns only after a verification that succeeded. *)
Lemma login_ok_verified (s : St W) v :
  fst (login config selectors s) = Ok v ->
  v = true
  /\ fst (submitCredentials config selectors s) = Ok tt
  /\ fst (verifyLogin config selectors (snd (submitCredentials config selectors s)))
     = Ok true.
Proof.
  unfold login, tryCatch, bind.
  destruct (submitCredentials config selectors s) as [[[]|e] s1]; simpl.
  - destruct (verifyLogin config selectors s1) as [[[|]|e] s2]; simpl.
    + intros Hv. inversion Hv. auto.
    + unfold throw, screenshotIfEnabled.
      destruct (screenshotOnError config); unfold mkdir, screenshot; unfold_page;
        repeat step_world; discriminate.
    + unfold throw, screenshotIfEnabled.
      destruct (screenshotOnError config); unfold mkdir, screenshot; unfold_page;
        repeat step_world; discriminate.
  - unfold throw, screenshotIfEnabled.
    destruct (screenshotOnError config); unfold mkdir, screenshot; unfold_page;
      repeat step_world; discriminate.
Qed.

(** A verification that fails makes [login] throw. *)
Lemma login_unverified_throws (s : St W) :
  fst (submitCredentials config selectors s) = Ok tt ->
  fst (verifyLogin config selectors (snd (submitCredentials config selectors s)))
  = Ok false ->
  exists e,
    fst (login config selectors s) = Throw e
    /\ (screenshotOnError config = false -> e = verificationFailed).
Proof.
  unfold login, tryCatch, bind.
  destruct (submitCredentials config selectors s) as [[[]|e] s1]; simpl;
    [|discriminate].
  intros _.
  destruct (verifyLogin config selectors s1) as [[[|]|e] s2]; simpl;
    try discriminate.
  intros _. unfold throw, screenshotIfEnabled.
  destruct (screenshotOnError config); unfold mkdir, screenshot; unfold_page.
  - destruct (fs_mkdir "screenshots" (world s2)) as [[[]|e] w1]; simpl.
    + destruct (page_screenshot "login-error" w1) as [[[]|e] w2]; simpl;
        eexists; split; try reflexivity; discriminate.
    + eexists; split; try reflexivity; discriminate.
  - eexists; split; reflexivity.
Qed.

End Verification.

Example verifyLogin_root_page :
  fst (verifyLogin Fake.config Fake.selectors
         (mkSt (resting_at "https://www.ingrosmart.it/") [])) = Ok true.
Proof. reflexivity. Qed.

Example verifyLogin_still_on_login :
  fst (login Fake.config Fake.selectors
         (mkSt (form_site "https://www.ingrosmart.it/customer/account/login/" []) []))
  = Throw verificationFailed.
Proof. reflexivity. Qed.

(** C3, as amended -- The verification never throws and answers [true]
    exactly when one of two signals fires.  Signal 1: the URL after the
    submission does not contain [/login] and contains [/account] or
    [/dashboard] or equals the base URL followed by [/].  Signal 2: the
    visibility check of one of the configured account indicators answered
    [true].  So a URL equal to the base URL followed by [/] verifies as logged
    in with no indicator in sight, and a URL that still contains [/login],
    with no indicator seen visible, verifies as failed; [login] returns only
    after a verification that succeeded, and throws when it failed. *)
Theorem login_verification_signals
    {W : Type} `{Clock W} `{Browser W}
    (config : Config) (selectors : Selectors) (s : St W) :
  (forall currentUrl,
      urlShowsLogin config currentUrl = true <->
      includes currentUrl "/login" = false
      /\ (includes currentUrl "/account" = true
          \/ includes currentUrl "/dashboard" = true
          \/ currentUrl = (baseUrl config ++ "/")%string))
  /\ (exists b t,
        fst (verifyLogin config selectors s) = Ok b
        /\ emitted s (snd (verifyLogin config selectors s)) t
        /\ (b = true <->
            urlShowsLogin config (page_url (world s)) = true
            \/ exists indicator,
                 In indicator (accountIndicators selectors)
                 /\ In (EvIsVisible indicator (Ok true)) t)
        /\ (page_url (world s) = (baseUrl config ++ "/")%string ->
            includes (page_url (world s)) "/login" = false ->
            b = true)
        /\ (includes (page_url (world s)) "/login" = true ->
            (forall indicator, ~ In (EvIsVisible indicator (Ok true)) t) ->
            b = false))
  /\ (forall v,
        fst (login config selectors s) = Ok v ->
        fst (verifyLogin config selectors
               (snd (submitCredentials config selectors s))) = Ok true)
  /\ (fst (submitCredentials config selectors s) = Ok tt ->
      fst (verifyLogin config selectors
             (snd (submitCredentials config selectors s))) = Ok false ->
      exists e,
        fst (login config selectors s) = Throw e
        /\ (screenshotOnError config = false -> e = verificationFailed)).
Proof.
  split; [apply urlShowsLogin_iff|].
  split.
  - destruct (verifyLogin_shape config selectors s) as (b & t & Hb & Ht & Hiff).
    exists b, t. repeat split; try assumption; try apply Hiff.
    + intros Hu Hl. apply Hiff. left. apply urlShowsLogin_iff. auto.
    + intros Hl Hnone. destruct b; [|reflexivity].
      destruct (proj1 Hiff eq_refl) as [Hu|(i & _ & Hi)].
      * apply urlShowsLogin_iff in Hu. destruct Hu as [Hu _]. congruence.
      * now contradiction (Hnone i).
  - split.
    + intros v Hv. now apply login_ok_verified in Hv.
    + apply login_unverified_throws.
Qed.

Lemma login_verification_signals_witness :
  fst (verifyLogin Fake.config Fake.selectors
         (mkSt (resting_at "https://www.ingrosmart.it/") [])) = Ok true
  /\ exists e,
       fst (login Fake.config Fake.selectors
              (mkSt (form_site "https://www.ingrosmart.it/customer/account/login/" []) []))
       = Throw e /\ e = verificationFailed.
Proof.
  split.
  - destruct (login_verification_signals Fake.config Fake.selectors
                (mkSt (resting_at "https://www.ingrosmart.it/") []))
      as (_ & (b & t & Hb & _ & _ & Hbase & _) & _).
    rewrite Hb. f_equal. apply Hbase; reflexivity.
  - destruct (login_verification_signals Fake.config Fake.selectors
                (mkSt (form_site "https://www.ingrosmart.it/customer/account/login/" []) []))
      as (_ & _ & _ & Hfail).
    destruct Hfail as (e & He & Hmsg); [reflexivity | reflexivity |].
    exists e. split; [exact He | apply Hmsg; reflexivity].
Defined.

(** C3, as stated, fails: with the base URL configured as
    [https://www.ingrosmart.it/], the page at that very URL, with no account
    indicator, does not verify: it is compared with the base URL followed by
    one more slash. *)
Lemma verifyLogin_bare_base_url_rejected :
  ~ base_url_suffices Fake.config_slash Fake.selectors
      (mkSt (resting_at "https://www.ingrosmart.it/") []).
Proof.
  intros Hclaim. specialize (Hclaim eq_refl). vm_compute in Hclaim. discriminate.
Qed.

End LoginFacts.

(* ===================================================================== *)
(** ** Traces of compound computations *)
(* ===================================================================== *)

Module EffectFacts.
Import Effects Retry.

Section Rules.
Context {W : Type}.

Lemma emitted_refl (s : St W) : emitted s s [].
Proof. unfold emitted. now rewrite app_nil_r. Qed.

Lemma emitted_trans (s s1 s2 : St W) t1 t2 :
  emitted s s1 t1 -> emitted s1 s2 t2 -> emitted s s2 (t1 ++ t2).
Proof. unfold emitted. intros H1 H2. now rewrite H2, H1, app_assoc. Qed.

Lemma emitted_inj (s s' : St W) t1 t2 :
  emitted s s' t1 -> emitted s s' t2 -> t1 = t2.
Proof. unfold emitted. intros H1 H2. rewrite H1 in H2. eapply app_inv_head, H2. Qed.

Lemma bind_run {E A B} (m : M W E A) (k : A -> M W E B) s :
  bind m k s =
  match m s with
  | (Ok a, s') => k a s'
  | (Throw e, s') => (Throw e, s')
  end.
Proof. reflexivity. Qed.

Lemma tryCatch_run {E E' A} (m : M W E A) (h : E -> M W E' A) s :
  tryCatch m h s =
  match m s with
  | (Ok a, s') => (Ok a, s')
  | (Throw e, s') => h e s'
  end.
Proof. reflexivity. Qed.

Lemma perform_run {E A} (h : W -> result E A * W) log (s : St W) :
  perform h log s =
  (fst (h (world s)), mkSt (snd (h (world s))) (trace s ++ [log (fst (h (world s)))])).
Proof. unfold perform. now destruct (h (world s)). Qed.

Variable p : event -> bool.

Lemma quiet_ret {E A} (a : A) : quiet p (ret a : M W E A).
Proof. intros s. exists []. split; [apply emitted_refl | reflexivity]. Qed.

Lemma quiet_throw {E A} (e : E) : quiet p (throw e : M W E A).
Proof. intros s. exists []. split; [apply emitted_refl | reflexivity]. Qed.

Lemma quiet_read {E A} (f : St W -> A) :
  quiet p ((fun s => (Ok (f s), s)) : M W E A).
Proof. intros s. exists []. split; [apply emitted_refl | reflexivity]. Qed.

Lemma quiet_bind {E A B} (m : M W E A) (k : A -> M W E B) :
  quiet p m -> (forall a, quiet p (k a)) -> quiet p (bind m k).
Proof.
  intros Hm Hk s. rewrite bind_run.
  destruct (Hm s) as (t1 & Ht1 & Hp1).
  destruct (m s) as [[a|e] s1]; simpl in *.
  - destruct (Hk a s1) as (t2 & Ht2 & Hp2). exists (t1 ++ t2).
    split; [eapply emitted_trans; eauto|].
    now rewrite forallb_app, Hp1, Hp2.
  - now exists t1.
Qed.

Lemma quiet_tryCatch {E E' A} (m : M W E A) (h : E -> M W E' A) :
  quiet p m -> (forall e, quiet p (h e)) -> quiet p (tryCatch m h).
Proof.
  intros Hm Hh s. rewrite tryCatch_run.
  destruct (Hm s) as (t1 & Ht1 & Hp1).
  destruct (m s) as [[a|e] s1]; simpl in *.
  - now exists t1.
  - destruct (Hh e s1) as (t2 & Ht2 & Hp2). exists (t1 ++ t2).
    split; [eapply emitted_trans; eauto|].
    now rewrite forallb_app, Hp1, Hp2.
Qed.

Lemma quiet_perform {E A} (h : W -> result E A * W) log :
  (forall r, p (log r) = true) -> quiet p (perform h log).
Proof.
  intros Hlog s. rewrite perform_run. eexists. split; [reflexivity|].
  simpl. now rewrite Hlog.
Qed.

Lemma quiet_sleep `{Clock W} {E} ms :
  p (EvSleep ms) = true -> quiet p (sleep ms : M W E unit).
Proof.
  intros Hp s. eexists. split; [reflexivity|]. simpl. now rewrite Hp.
Qed.

Lemma quiet_withRetry_loop `{Clock W} {A} (fn : M W exn A) options :
  quiet p fn -> (forall ms, p (EvSleep ms) = true) ->
  forall remaining attempt lastError,
    quiet p (withRetry_loop fn options remaining attempt lastError).
Proof.
  intros Hfn Hsleep.
  induction remaining as [|n IH]; intros attempt lastError; simpl.
  - apply quiet_throw.
  - apply quiet_tryCatch; [exact Hfn|]. intros e.
    apply quiet_bind; [|intros; apply IH].
    destruct (attempt <=? retries options)%nat;
      [apply quiet_sleep, Hsleep | apply quiet_ret].
Qed.

End Rules.

Lemma quiet_weaken {W E A} (p q : event -> bool) (m : M W E A) :
  (forall e, p e = true -> q e = true) -> quiet p m -> quiet q m.
Proof.
  intros Hpq Hm s. destruct (Hm s) as (t & Ht & Hp). exists t. split; [exact Ht|].
  rewrite forallb_forall in *. auto.
Qed.

(** Discharges [quiet] goals over computations built from the monad. *)
Ltac quiet_steps :=
  repeat first
    [ apply quiet_ret
    | apply quiet_throw
    | apply quiet_read
    | apply quiet_sleep; reflexivity
    | apply quiet_perform; intros; reflexivity
    | apply quiet_bind; [|intros]
    | apply quiet_tryCatch; [|intros]
    | match goal with
      | |- quiet _ (if ?c then _ else _) => destruct c
      | |- quiet _ (match ?c with _ => _ end) => destruct c
      end ].

(** A pause, whether or not the step before it throws, only sleeps. *)
Example quiet_pause {W : Type} `{Clock W} (step : W -> result exn unit * W) :
  quiet (fun e => match e with EvSleep _ | EvInvoke _ => true | _ => false end)
    (tryCatch (bind (observed step) (fun _ => bind (sleep 1000) (fun _ => ret tt)))
       (fun e => if String.eqb (message e) "fatal"
                 then throw e
                 else bind (fun s => (Ok (trace s), s)) (fun _ => sleep 3000))).
Proof. unfold observed. quiet_steps. Qed.

End EffectFacts.

(* ===================================================================== *)
(** ** The download flow *)
(* ===================================================================== *)

Module FlowFacts.
Import JsString JsStringFacts Utils Effects Retry Agent EffectFacts.

Section Flow.
Context {W : Type} `{Clock W} `{Browser W}.
Variable config : Config.
Variable selectors : Selectors.

Lemma quiet_clickFirst selectorList options :
  quiet form_event (clickFirst (W:=W) selectorList options).
Proof.
  induction selectorList as [|selector rest IH]; simpl; [apply quiet_ret|].
  apply quiet_bind.
  - unfold clickFirst_try, locator, isVisible, click. quiet_steps.
  - intros [|]; [apply quiet_ret | exact IH].
Qed.

Lemma quiet_fillFirst selectorList value :
  quiet form_event (fillFirst (W:=W) selectorList value).
Proof.
  induction selectorList as [|selector rest IH]; simpl; [apply quiet_ret|].
  apply quiet_bind.
  - unfold fillFirst_try, locator, isVisible, fill. quiet_steps.
  - intros [|]; [apply quiet_ret | exact IH].
Qed.

Lemma quiet_indicatorVisible indicators :
  quiet form_event (indicatorVisible (W:=W) indicators).
Proof.
  induction indicators as [|indicator rest IH]; simpl; [apply quiet_ret|].
  apply quiet_bind.
  - unfold locator, isVisible. quiet_steps.
  - intros [|]; [apply quiet_ret | exact IH].
Qed.

Lemma quiet_verifyLogin : quiet form_event (verifyLogin (W:=W) config selectors).
Proof.
  unfold verifyLogin, url. apply quiet_bind; [apply quiet_read|]. intros u.
  destruct (negb _); [apply quiet_indicatorVisible | apply quiet_ret].
Qed.

Lemma quiet_enterCredentials :
  quiet form_event (enterCredentials (W:=W) config selectors).
Proof.
  unfold enterCredentials, press, waitForLoadState.
  apply quiet_bind; [apply quiet_clickFirst|]. intros c.
  apply quiet_bind; [destruct c; quiet_steps|]. intros _.
  apply quiet_bind; [apply quiet_fillFirst|]. intros f1.
  destruct (negb f1); [apply quiet_throw|].
  apply quiet_bind; [apply quiet_fillFirst|]. intros f2.
  destruct (negb f2); [apply quiet_throw|].
  apply quiet_bind; [apply quiet_clickFirst|]. intros c2.
  apply quiet_bind; [destruct (negb c2); quiet_steps | intros; quiet_steps].
Qed.

Lemma quiet_screenshotIfEnabled name :
  quiet form_event (screenshotIfEnabled (W:=W) config name).
Proof.
  unfold screenshotIfEnabled, mkdir, screenshot.
  destruct (screenshotOnError config); quiet_steps.
Qed.

Lemma quiet_checkResponse response :
  quiet form_event (checkResponse (W:=W) response).
Proof. unfold checkResponse, body. quiet_steps. Qed.

(** A computation that opens with one interaction and is quiet after it. *)
Lemma opens_with {E E' A B} (p : event -> bool)
    (h0 : W -> result E A * W) (log : result E A -> event)
    (k : A -> M W E B) (h : E -> M W E' B) :
  (forall a, quiet p (k a)) -> (forall e, quiet p (h e)) ->
  forall s, exists r t,
    emitted s (snd (tryCatch (bind (perform h0 log) k) h s)) (log r :: t)
    /\ forallb p t = true.
Proof.
  intros Hk Hh s. rewrite tryCatch_run, bind_run, perform_run.
  destruct (fst (h0 (world s))) as [a|e] eqn:Hr.
  - match goal with |- context [k a ?st] => destruct (Hk a st) as (t1 & Ht1 & Hp1);
      destruct (k a st) as [[b|e] s1] eqn:Hka end; simpl in *.
    + exists (Ok a), t1. split; [|exact Hp1].
      unfold emitted in *. simpl in *. now rewrite Ht1, <- app_assoc.
    + destruct (Hh e s1) as (t2 & Ht2 & Hp2).
      exists (Ok a), (t1 ++ t2). split; [|now rewrite forallb_app, Hp1, Hp2].
      unfold emitted in *. simpl in *. now rewrite Ht2, Ht1, <- !app_assoc.
  - match goal with |- context [h e ?st] =>
      destruct (Hh e st) as (t2 & Ht2 & Hp2) end.
    exists (Throw e), t2. split; [|exact Hp2].
    unfold emitted in *. simpl in *. now rewrite Ht2, <- app_assoc.
Qed.

Lemma login_trace (s : St W) :
  exists r t,
    emitted s (snd (login config selectors s)) (EvGoto (loginUrl config) r :: t)
    /\ forallb form_event t = true.
Proof.
  assert (Heq : login config selectors s =
    tryCatch
      (bind (perform (page_goto (loginUrl config)) (EvGoto (loginUrl config)))
         (fun _ => bind (enterCredentials config selectors)
            (fun _ => bind (verifyLogin config selectors)
               (fun isLoggedIn =>
                  if negb isLoggedIn then throw verificationFailed else ret true))))
      (fun error => bind (screenshotIfEnabled config "login-error")
                         (fun _ => throw error)) s).
  { unfold login, submitCredentials, goto. rewrite !tryCatch_run, !bind_run.
    destruct (perform _ _ s) as [[[]|e] s1]; reflexivity. }
  rewrite Heq. apply opens_with.
  - intros _. apply quiet_bind; [apply quiet_enterCredentials|]. intros _.
    apply quiet_bind; [apply quiet_verifyLogin|]. intros b.
    destruct (negb b); [apply quiet_throw | apply quiet_ret].
  - intros e. apply quiet_bind; [apply quiet_screenshotIfEnabled|].
    intros; apply quiet_throw.
Qed.

Lemma downloadCsv_trace (s : St W) :
  exists r t,
    emitted s (snd (downloadCsv config s)) (EvRequestGet (exportUrl config) r :: t)
    /\ forallb form_event t = true.
Proof.
  unfold downloadCsv, requestGet. apply opens_with.
  - apply quiet_checkResponse.
  - intros e. apply quiet_bind; [apply quiet_screenshotIfEnabled|].
    intros; apply quiet_throw.
Qed.

Lemma screenshotIfEnabled_safe name (s : St W) :
  diagnostics_safe config -> fst (screenshotIfEnabled config name s) = Ok tt.
Proof.
  unfold diagnostics_safe, screenshotIfEnabled.
  intros [Hoff|[Hmk Hshot]].
  - now rewrite Hoff.
  - destruct (screenshotOnError config); [|reflexivity].
    unfold mkdir, screenshot. rewrite bind_run, perform_run, Hmk, perform_run, Hshot.
    reflexivity.
Qed.

(** What [downloadCsv] throws, by what the export endpoint answered. *)
Lemma downloadCsv_rejects (s : St W) response b w1 w2 :
  diagnostics_safe config ->
  page_request_get (exportUrl config) (world s) = (Ok response, w1) ->
  response_body response w1 = (Ok b, w2) ->
  (status response <> 200%Z ->
   fst (downloadCsv config s)
   = Throw (newError ("HTTP " ++ string_of_Z (status response) ++ " received")))
  /\ (status response = 200%Z ->
      ensureCsv b (declaredType response) = false ->
      fst (downloadCsv config s) = Throw notCsv)
  /\ (status response = 200%Z ->
      ensureCsv b (declaredType response) = true ->
      exists d, fst (downloadCsv config s) = Ok d /\ buffer d = b).
Proof.
  intros Hsafe Hget Hbody.
  unfold downloadCsv, checkResponse, requestGet, body.
  rewrite tryCatch_run, bind_run, perform_run, Hget. simpl.
  rewrite bind_run, perform_run. simpl. rewrite Hbody. simpl.
  fold (declaredType response).
  repeat split.
  - intros Hst. apply Z.eqb_neq in Hst. rewrite Hst. simpl.
    unfold throw at 1. rewrite bind_run.
    match goal with |- context [screenshotIfEnabled config ?n ?st] =>
      pose proof (screenshotIfEnabled_safe n st Hsafe) as Hs;
      destruct (screenshotIfEnabled config n st) as [r s1] end.
    simpl in Hs. now subst r.
  - intros Hst Hcsv. rewrite Hst, Hcsv. simpl.
    unfold throw at 1. rewrite bind_run.
    match goal with |- context [screenshotIfEnabled config ?n ?st] =>
      pose proof (screenshotIfEnabled_safe n st Hsafe) as Hs;
      destruct (screenshotIfEnabled config n st) as [r s1] end.
    simpl in Hs. now subst r.
  - intros Hst Hcsv. rewrite Hst, Hcsv. simpl. eexists. split; reflexivity.
Qed.

(** [downloadCsv] returns only buffers that [ensureCsv] accepted, fetched
    with status 200. *)
Lemma downloadCsv_ok (s : St W) d :
  fst (downloadCsv config s) = Ok d ->
  ensureCsv (buffer d) (contentType d) = true
  /\ exists response,
       In (EvBody response (Ok (buffer d))) (trace (snd (downloadCsv config s)))
       /\ status response = 200%Z
       /\ declaredType response = contentType d.
Proof.
  unfold downloadCsv, checkResponse, requestGet, body.
  rewrite tryCatch_run, bind_run, perform_run.
  destruct (page_request_get (exportUrl config) (world s)) as [[response|e] w1]; simpl.
  - rewrite bind_run, perform_run. simpl.
    destruct (response_body response w1) as [[b|e] w2]; simpl.
    + destruct (status response =? 200)%Z eqn:Hst; simpl.
      * match goal with |- context [ensureCsv b ?c] =>
          destruct (ensureCsv b c) eqn:Hcsv end; simpl.
        -- intros Hd. inversion Hd; subst d; simpl. split; [exact Hcsv|].
           exists response. repeat split; [|now apply Z.eqb_eq].
           apply in_or_app. right. now left.
        -- unfold throw at 1. rewrite bind_run.
           destruct (screenshotIfEnabled _ _ _) as [[[]|e] s1]; discriminate.
      * unfold throw at 1. rewrite bind_run.
        destruct (screenshotIfEnabled _ _ _) as [[[]|e] s1]; discriminate.
    + rewrite bind_run.
      destruct (screenshotIfEnabled _ _ _) as [[[]|e0] s1]; discriminate.
  - rewrite bind_run.
    destruct (screenshotIfEnabled _ _ _) as [[[]|e0] s1]; discriminate.
Qed.

End Flow.

(** Counting fetches and logins. *)
Lemma fetches_app t1 t2 : fetches (t1 ++ t2) = (fetches t1 + fetches t2)%nat.
Proof. unfold fetches. now rewrite filter_app, length_app. Qed.

Lemma logins_app t1 t2 : logins (t1 ++ t2) = (logins t1 + logins t2)%nat.
Proof. unfold logins. now rewrite filter_app, length_app. Qed.

Lemma form_events_count t :
  forallb form_event t = true -> fetches t = 0%nat /\ logins t = 0%nat.
Proof.
  unfold fetches, logins. induction t as [|e t IH]; simpl; [auto|].
  intros Hp. apply andb_true_iff in Hp. destruct Hp as [He Ht].
  destruct (IH Ht) as [IH1 IH2].
  destruct e; simpl in *; try discriminate; auto.
Qed.

(** A needle whose first character does not occur cannot occur. *)
Lemma includes_head_absent s c x :
  includes s (String c EmptyString) = false -> includes s (String c x) = false.
Proof.
  induction s as [|a s IH]; simpl; [trivial|].
  destruct (ascii_dec c a) as [->|Hne].
  - destruct s; discriminate.
  - simpl. exact IH.
Qed.

Lemma includes_char_append a b c :
  includes (a ++ b)%string (String c EmptyString)
  = includes a (String c EmptyString) || includes b (String c EmptyString).
Proof.
  induction a as [|x a IH]; simpl.
  - reflexivity.
  - destruct (ascii_dec c x).
    + destruct (a ++ b)%string; destruct a; reflexivity.
    + simpl. exact IH.
Qed.

Lemma digits_no_H d : includes (DecimalString.NilEmpty.string_of_uint d) "H" = false.
Proof. induction d; simpl; auto. Qed.

Lemma string_of_Z_no_H z : includes (string_of_Z z) "H" = false.
Proof.
  unfold string_of_Z, DecimalString.NilZero.string_of_int,
    DecimalString.NilZero.string_of_uint.
  destruct (Z.to_int z) as [d|d]; destruct d; simpl; auto using digits_no_H.
Qed.

(** The message of a status failure never looks like the classifier's. *)
Lemma http_message_no_marker status :
  includes ("HTTP " ++ string_of_Z status ++ " received") "HTML instead of CSV" = false.
Proof.
  simpl. apply includes_head_absent.
  rewrite includes_char_append, string_of_Z_no_H. reflexivity.
Qed.

End FlowFacts.

Module FlowClaims.
Import JsString JsStringFacts Utils Effects Retry Agent EffectFacts FlowFacts Fake.

Lemma fetches_cons e t :
  fetches (e :: t) = ((if is_fetch e then 1 else 0) + fetches t)%nat.
Proof. unfold fetches. simpl. now destruct (is_fetch e). Qed.

Lemma logins_cons e t :
  logins (e :: t) = ((if is_goto e then 1 else 0) + logins t)%nat.
Proof. unfold logins. simpl. now destruct (is_goto e). Qed.

Ltac count_events :=
  repeat match goal with
         | H : forallb form_event _ = true |- _ =>
             apply form_events_count in H; destruct H
         end;
  rewrite ?fetches_app, ?logins_app, ?fetches_cons, ?logins_cons; simpl; lia.

Example count_after_relogin u r1 r2 t1 t2 :
  forallb form_event t1 = true -> forallb form_event t2 = true ->
  fetches ((EvRequestGet u r1 :: t1) ++ EvGoto u r2 :: t2) = 1%nat
  /\ logins ((EvRequestGet u r1 :: t1) ++ EvGoto u r2 :: t2) = 1%nat.
Proof. intros H1 H2. split; count_events. Qed.

Example relogin_end_to_end :
  let run := downloadWithRelogin Fake.config Fake.selectors
               (mkSt expired_then_ok []) in
  fst run = Ok {| buffer := snd csv_export; contentType := "text/csv"; bytes := 27 |}
  /\ fetches (trace (snd run)) = 2%nat
  /\ logins (trace (snd run)) = 1%nat.
Proof. repeat split. Qed.

Example status_failure_no_relogin :
  let run := downloadWithRelogin Fake.config Fake.selectors
               (mkSt (form_site "about:blank" [server_error]) []) in
  fst run = Throw (newError "HTTP 503 received")
  /\ fetches (trace (snd run)) = 1%nat
  /\ logins (trace (snd run)) = 0%nat.
Proof. repeat split. Qed.

(** C2, as amended -- One attempt of the download flow makes one fetch; if
    it succeeds its result is returned with no login.  If it fails with an
    error whose message contains [HTML instead of CSV] -- the error raised,
    when the diagnostic screenshot does not itself throw, for a body of
    status 200 that the classifier rejects -- login runs exactly once more:
    when that login returns, the fetch is made exactly once more and its
    outcome is the outcome of the attempt; when that login throws, its error
    is the outcome and there is no second fetch.  A failure whose message
    does not contain [HTML instead of CSV] -- every status other than 200 --
    is the outcome as it is, with no login and no second fetch. *)
Theorem downloadWithRelogin_one_relogin
    {W : Type} `{Clock W} `{Browser W}
    (config : Config) (selectors : Selectors) (s : St W) :
  let first := downloadCsv config s in
  let run := downloadWithRelogin config selectors s in
  exists t,
    emitted s (snd run) t
    /\ (forall d, fst first = Ok d ->
        run = first /\ fetches t = 1%nat /\ logins t = 0%nat)
    /\ (forall e,
        fst first = Throw e ->
        includes (message e) "HTML instead of CSV" = true ->
        let relogin := login config selectors (snd first) in
        logins t = 1%nat
        /\ (forall v, fst relogin = Ok v ->
            run = downloadCsv config (snd relogin) /\ fetches t = 2%nat)
        /\ (forall e', fst relogin = Throw e' ->
            run = (Throw e', snd relogin) /\ fetches t = 1%nat))
    /\ (forall e,
        fst first = Throw e ->
        includes (message e) "HTML instead of CSV" = false ->
        run = (Throw e, snd first) /\ fetches t = 1%nat /\ logins t = 0%nat)
    /\ (diagnostics_safe config ->
        forall response b w1 w2,
          page_request_get (exportUrl config) (world s) = (Ok response, w1) ->
          response_body response w1 = (Ok b, w2) ->
          (status response = 200%Z ->
           ensureCsv b (declaredType response) = false ->
           fst first = Throw notCsv
           /\ includes (message notCsv) "HTML instead of CSV" = true)
          /\ (status response <> 200%Z ->
              exists e, fst first = Throw e
                        /\ includes (message e) "HTML instead of CSV" = false)).
Proof.
  intros first run.
  assert (Hclass : diagnostics_safe config ->
    forall response b w1 w2,
      page_request_get (exportUrl config) (world s) = (Ok response, w1) ->
      response_body response w1 = (Ok b, w2) ->
      (status response = 200%Z ->
       ensureCsv b (declaredType response) = false ->
       fst first = Throw notCsv
       /\ includes (message notCsv) "HTML instead of CSV" = true)
      /\ (status response <> 200%Z ->
          exists e, fst first = Throw e
                    /\ includes (message e) "HTML instead of CSV" = false)).
  { intros Hsafe response b w1 w2 Hget Hbody.
    destruct (downloadCsv_rejects config s response b w1 w2 Hsafe Hget Hbody)
      as (Hstatus & Hcsv & _).
    split.
    - intros Hst Hrej. split; [now apply Hcsv | reflexivity].
    - intros Hst. eexists. split; [now apply Hstatus|].
      apply http_message_no_marker. }
  destruct (downloadCsv_trace config s) as (r1 & t1 & Ht1 & Hq1).
  unfold run, downloadWithRelogin. rewrite tryCatch_run. fold first.
  fold first in Ht1.
  destruct first as [[d|e] s1] eqn:Hfirst; simpl in *.
  - exists (EvRequestGet (exportUrl config) r1 :: t1).
    split; [exact Ht1|].
    split.
    { intros d0 _. split; [reflexivity|]. split; count_events. }
    split; [discriminate|]. split; [discriminate | exact Hclass].
  - destruct (includes (message e) "HTML instead of CSV") eqn:Hmsg.
    + rewrite bind_run.
      destruct (login_trace config selectors s1) as (r2 & t2 & Ht2 & Hq2).
      destruct (login config selectors s1) as [[v|e'] s2] eqn:Hlogin; simpl in *.
      * destruct (downloadCsv_trace config s2) as (r3 & t3 & Ht3 & Hq3).
        exists ((EvRequestGet (exportUrl config) r1 :: t1)
                ++ (EvGoto (loginUrl config) r2 :: t2)
                ++ (EvRequestGet (exportUrl config) r3 :: t3)).
        split; [eauto using emitted_trans|].
        split; [discriminate|].
        split.
        { intros e0 He0 _. inversion He0; subst e0.
          split; [count_events|]. split.
          - intros v0 _. split; [reflexivity | count_events].
          - discriminate. }
        split; [|exact Hclass].
        intros e0 He0 Hno. inversion He0; subst e0. congruence.
      * exists ((EvRequestGet (exportUrl config) r1 :: t1)
                ++ (EvGoto (loginUrl config) r2 :: t2)).
        split; [eauto using emitted_trans|].
        split; [discriminate|].
        split.
        { intros e0 He0 _. inversion He0; subst e0.
          split; [count_events|]. split.
          - discriminate.
          - intros e1 He1. inversion He1; subst e1.
            split; [reflexivity | count_events]. }
        split; [|exact Hclass].
        intros e0 He0 Hno. inversion He0; subst e0. congruence.
    + exists (EvRequestGet (exportUrl config) r1 :: t1).
      split; [exact Ht1|].
      split; [discriminate|].
      split.
      { intros e0 He0 Hyes. inversion He0; subst e0. congruence. }
      split; [|exact Hclass].
      intros e0 He0 _. inversion He0; subst e0.
      split; [reflexivity|]. split; count_events.
Qed.

Lemma downloadWithRelogin_one_relogin_witness :
  let s := mkSt expired_then_ok [] in
  let run := downloadWithRelogin Fake.config Fake.selectors s in
  fst (downloadCsv Fake.config s) = Throw notCsv
  /\ logins (trace (snd run)) = 1%nat
  /\ fetches (trace (snd run)) = 2%nat.
Proof.
  intros s run.
  destruct (downloadWithRelogin_one_relogin Fake.config Fake.selectors s)
    as (t & Ht & _ & Hexpired & _ & Hclass).
  assert (Hsafe : diagnostics_safe Fake.config) by (left; reflexivity).
  destruct (Hclass Hsafe (fst html_page) (snd html_page)
              (snd (answer expired_then_ok)) (snd (answer expired_then_ok))
              eq_refl eq_refl) as [Hrej _].
  destruct (Hrej eq_refl eq_refl) as [Hfirst Hmsg].
  destruct (Hexpired notCsv Hfirst Hmsg) as (Hlogins & Hok & _).
  destruct (Hok true eq_refl) as [_ Hfetches].
  change (trace (snd run) = t) in Ht. rewrite Ht.
  auto.
Defined.

(** C2, as stated, fails: when the body is classified as not CSV and the
    login that follows throws, the fetch is not made a second time. *)
Lemma relogin_failure_no_second_fetch :
  ~ relogin_then_refetch Fake.config Fake.selectors (mkSt expired_no_form []).
Proof.
  intros Hclaim.
  destruct (Hclaim (fst html_page) (snd html_page)
              (snd (answer expired_no_form)) (snd (answer expired_no_form))
              eq_refl eq_refl eq_refl eq_refl _ eq_refl) as [_ Hfetches].
  vm_compute in Hfetches. discriminate.
Qed.

End FlowClaims.

(* ===================================================================== *)
(** ** Delivery *)
(* ===================================================================== *)

Module DeliveryFacts.
Import JsString Utils Effects Retry Agent EffectFacts RetryFacts FlowFacts Fake.

Section Hoare.
Context {W : Type}.

Lemma hoare_bind {E A B} (P : St W -> Prop) (m : M W E A) (k : A -> M W E B)
    (Q : A -> St W -> Prop) (Q' : B -> St W -> Prop) (R : E -> St W -> Prop) :
  hoare P m Q R -> (forall a, hoare (Q a) (k a) Q' R) -> hoare P (bind m k) Q' R.
Proof.
  intros Hm Hk s Hs. rewrite bind_run. specialize (Hm s Hs).
  destruct (m s) as [[a|e] s1]; [now apply Hk | exact Hm].
Qed.

Lemma hoare_tryCatch {E E' A} (P : St W -> Prop) (m : M W E A) (h : E -> M W E' A)
    (Q : A -> St W -> Prop) (R : E -> St W -> Prop) (R' : E' -> St W -> Prop) :
  hoare P m Q R -> (forall e, hoare (R e) (h e) Q R') -> hoare P (tryCatch m h) Q R'.
Proof.
  intros Hm Hh s Hs. rewrite tryCatch_run. specialize (Hm s Hs).
  destruct (m s) as [[a|e] s1]; [exact Hm | now apply Hh].
Qed.

(** A computation that adds only [p]-events keeps what such events keep. *)
Lemma hoare_quiet {E A} (p : event -> bool) (I J : list event -> Prop)
    (m : M W E A) :
  quiet p m ->
  (forall t t', I t -> forallb p t' = true -> I (t ++ t')) ->
  (forall t, I t -> J t) ->
  hoare (fun s => I (trace s)) m (fun _ s => I (trace s)) (fun _ s => J (trace s)).
Proof.
  intros Hq Hstable Hweak s Hs. destruct (Hq s) as (t & Ht & Hp).
  unfold emitted in Ht.
  destruct (m s) as [[a|e] s1]; simpl in *; rewrite Ht; auto.
Qed.

End Hoare.

(** Deliveries and the events around them. *)
Lemma no_delivery_app t t' :
  no_delivery t -> forallb not_delivery t' = true -> no_delivery (t ++ t').
Proof. unfold no_delivery. intros H1 H2. now rewrite forallb_app, H1, H2. Qed.

Lemma no_delivery_not_in t b timestamp r :
  no_delivery t -> ~ In (EvDeliver b timestamp r) t.
Proof.
  unfold no_delivery. rewrite forallb_forall. intros H Hin.
  specialize (H _ Hin). discriminate.
Qed.

Lemma no_delivery_validated t : no_delivery t -> deliveries_validated t.
Proof.
  intros H t1 b ts r t2 ->. exfalso.
  eapply no_delivery_not_in; [exact H|]. apply in_or_app. right. now left.
Qed.

Lemma deliveries_validated_app t t' :
  deliveries_validated t -> forallb not_delivery t' = true ->
  deliveries_validated (t ++ t').
Proof.
  intros Hv Hq t1 b ts r t2 Heq.
  apply app_eq_app in Heq. destruct Heq as [l [[-> Hl]|[-> Hl]]].
  - destruct l as [|x l]; simpl in Hl.
    + exfalso. eapply (no_delivery_not_in t'); [exact Hq|]. rewrite <- Hl. now left.
    + inversion Hl; subst. eapply Hv. reflexivity.
  - exfalso. eapply (no_delivery_not_in t'); [exact Hq|]. rewrite Hl.
    apply in_or_app. right. now left.
Qed.

Lemma deliveries_validated_snoc t b timestamp r :
  no_delivery t -> validated t b ->
  deliveries_validated (t ++ [EvDeliver b timestamp r]).
Proof.
  intros Hn Hv t1 b' ts' r' t2 Heq.
  apply app_eq_app in Heq. destruct Heq as [l [[Ht Hl]|[Ht Hl]]].
  - destruct l as [|x l]; simpl in Hl.
    + inversion Hl; subst. now rewrite app_nil_r in Hv.
    + exfalso. inversion Hl; subst.
      eapply no_delivery_not_in; [exact Hn|]. apply in_or_app. right. now left.
  - destruct l as [|x l]; simpl in Hl.
    + inversion Hl; subst. now rewrite app_nil_r.
    + exfalso. inversion Hl as [[Hx Hnil]]. destruct l; discriminate.
Qed.

Lemma validated_app t t' b : validated t b -> validated (t ++ t') b.
Proof.
  intros (response & Hin & Hst & Hcsv). exists response.
  repeat split; auto. apply in_or_app. now left.
Qed.

Lemma form_event_not_delivery e : form_event e = true -> not_delivery e = true.
Proof. destruct e; simpl; congruence. Qed.

Section Agent.
Context {W : Type} `{Clock W} `{Browser W} `{Delivery W}.
Variable config : Config.
Variable selectors : Selectors.

Lemma quiet_login : quiet not_delivery (login (W:=W) config selectors).
Proof.
  unfold login, submitCredentials, goto.
  apply quiet_tryCatch.
  - apply quiet_bind.
    + apply quiet_bind; [quiet_steps|]. intros _.
      eapply quiet_weaken; [apply form_event_not_delivery|].
      apply quiet_enterCredentials.
    + intros _. apply quiet_bind.
      * eapply quiet_weaken; [apply form_event_not_delivery|].
        apply quiet_verifyLogin.
      * intros b. destruct (negb b); quiet_steps.
  - intros e. apply quiet_bind; [|intros; apply quiet_throw].
    eapply quiet_weaken; [apply form_event_not_delivery|].
    apply quiet_screenshotIfEnabled.
Qed.

Lemma quiet_downloadCsv : quiet not_delivery (downloadCsv (W:=W) config).
Proof.
  unfold downloadCsv, requestGet.
  apply quiet_tryCatch.
  - apply quiet_bind; [quiet_steps|]. intros response.
    eapply quiet_weaken; [apply form_event_not_delivery|].
    apply quiet_checkResponse.
  - intros e. apply quiet_bind; [|intros; apply quiet_throw].
    eapply quiet_weaken; [apply form_event_not_delivery|].
    apply quiet_screenshotIfEnabled.
Qed.

Lemma quiet_downloadWithRelogin :
  quiet not_delivery (downloadWithRelogin (W:=W) config selectors).
Proof.
  unfold downloadWithRelogin. apply quiet_tryCatch; [apply quiet_downloadCsv|].
  intros e. destruct (includes _ _); [|apply quiet_throw].
  apply quiet_bind; [apply quiet_login | intros; apply quiet_downloadCsv].
Qed.

(** What [downloadWithRelogin] returns was fetched and classified. *)
Lemma downloadWithRelogin_ok (s : St W) d :
  fst (downloadWithRelogin config selectors s) = Ok d ->
  validated (trace (snd (downloadWithRelogin config selectors s))) (buffer d).
Proof.
  assert (Hcsv : forall s0 d0, fst (downloadCsv config s0) = Ok d0 ->
                   validated (trace (snd (downloadCsv config s0))) (buffer d0)).
  { intros s0 d0 Hd. destruct (downloadCsv_ok config s0 d0 Hd)
      as (Hc & response & Hin & Hst & Hty).
    exists response. repeat split; auto. now rewrite Hty. }
  unfold downloadWithRelogin. rewrite tryCatch_run.
  destruct (downloadCsv config s) as [[d0|e] s1] eqn:Hfirst.
  - intros Hd. simpl in Hd. inversion Hd; subst d0.
    specialize (Hcsv s d). rewrite Hfirst in Hcsv. now apply Hcsv.
  - destruct (includes _ _); [|discriminate].
    rewrite bind_run. destruct (login config selectors s1) as [[v|e'] s2];
      [apply Hcsv | discriminate].
Qed.

Lemma hoare_download options :
  hoare (fun s : St W => no_delivery (trace s))
    (withRetry (downloadWithRelogin config selectors) options)
    (fun d s => no_delivery (trace s) /\ validated (trace s) (buffer d))
    (fun _ s => deliveries_validated (trace s)).
Proof.
  intros s Hs.
  destruct (quiet_withRetry_loop not_delivery
              (downloadWithRelogin config selectors) options
              quiet_downloadWithRelogin (fun _ => eq_refl)
              (retries options + 1) 1 None s) as (t & Ht & Hq).
  fold (withRetry (downloadWithRelogin config selectors) options s) in Ht.
  destruct (withRetry (downloadWithRelogin config selectors) options s)
    as [[d|e] s'] eqn:Hrun; unfold emitted in Ht; simpl in Ht.
  - split; [rewrite Ht; now apply no_delivery_app|].
    destruct (withRetry_loop_ok (downloadWithRelogin config selectors) options
                (retries options + 1) 1 None s d s' Hrun) as [s1 Hs1].
    pose proof (downloadWithRelogin_ok s1 d) as Hok.
    rewrite Hs1 in Hok. now apply Hok.
  - rewrite Ht. now apply no_delivery_validated, no_delivery_app.
Qed.

Lemma hoare_deliver b timestamp :
  hoare (fun s : St W => no_delivery (trace s) /\ validated (trace s) b)
    (await (deliver b timestamp))
    (fun _ s => deliveries_validated (trace s))
    (fun _ s => deliveries_validated (trace s)).
Proof.
  intros s [Hn Hv]. unfold await, deliver.
  rewrite tryCatch_run, perform_run.
  destruct (fst (storage_deliver b timestamp (world s))); simpl;
    now apply deliveries_validated_snoc.
Qed.

(** Steps that deliver nothing, before and after the delivery. *)
Lemma hoare_before {E A} (m : M W E A) :
  quiet not_delivery m ->
  hoare (fun s => no_delivery (trace s)) m
    (fun _ s => no_delivery (trace s))
    (fun _ s => deliveries_validated (trace s)).
Proof.
  intros Hq. apply (hoare_quiet not_delivery); auto using no_delivery_app,
    no_delivery_validated.
Qed.

Lemma hoare_after {E A} (m : M W E A) :
  quiet not_delivery m ->
  hoare (fun s => deliveries_validated (trace s)) m
    (fun _ s => deliveries_validated (trace s))
    (fun _ s => deliveries_validated (trace s)).
Proof.
  intros Hq. apply (hoare_quiet not_delivery); auto using deliveries_validated_app.
Qed.

Lemma hoare_runAgent :
  hoare (fun s : St W => no_delivery (trace s))
    (runAgent config selectors)
    (fun _ s => deliveries_validated (trace s))
    (fun _ s => deliveries_validated (trace s)).
Proof.
  unfold runAgent.
  eapply hoare_bind with (Q := fun _ s => deliveries_validated (trace s)).
  - eapply hoare_tryCatch with (R := fun _ s => deliveries_validated (trace s)).
    + eapply hoare_bind; [apply hoare_before; unfold await; quiet_steps | intros ?].
      eapply hoare_bind; [apply hoare_before; unfold await; quiet_steps | intros ?].
      eapply hoare_bind; [apply hoare_before; unfold await; quiet_steps | intros ?].
      eapply hoare_bind.
      { apply hoare_before. apply quiet_withRetry_loop; [apply quiet_login | reflexivity]. }
      intros ?.
      eapply hoare_bind; [apply hoare_download | intros download].
      eapply hoare_bind
        with (Q := fun _ s => no_delivery (trace s)
                              /\ validated (trace s) (buffer download)).
      { intros s Hs. exact Hs. }
      intros timestamp.
      eapply hoare_bind; [apply hoare_deliver | intros ?].
      apply hoare_after. unfold await, pruneHistory. quiet_steps.
    + intros e. apply hoare_after.
      intros s. eexists. split; [reflexivity | reflexivity].
  - intros ?.
    eapply hoare_bind; [apply hoare_after; unfold quietly; quiet_steps | intros ?].
    eapply hoare_bind; [apply hoare_after; unfold quietly; quiet_steps | intros ?].
    apply hoare_after; unfold quietly; quiet_steps.
Qed.

(** Whatever is wrong with the body, [downloadCsv] throws. *)
Lemma downloadCsv_rejected_throws (s : St W) response b w1 w2 :
  page_request_get (exportUrl config) (world s) = (Ok response, w1) ->
  response_body response w1 = (Ok b, w2) ->
  ensureCsv b (declaredType response) = false ->
  exists e, fst (downloadCsv config s) = Throw e.
Proof.
  intros Hget Hbody Hrej.
  destruct (downloadCsv config s) as [[d|e] s'] eqn:Hrun; [|now exists e].
  exfalso.
  pose proof (downloadCsv_ok config s d) as Hok. rewrite Hrun in Hok.
  destruct (Hok eq_refl) as (Hcsv & _).
  revert Hrun. unfold downloadCsv, checkResponse, requestGet, body.
  rewrite tryCatch_run, bind_run, perform_run, Hget. simpl.
  rewrite bind_run, perform_run. simpl. rewrite Hbody. simpl.
  fold (declaredType response). rewrite Hrej. simpl.
  destruct (negb (status response =? 200)%Z);
    unfold throw at 1; rewrite bind_run;
    destruct (screenshotIfEnabled _ _ _) as [[[]|e] s1]; discriminate.
Qed.

End Agent.

Example runAgent_end_to_end :
  let run := runAgent Fake.config Fake.selectors (mkSt expired_then_ok []) in
  fst run = Ok tt
  /\ logins (trace (snd run)) = 2%nat
  /\ filter (fun e => negb (not_delivery e)) (trace (snd run))
     = [EvDeliver (snd csv_export) "20260101-120000" (Ok tt)].
Proof. repeat split. Qed.

(** C8 -- In every run of the agent, from any world, each buffer handed
    to [deliver] was fetched earlier in the run with status 200 and
    classified as CSV by [ensureCsv] with the content type it came with;
    [downloadCsv] returns only such buffers and throws whenever [ensureCsv]
    rejects the body. *)
Theorem runAgent_delivers_only_validated
    {W : Type} `{Clock W} `{Browser W} `{Delivery W}
    (config : Config) (selectors : Selectors) (w : W) :
  deliveries_validated (trace (snd (runAgent config selectors (mkSt w []))))
  /\ (forall (s : St W) d,
        fst (downloadCsv config s) = Ok d ->
        ensureCsv (buffer d) (contentType d) = true)
  /\ (forall (s : St W) response b w1 w2,
        page_request_get (exportUrl config) (world s) = (Ok response, w1) ->
        response_body response w1 = (Ok b, w2) ->
        ensureCsv b (declaredType response) = false ->
        exists e, fst (downloadCsv config s) = Throw e).
Proof.
  split.
  - pose proof (hoare_runAgent config selectors (mkSt w []) eq_refl) as Hrun.
    destruct (runAgent config selectors (mkSt w [])) as [[[]|e] s']; exact Hrun.
  - split.
    + intros s d Hd. now destruct (downloadCsv_ok config s d Hd).
    + apply downloadCsv_rejected_throws.
Qed.

Lemma runAgent_delivers_only_validated_witness :
  let run := runAgent Fake.config Fake.selectors (mkSt expired_then_ok []) in
  In (EvDeliver (snd csv_export) "20260101-120000" (Ok tt)) (trace (snd run))
  /\ deliveries_validated (trace (snd run))
  /\ exists e,
       fst (downloadCsv Fake.config (mkSt expired_then_ok [])) = Throw e.
Proof.
  intros run.
  destruct (runAgent_delivers_only_validated Fake.config Fake.selectors
              expired_then_ok) as (Hval & _ & Hthrows).
  split; [vm_compute; auto 100|]. split; [exact Hval|].
  apply (Hthrows (mkSt expired_then_ok []) (fst html_page) (snd html_page)
           (snd (answer expired_then_ok)) (snd (answer expired_then_ok)));
    reflexivity.
Defined.

End DeliveryFacts.

(* ===================================================================== *)
(** ** Storage: the two retention policies *)
(* ===================================================================== *)

Module StorageFacts.
Import JsString Utils Effects Retry Storage EffectFacts Fake.

(** *** Sorting file names *)

Lemma leb_trans a b c :
  String.leb a b = true -> String.leb b c = true -> String.leb a c = true.
Proof.
  unfold String.leb.
  change (String.compare a b) with (OrdersEx.String_as_OT.compare a b).
  change (String.compare b c) with (OrdersEx.String_as_OT.compare b c).
  change (String.compare a c) with (OrdersEx.String_as_OT.compare a c).
  destruct (OrdersEx.String_as_OT.compare_spec a b) as [Hab|Hab|Hab];
    destruct (OrdersEx.String_as_OT.compare_spec b c) as [Hbc|Hbc|Hbc];
    destruct (OrdersEx.String_as_OT.compare_spec a c) as [Hac|Hac|Hac];
    intros H1 H2; try reflexivity; try discriminate; exfalso;
    unfold OrdersEx.String_as_OT.eq in *; subst;
    repeat match goal with
           | H : OrdersEx.String_as_OT.lt ?x ?x |- _ =>
               exact (StrictOrder_Irreflexive x H)
           | H1 : OrdersEx.String_as_OT.lt ?x ?y,
             H2 : OrdersEx.String_as_OT.lt ?y ?z |- _ =>
               lazymatch goal with
               | _ : OrdersEx.String_as_OT.lt x z |- _ => fail
               | _ => pose proof (StrictOrder_Transitive x y z H1 H2)
               end
           end.
Qed.

Section SortFacts.
Context {A : Type}.
Variable before : A -> A -> bool.
Hypothesis before_total : forall x y, before x y = true \/ before y x = true.
Hypothesis before_trans :
  forall x y z, before x y = true -> before y z = true -> before x z = true.

Lemma insertBy_perm x l : Permutation.Permutation (insertBy before x l) (x :: l).
Proof.
  induction l as [|y l IH]; simpl; [reflexivity|].
  destruct (before x y); [reflexivity|].
  rewrite IH. apply Permutation.perm_swap.
Qed.

Lemma sortBy_perm l : Permutation.Permutation (sortBy before l) l.
Proof.
  induction l as [|x l IH]; simpl; [reflexivity|].
  rewrite insertBy_perm. now constructor.
Qed.

Lemma insertBy_sorted x l :
  Sorted.StronglySorted (fun a b => before a b = true) l ->
  Sorted.StronglySorted (fun a b => before a b = true) (insertBy before x l).
Proof.
  induction 1 as [|y l Hs IH Hy]; simpl.
  - repeat constructor.
  - destruct (before x y) eqn:Hxy.
    + constructor; [now constructor|]. constructor; [exact Hxy|].
      eapply Forall_impl; [|exact Hy]. intros z Hz. eapply before_trans; eauto.
    + constructor; [exact IH|].
      eapply Permutation.Permutation_Forall;
        [symmetry; apply insertBy_perm|].
      constructor; [|exact Hy].
      destruct (before_total x y) as [Hc|Hc]; [congruence | exact Hc].
Qed.

Lemma sortBy_sorted l :
  Sorted.StronglySorted (fun a b => before a b = true) (sortBy before l).
Proof.
  induction l as [|x l IH]; simpl; [constructor | now apply insertBy_sorted].
Qed.

End SortFacts.

Lemma in_skipn {A} (l : list A) n y : In y (skipn n l) -> In y l.
Proof.
  intros Hy. rewrite <- (firstn_skipn n l). apply in_or_app. now right.
Qed.

(** In a sorted list every element of a prefix is before every element of
    the rest. *)
Lemma sorted_split {A} (R : A -> A -> Prop) l :
  Sorted.StronglySorted R l ->
  forall n x y, In x (firstn n l) -> In y (skipn n l) -> R x y.
Proof.
  induction 1 as [|a l Hs IH Ha]; intros n x y Hx Hy.
  - destruct n; destruct Hx.
  - destruct n as [|n]; [destruct Hx|]. simpl in Hx, Hy.
    destruct Hx as [<-|Hx].
    + rewrite Forall_forall in Ha. apply Ha.
      eapply in_skipn, Hy.
    + eapply IH; eauto.
Qed.

(** In the descending order of the code, the names kept are the greatest. *)
Lemma kept_are_newest l n k d :
  In k (firstn n (rev (sort l))) -> In d (skipn n (rev (sort l))) -> le d k.
Proof.
  rewrite firstn_rev, skipn_rev, <- !in_rev. intros Hk Hd.
  eapply (sorted_split le);
    [apply (sortBy_sorted String.leb String.leb_total leb_trans) | exact Hd | exact Hk].
Qed.

Lemma newerFirst_total x y : newerFirst x y = true \/ newerFirst y x = true.
Proof. unfold newerFirst. rewrite !Z.leb_le. lia. Qed.

Lemma newerFirst_trans x y z :
  newerFirst x y = true -> newerFirst y z = true -> newerFirst x z = true.
Proof. unfold newerFirst. rewrite !Z.leb_le. lia. Qed.

(** The objects kept are at least as recent as the objects deleted. *)
Lemma kept_are_most_recent l n k d :
  In k (firstn n (sortBy newerFirst l)) -> In d (skipn n (sortBy newerFirst l)) ->
  (LastModified d <= LastModified k)%Z.
Proof.
  intros Hk Hd. apply Z.leb_le.
  exact (sorted_split _ _
           (sortBy_sorted newerFirst newerFirst_total newerFirst_trans l) n k d Hk Hd).
Qed.

(** *** Traces of the writes and of the deletions *)

Lemma written_app t1 t2 : written (t1 ++ t2) = written t1 ++ written t2.
Proof.
  induction t1 as [|e t1 IH]; simpl; [reflexivity|].
  destruct e; simpl; now rewrite ?IH.
Qed.

Lemma unlinked_app t1 t2 : unlinked (t1 ++ t2) = unlinked t1 ++ unlinked t2.
Proof.
  induction t1 as [|e t1 IH]; simpl; [reflexivity|].
  destruct e; simpl; now rewrite ?IH.
Qed.

Lemma deletedKeys_app t1 t2 :
  deletedKeys (t1 ++ t2) = deletedKeys t1 ++ deletedKeys t2.
Proof.
  induction t1 as [|e t1 IH]; simpl; [reflexivity|].
  destruct e; simpl; now rewrite ?IH.
Qed.

Section Backend.
Context {W : Type} `{Clock W} `{Backends W}.
Variable env : Env.

Lemma deliverTo_written target buffer catalogFilename historyFilename (s : St W) :
  exists t,
    emitted s (snd (deliverTo env target buffer catalogFilename historyFilename s)) t
    /\ (exists rest,
          [catalogAt env target catalogFilename; historyAt env target historyFilename]
          = written t ++ rest)
    /\ (fst (deliverTo env target buffer catalogFilename historyFilename s) = Ok tt ->
        written t
        = [catalogAt env target catalogFilename; historyAt env target historyFilename]).
Proof.
  unfold deliverTo, catalogAt, historyAt, emitted,
    uploadToWordPress, uploadToS3, saveToFileSystem.
  destruct (String.eqb target "wp"); [|destruct (String.eqb target "s3")];
    repeat match goal with
           | |- context [if ?c then throw _ else _] => destruct c
           end;
    unfold bind, tryCatch, perform, ret, throw; simpl;
    repeat match goal with
           | |- context [let (_, _) := ?x in _] =>
               lazymatch type of x with
               | (_ * W)%type =>
                   let r := fresh "r" in
                   let w := fresh "w" in
                   destruct x as [r w]; destruct r as [[]|?]; simpl
               end
           end;
    eexists;
    (split; [first [rewrite <- ?app_assoc; reflexivity
                   | symmetry; apply app_nil_r]|]);
    simpl;
    (split; [eexists; reflexivity | first [reflexivity | discriminate]]).
Qed.

Lemma unlinkAll_trace :
  (forall path w, fst (fs_unlink path w) = Ok tt) ->
  forall toDelete (s : St W),
    fst (Older.unlinkAll toDelete s) = Ok tt
    /\ exists t, emitted s (snd (Older.unlinkAll toDelete s)) t
                 /\ unlinked t = map (join historyDir) toDelete.
Proof.
  intros Hok. induction toDelete as [|file rest IH]; intros s; simpl.
  - split; [reflexivity|]. exists []. split; [apply emitted_refl | reflexivity].
  - rewrite bind_run, perform_run, Hok.
    match goal with |- context [Older.unlinkAll rest ?st] =>
      destruct (IH st) as (Hr & t & Ht & Hu) end.
    split; [exact Hr|].
    exists (EvUnlink (join historyDir file) (Ok tt) :: t). split.
    + unfold emitted in *. rewrite Ht. simpl. now rewrite <- app_assoc.
    + simpl. now rewrite Hu.
Qed.

Lemma deleteAll_trace :
  (forall key w, fst (s3_send_delete key w) = Ok tt) ->
  forall toDelete (s : St W),
    fst (Older.deleteAll toDelete s) = Ok tt
    /\ exists t, emitted s (snd (Older.deleteAll toDelete s)) t
                 /\ deletedKeys t = map Key toDelete.
Proof.
  intros Hok. induction toDelete as [|obj rest IH]; intros s; simpl.
  - split; [reflexivity|]. exists []. split; [apply emitted_refl | reflexivity].
  - rewrite bind_run, perform_run, Hok.
    match goal with |- context [Older.deleteAll rest ?st] =>
      destruct (IH st) as (Hr & t & Ht & Hu) end.
    split; [exact Hr|].
    exists (EvS3Delete (Key obj) (Ok tt) :: t). split.
    + unfold emitted in *. rewrite Ht. simpl. now rewrite <- app_assoc.
    + simpl. now rewrite Hu.
Qed.

End Backend.

End StorageFacts.

Module StorageClaims.
Import JsString Utils Effects Retry Storage EffectFacts StorageFacts Fake.

Lemma rethrow_run {W E A} (m : M W E A) (s : St W) :
  tryCatch m (fun error => throw error) s = m s.
Proof. rewrite tryCatch_run. now destruct (m s) as [[a|e] s1]. Qed.

Example latest_deliver_minute_42 :
  written (trace (snd (Latest.deliver env_fs (bytes_of "id,name") "20260101-124200"
                         (mkSt four_copies []))))
  = ["output/ingrosmart_catalog.csv"; "output/history/ingrosmart_backup_2.csv"].
Proof. reflexivity. Qed.

Example older_deliver_timestamp :
  written (trace (snd (Older.deliver env_fs (bytes_of "id,name") "20260101-124200"
                         (mkSt four_copies []))))
  = ["output/ingrosmart_catalog.csv";
     "output/history/ingrosmart-20260101-124200.csv"].
Proof. reflexivity. Qed.

Example older_prune_keep_two :
  history (world (snd (Older.pruneHistory env_fs "fs" 2 (mkSt four_copies []))))
  = ["notes.txt"; "ingrosmart-20260104-060000.csv"; "ingrosmart-20260103-060000.csv"].
Proof. reflexivity. Qed.

Example older_prune_s3_keep_one :
  deletedKeys (trace (snd (Older.pruneHistory env_s3 "s3" 1 (mkSt four_copies []))))
  = ["ingrosmart/history/ingrosmart-20260102-060000.csv";
     "ingrosmart/history/ingrosmart-20260101-060000.csv"].
Proof. reflexivity. Qed.

Section Revisions.
Context {W : Type} `{Clock W} `{Backends W}.
Variable env : Env.

Lemma latest_deliver_written buffer timestamp (s : St W) :
  exists t,
    emitted s (snd (Latest.deliver env buffer timestamp s)) t
    /\ (exists rest,
          [catalogDestination env;
           historyDestination env (slotFilename (getMinutes (now (world s))))]
          = written t ++ rest)
    /\ (fst (Latest.deliver env buffer timestamp s) = Ok tt ->
        written t =
        [catalogDestination env;
         historyDestination env (slotFilename (getMinutes (now (world s))))]).
Proof.
  unfold Latest.deliver. rewrite bind_run, rethrow_run.
  unfold catalogDestination, historyDestination, slotFilename.
  destruct (getMinutes (now (world s)) <? 30)%Z; apply deliverTo_written.
Qed.

Lemma older_deliver_written buffer timestamp (s : St W) :
  exists t,
    emitted s (snd (Older.deliver env buffer timestamp s)) t
    /\ (exists rest,
          [catalogDestination env;
           historyDestination env ("ingrosmart-" ++ timestamp ++ ".csv")%string]
          = written t ++ rest)
    /\ (fst (Older.deliver env buffer timestamp s) = Ok tt ->
        written t =
        [catalogDestination env;
         historyDestination env ("ingrosmart-" ++ timestamp ++ ".csv")%string]).
Proof.
  unfold Older.deliver. rewrite rethrow_run. apply deliverTo_written.
Qed.

Lemma older_prune_local keepCount files w1 (s : St W) :
  (0 < keepCount)%Z ->
  fs_readdir historyDir (world s) = (Ok files, w1) ->
  (forall path w, fst (fs_unlink path w) = Ok tt) ->
  exists t,
    emitted s (snd (Older.pruneHistory env "fs" keepCount s)) t
    /\ unlinked t
       = map (join historyDir)
           (skipn (Z.to_nat keepCount) (rev (sort (filter Older.isHistoryCsv files)))).
Proof.
  intros Hpos Hdir Hunlink. unfold Older.pruneHistory.
  replace (keepCount <=? 0)%Z with false by (symmetry; apply Z.leb_gt; lia).
  change (String.eqb "fs" "s3") with false. change (String.eqb "fs" "fs") with true.
  cbv iota. rewrite tryCatch_run. unfold Older.pruneLocalHistory.
  rewrite tryCatch_run, bind_run, perform_run, Hdir. simpl fst. simpl snd. cbv iota.
  set (csvFiles := rev (sort (filter Older.isHistoryCsv files))).
  destruct (Z.of_nat (List.length csvFiles) >? keepCount)%Z eqn:Hmore.
  - unfold sliceFrom.
    replace (keepCount <? 0)%Z with false by (symmetry; apply Z.ltb_ge; lia).
    match goal with |- context [Older.unlinkAll ?l ?st] =>
      destruct (unlinkAll_trace Hunlink l st) as (Hr & t & Ht & Hu);
      destruct (Older.unlinkAll l st) as [r s1] end.
    simpl in Hr. subst r. simpl in *.
    exists (EvReaddir historyDir (Ok files) :: t). split.
    + unfold emitted in *. rewrite Ht. simpl. now rewrite <- app_assoc.
    + exact Hu.
  - unfold ret. simpl. exists [EvReaddir historyDir (Ok files)].
    split; [reflexivity|]. simpl.
    rewrite skipn_all2; [reflexivity|].
    rewrite Z.gtb_ltb in Hmore. apply Z.ltb_ge in Hmore. lia.
Qed.

Lemma older_prune_s3 keepCount contents w1 (s : St W) :
  (0 < keepCount)%Z ->
  unset (S3_ENDPOINT env) = false ->
  unset (S3_BUCKET env) = false ->
  s3_send_list (orElse (S3_KEY_PREFIX_HISTORY env) "ingrosmart/history/") (world s)
  = (Ok (Some contents), w1) ->
  (forall key w, fst (s3_send_delete key w) = Ok tt) ->
  exists t,
    emitted s (snd (Older.pruneHistory env "s3" keepCount s)) t
    /\ deletedKeys t
       = map Key
           (skipn (Z.to_nat keepCount)
              (sortBy newerFirst (filter Older.isHistoryObject contents))).
Proof.
  intros Hpos Hendpoint Hbucket Hlist Hdelete. unfold Older.pruneHistory.
  replace (keepCount <=? 0)%Z with false by (symmetry; apply Z.leb_gt; lia).
  change (String.eqb "s3" "s3") with true. cbv iota.
  rewrite tryCatch_run. unfold Older.pruneS3History.
  rewrite Hendpoint, Hbucket. change (false || false) with false. cbv iota.
  rewrite bind_run, perform_run, Hlist. simpl fst. simpl snd. cbv iota.
  set (sorted := sortBy newerFirst (filter Older.isHistoryObject contents)).
  assert (Hlen : (List.length sorted <= List.length contents)%nat).
  { unfold sorted.
    rewrite (Permutation.Permutation_length (sortBy_perm newerFirst _)).
    apply filter_length_le. }
  destruct (Z.of_nat (List.length contents) <=? keepCount)%Z eqn:Hfew.
  - unfold ret. simpl. eexists. split; [reflexivity|]. simpl.
    rewrite skipn_all2; [reflexivity|]. apply Z.leb_le in Hfew. lia.
  - destruct (Z.of_nat (List.length sorted) <=? keepCount)%Z eqn:Hfew2.
    + unfold ret. simpl. eexists. split; [reflexivity|]. simpl.
      rewrite skipn_all2; [reflexivity|]. apply Z.leb_le in Hfew2. lia.
    + unfold sliceFrom.
      replace (keepCount <? 0)%Z with false by (symmetry; apply Z.ltb_ge; lia).
      match goal with |- context [Older.deleteAll ?l ?st] =>
        destruct (deleteAll_trace Hdelete l st) as (Hr & t & Ht & Hu);
        destruct (Older.deleteAll l st) as [r s1] end.
      simpl in Hr. subst r. simpl in *.
      eexists (_ :: t). split.
      * unfold emitted in *. rewrite Ht. simpl. rewrite <- app_assoc. reflexivity.
      * exact Hu.
Qed.

Lemma older_prune_nothing target keepCount (s : St W) :
  (keepCount <= 0)%Z \/ target = "wp" ->
  Older.pruneHistory env target keepCount s = (Ok tt, s).
Proof.
  unfold Older.pruneHistory.
  destruct (keepCount <=? 0)%Z eqn:Hk; [reflexivity|].
  intros [Hle | ->]; [apply Z.leb_gt in Hk; lia | reflexivity].
Qed.

End Revisions.

Lemma stamped_name_not_slot timestamp minute :
  ("ingrosmart-" ++ timestamp ++ ".csv")%string <> slotFilename minute.
Proof.
  unfold slotFilename. destruct (minute <? 30)%Z; simpl; discriminate.
Qed.

(** C9, as amended -- The most recent [deliver] writes the catalog and then
    the historical copy, and the name of that copy is one of two fixed names
    chosen by the minute of the hour, [ingrosmart_backup_1.csv] below 30 and
    [ingrosmart_backup_2.csv] otherwise, whatever the timestamp it is given;
    its [pruneHistory] returns at once, with no effect, for every target and
    [keepCount].  The older [deliver] names the historical copy
    [ingrosmart-<timestamp>.csv], which is never a slot name; its
    [pruneHistory], for a positive [keepCount], unlinks on the local target
    exactly the history files after the [keepCount] greatest names, and
    deletes on the S3 target exactly the history objects after the
    [keepCount] most recently modified (with a directory or bucket that can
    be listed and entries that can be deleted); it does nothing when
    [keepCount] is not positive or the target is WordPress. *)
Theorem retention_policy_by_revision
    {W : Type} `{Clock W} `{Backends W} (env : Env) :
  (forall buffer timestamp (s : St W),
      exists t,
        emitted s (snd (Latest.deliver env buffer timestamp s)) t
        /\ (exists rest,
              [catalogDestination env;
               historyDestination env (slotFilename (getMinutes (now (world s))))]
              = written t ++ rest)
        /\ (fst (Latest.deliver env buffer timestamp s) = Ok tt ->
            written t =
            [catalogDestination env;
             historyDestination env (slotFilename (getMinutes (now (world s))))]))
  /\ (forall minute,
        ((minute < 30)%Z -> slotFilename minute = "ingrosmart_backup_1.csv")
        /\ ((30 <= minute)%Z -> slotFilename minute = "ingrosmart_backup_2.csv"))
  /\ (forall target keepCount (s : St W),
        Latest.pruneHistory target keepCount s = (Ok tt, s))
  /\ (forall buffer timestamp (s : St W),
        exists t,
          emitted s (snd (Older.deliver env buffer timestamp s)) t
          /\ (exists rest,
                [catalogDestination env;
                 historyDestination env ("ingrosmart-" ++ timestamp ++ ".csv")%string]
                = written t ++ rest)
          /\ (fst (Older.deliver env buffer timestamp s) = Ok tt ->
              written t =
              [catalogDestination env;
               historyDestination env ("ingrosmart-" ++ timestamp ++ ".csv")%string]))
  /\ (forall timestamp minute,
        ("ingrosmart-" ++ timestamp ++ ".csv")%string <> slotFilename minute)
  /\ (forall keepCount files w1 (s : St W),
        (0 < keepCount)%Z ->
        fs_readdir historyDir (world s) = (Ok files, w1) ->
        (forall path w, fst (fs_unlink path w) = Ok tt) ->
        let newestFirst := rev (sort (filter Older.isHistoryCsv files)) in
        let kept := firstn (Z.to_nat keepCount) newestFirst in
        let deleted := skipn (Z.to_nat keepCount) newestFirst in
        (exists t,
            emitted s (snd (Older.pruneHistory env "fs" keepCount s)) t
            /\ unlinked t = map (join historyDir) deleted)
        /\ Permutation.Permutation (kept ++ deleted) (filter Older.isHistoryCsv files)
        /\ (forall k d, In k kept -> In d deleted -> le d k))
  /\ (forall keepCount contents w1 (s : St W),
        (0 < keepCount)%Z ->
        unset (S3_ENDPOINT env) = false ->
        unset (S3_BUCKET env) = false ->
        s3_send_list (orElse (S3_KEY_PREFIX_HISTORY env) "ingrosmart/history/")
                     (world s)
        = (Ok (Some contents), w1) ->
        (forall key w, fst (s3_send_delete key w) = Ok tt) ->
        let newestFirst := sortBy newerFirst (filter Older.isHistoryObject contents) in
        let kept := firstn (Z.to_nat keepCount) newestFirst in
        let deleted := skipn (Z.to_nat keepCount) newestFirst in
        (exists t,
            emitted s (snd (Older.pruneHistory env "s3" keepCount s)) t
            /\ deletedKeys t = map Key deleted)
        /\ Permutation.Permutation (kept ++ deleted)
             (filter Older.isHistoryObject contents)
        /\ (forall k d, In k kept -> In d deleted ->
            (LastModified d <= LastModified k)%Z))
  /\ (forall target keepCount (s : St W),
        (keepCount <= 0)%Z \/ target = "wp" ->
        Older.pruneHistory env target keepCount s = (Ok tt, s)).
Proof.
  split; [apply latest_deliver_written|].
  split.
  { intros minute. unfold slotFilename. split; intros Hm.
    - apply Z.ltb_lt in Hm. now rewrite Hm.
    - apply Z.ltb_ge in Hm. now rewrite Hm. }
  split; [reflexivity|].
  split; [apply older_deliver_written|].
  split; [apply stamped_name_not_slot|].
  split.
  { intros keepCount files w1 s Hpos Hdir Hunlink newestFirst kept deleted.
    split; [eapply older_prune_local; eauto|].
    split.
    - unfold kept, deleted. rewrite firstn_skipn. unfold newestFirst.
      rewrite <- Permutation.Permutation_rev. apply sortBy_perm.
    - intros k d. apply kept_are_newest. }
  split; [|intros; now apply older_prune_nothing].
  intros keepCount contents w1 s Hpos He Hb Hlist Hdelete newestFirst kept deleted.
  split; [eapply older_prune_s3; eauto|].
  split.
  - unfold kept, deleted. rewrite firstn_skipn. apply sortBy_perm.
  - intros k d. apply kept_are_most_recent.
Qed.

Lemma retention_policy_by_revision_witness :
  written (trace (snd (Latest.deliver env_fs (bytes_of "id,name") "20260101-124200"
                         (mkSt four_copies []))))
  = ["output/ingrosmart_catalog.csv"; "output/history/ingrosmart_backup_2.csv"]
  /\ unlinked (trace (snd (Older.pruneHistory env_fs "fs" 2 (mkSt four_copies []))))
     = ["output/history/ingrosmart-20260102-060000.csv";
        "output/history/ingrosmart-20260101-060000.csv"]
  /\ deletedKeys (trace (snd (Older.pruneHistory env_s3 "s3" 1 (mkSt four_copies []))))
     = ["ingrosmart/history/ingrosmart-20260102-060000.csv";
        "ingrosmart/history/ingrosmart-20260101-060000.csv"].
Proof.
  destruct (retention_policy_by_revision (W:=Disk) env_s3)
    as (_ & _ & _ & _ & _ & _ & Hs3 & _).
  destruct (retention_policy_by_revision (W:=Disk) env_fs)
    as (Hlatest & _ & _ & _ & _ & Holder & _).
  split.
  - destruct (Hlatest (bytes_of "id,name") "20260101-124200" (mkSt four_copies []))
      as (t & Ht & _ & Hboth).
    change (trace (snd (Latest.deliver env_fs (bytes_of "id,name") "20260101-124200"
                          (mkSt four_copies []))) = t) in Ht.
    rewrite Ht. apply Hboth. reflexivity.
  - destruct (Holder 2%Z (history four_copies) four_copies (mkSt four_copies []))
      as ((t & Ht & Hu) & _); [lia | reflexivity | reflexivity |].
    split.
    + change (trace (snd (Older.pruneHistory env_fs "fs" 2 (mkSt four_copies [])))
              = t) in Ht.
      rewrite Ht. exact Hu.
    + destruct (Hs3 1%Z (objects four_copies) four_copies (mkSt four_copies []))
        as ((t' & Ht' & Hu') & _);
        [lia | reflexivity | reflexivity | reflexivity | reflexivity |].
      change (trace (snd (Older.pruneHistory env_s3 "s3" 1 (mkSt four_copies [])))
              = t') in Ht'.
      rewrite Ht'. exact Hu'.
Defined.

(** C9, as stated, fails: with [keepCount = 0] the older [pruneHistory]
    keeps every history file instead of none. *)
Lemma older_prune_keep_zero_deletes_nothing :
  ~ prunes_all_but_newest env_fs "fs" 0 (mkSt four_copies []).
Proof.
  intros Hclaim.
  specialize (Hclaim (history four_copies) four_copies eq_refl).
  vm_compute in Hclaim. discriminate.
Qed.

End StorageClaims.

(* ===================================================================== *)
(** ** The logger *)
(* ===================================================================== *)

Module LoggerFacts.
Import JsString JsStringFacts.








Lemma currentLevel_named v threshold :
  same_ignoring_case v (Logger.name threshold) ->
  Logger.currentLevel (Some v) = Logger.Number (Logger.LOG_LEVELS threshold).
Proof.
  intros Hv. apply same_ignoring_case_lower in Hv.
  unfold Logger.currentLevel. rewrite Hv. now destruct threshold.
Qed.

Lemma currentLevel_default LOG_LEVEL :
  LOG_LEVEL = None
  \/ (exists v, LOG_LEVEL = Some v
                /\ Logger.member (toLowerCase v) = Logger.Undefined) ->
  Logger.currentLevel LOG_LEVEL = Logger.Number (Logger.LOG_LEVELS Logger.info).
Proof.
  unfold Logger.currentLevel. intros [->|(v & -> & ->)]; reflexivity.
Qed.

Lemma currentLevel_inherited v :
  same_ignoring_case v "constructor" \/ same_ignoring_case v "__proto__" ->
  Logger.currentLevel (Some v) = Logger.Inherited.
Proof.
  unfold Logger.currentLevel.
  intros [Hv|Hv]; apply same_ignoring_case_lower in Hv; now rewrite Hv.
Qed.

(** X1 -- Which messages the logger prints.  When [LOG_LEVEL] spells the name
    of a level, in any mix of upper and lower case, a message is printed
    exactly when its level is at or above that threshold; when [LOG_LEVEL] is
    unset, or is no member of [LOG_LEVELS] once in lower case, the threshold
    is [info]: everything but [debug] is printed; when [LOG_LEVEL] spells
    [constructor] or [__proto__], which every object has, the threshold is
    not a number and nothing at all is printed, errors included.  What is
    printed goes to the [console] method of the level and is the line of
    [formatMessage]. *)
Theorem logger_threshold (LOG_LEVEL : option string) (timestamp : string)
    (level : Logger.Level) (message : string) (args : list Logger.Arg) :
  let printed := Logger.logger LOG_LEVEL timestamp level message args in
  (forall threshold v,
      LOG_LEVEL = Some v -> same_ignoring_case v (Logger.name threshold) ->
      (printed <> None <-> (Logger.LOG_LEVELS threshold <= Logger.LOG_LEVELS level)%Z))
  /\ (LOG_LEVEL = None
      \/ (exists v, LOG_LEVEL = Some v
                    /\ Logger.member (toLowerCase v) = Logger.Undefined) ->
      (printed <> None <-> level <> Logger.debug))
  /\ (forall v,
        LOG_LEVEL = Some v ->
        same_ignoring_case v "constructor" \/ same_ignoring_case v "__proto__" ->
        printed = None)
  /\ (forall out,
        printed = Some out ->
        out = (Logger.console level,
               Logger.formatMessage (Logger.currentLevel LOG_LEVEL)
                 timestamp level message args)).
Proof.
  intros printed. unfold printed, Logger.logger.
  split; [|split; [|split]].
  - intros threshold v -> Hv. rewrite (currentLevel_named _ _ Hv).
    unfold Logger.atMost.
    destruct (Z.leb_spec (Logger.LOG_LEVELS threshold) (Logger.LOG_LEVELS level));
      split; intros; try discriminate; try lia; congruence.
  - intros Hd. rewrite (currentLevel_default _ Hd).
    destruct level; simpl; split; intros; congruence.
  - intros v -> Hv. now rewrite (currentLevel_inherited _ Hv).
  - intros out. destruct (Logger.atMost _ _); [|discriminate].
    intros Hout. now inversion Hout.
Qed.

Lemma logger_threshold_witness :
  Logger.logger (Some "WARN") "2026-01-01T06:00:00.000Z" Logger.info
    "Login successful" [] = None
  /\ Logger.logger (Some "Warn") "2026-01-01T06:00:00.000Z" Logger.error
       "Agent failed:" [Logger.ErrorArg "HTTP 503 received" "Error: HTTP 503 received"]
     = Some (Logger.console_error,
             "[2026-01-01T06:00:00.000Z] [ERROR] Agent failed: HTTP 503 received")
  /\ Logger.logger (Some "verbose") "2026-01-01T06:00:00.000Z" Logger.debug
       "Cookie consent accepted" [] = None
  /\ Logger.logger (Some "Constructor") "2026-01-01T06:00:00.000Z" Logger.error
       "Agent failed:" [] = None.
Proof.
  assert (Hwarn : same_ignoring_case "WARN" (Logger.name Logger.warn))
    by (repeat (constructor; [reflexivity|]); constructor).
  assert (HWarn : same_ignoring_case "Warn" (Logger.name Logger.warn))
    by (repeat (constructor; [reflexivity|]); constructor).
  assert (Hcons : same_ignoring_case "Constructor" "constructor")
    by (repeat (constructor; [reflexivity|]); constructor).
  split; [|split; [|split]].
  - destruct (logger_threshold (Some "WARN") "2026-01-01T06:00:00.000Z" Logger.info
                "Login successful" []) as (H1 & _).
    destruct (Logger.logger (Some "WARN") _ Logger.info _ _) eqn:E; [|reflexivity].
    exfalso. specialize (H1 Logger.warn "WARN" eq_refl Hwarn).
    assert (Hn : Some p <> None) by discriminate.
    apply H1 in Hn. simpl in Hn. lia.
  - destruct (logger_threshold (Some "Warn") "2026-01-01T06:00:00.000Z" Logger.error
                "Agent failed:"
                [Logger.ErrorArg "HTTP 503 received" "Error: HTTP 503 received"])
      as (H1 & _ & _ & H4).
    destruct (Logger.logger (Some "Warn") _ Logger.error _ _) eqn:E.
    + now rewrite (H4 p eq_refl).
    + exfalso. specialize (H1 Logger.warn "Warn" eq_refl HWarn).
      apply H1; [simpl; lia | reflexivity].
  - destruct (logger_threshold (Some "verbose") "2026-01-01T06:00:00.000Z" Logger.debug
                "Cookie consent accepted" []) as (_ & H2 & _).
    destruct (Logger.logger (Some "verbose") _ Logger.debug _ _) eqn:E; [|reflexivity].
    exfalso.
    destruct (H2 (or_intror (ex_intro _ "verbose" (conj eq_refl eq_refl)))) as [Hto _].
    apply Hto; [discriminate | reflexivity].
  - destruct (logger_threshold (Some "Constructor") "2026-01-01T06:00:00.000Z"
                Logger.error "Agent failed:" []) as (_ & _ & H3 & _).
    exact (H3 "Constructor" eq_refl (or_introl Hcons)).
Defined.



(** X3 -- Debug logging and error screenshots are switched on by the same
    variable, read in two ways.  Every spelling of [debug], in any mix of
    upper and lower case, makes the logger print at every level; the
    screenshots on error are taken for the spelling in lower case only. *)
Theorem debug_logging_and_screenshots (v : string) :
  same_ignoring_case v "debug" ->
  (forall timestamp level message args,
      Logger.logger (Some v) timestamp level message args <> None)
  /\ (Startup.screenshotOnError (Some v) = true <-> v = "debug").
Proof.
  intros Hv. split.
  - intros timestamp level message args. unfold Logger.logger.
    rewrite (currentLevel_named v Logger.debug Hv). now destruct level.
  - unfold Startup.screenshotOnError. apply String.eqb_eq.
Qed.

Lemma debug_logging_and_screenshots_witness :
  Logger.logger (Some "DEBUG") "2026-01-01T06:00:00.000Z" Logger.debug
    "Response status: 200" [] <> None
  /\ Startup.screenshotOnError (Some "DEBUG") = false.
Proof.
  assert (Hv : same_ignoring_case "DEBUG" "debug")
    by (repeat (constructor; [reflexivity|]); constructor).
  destruct (debug_logging_and_screenshots "DEBUG" Hv) as [Hlog Hshot].
  split; [apply Hlog|].
  destruct (Startup.screenshotOnError (Some "DEBUG")) eqn:E; [|reflexivity].
  destruct Hshot as [Hshot _]. specialize (Hshot eq_refl). discriminate.
Defined.

End LoggerFacts.

(* ===================================================================== *)
(** ** Timestamps *)
(* ===================================================================== *)

Module TimestampFacts.
Import JsString JsStringFacts Effects Retry Calendar.

Lemma below_cases (n : Z) (bound : nat) :
  (0 <= n < Z.of_nat bound)%Z -> In n (map Z.of_nat (seq 0 bound)).
Proof.
  intros Hn. apply in_map_iff. exists (Z.to_nat n). split; [lia|].
  apply in_seq. lia.
Qed.

(** Numbers below 100 are printed on two digits. *)
Lemma padStart2_two n :
  (0 <= n <= 99)%Z -> padStart2 (string_of_Z n) = two n.
Proof.
  intros Hn.
  assert (Hall : forallb (fun k => String.eqb (padStart2 (string_of_Z k)) (two k))
                   (map Z.of_nat (seq 0 100)) = true) by (vm_compute; reflexivity).
  rewrite forallb_forall in Hall. apply String.eqb_eq, Hall, below_cases. lia.
Qed.

(** Years of four digits are printed as they are. *)
Lemma year_four y :
  (1000 <= y <= 9999)%Z -> string_of_Z y = (two (y / 100) ++ two (y mod 100))%string.
Proof.
  intros Hy.
  assert (Hall : forallb (fun k => String.eqb (string_of_Z k)
                                     (two (k / 100) ++ two (k mod 100)))
                   (map Z.of_nat (seq 1000 (90 * 100))) = true) by (vm_compute; reflexivity).
  rewrite forallb_forall in Hall. apply String.eqb_eq, Hall.
  apply in_map_iff. exists (Z.to_nat y). split; [lia|]. apply in_seq. lia.
Qed.

(** The timestamp of a valid date, digit by digit. *)
Lemma generateTimestamp_digits d :
  validDate d ->
  generateTimestamp d
  = (two (getFullYear d / 100) ++ two (getFullYear d mod 100)
     ++ two (getMonth d + 1) ++ two (getDate d) ++ "-"
     ++ two (getHours d) ++ two (getMinutes d) ++ two (getSeconds d))%string.
Proof.
  intros (Hy & Hmo & Hd & Hh & Hmi & Hs). unfold generateTimestamp.
  rewrite (year_four _ Hy), !padStart2_two by lia.
  now rewrite !append_assoc.
Qed.

Lemma is_digit_digit n : (0 <= n <= 9)%Z -> is_digit (digit n) = true.
Proof.
  intros Hn.
  assert (Hall : forallb (fun k => is_digit (digit k)) (map Z.of_nat (seq 0 10)) = true)
    by reflexivity.
  rewrite forallb_forall in Hall. apply Hall, below_cases. lia.
Qed.



Lemma two_bounds n :
  (0 <= n <= 99)%Z -> (0 <= n / 10 <= 9)%Z /\ (0 <= n mod 10 <= 9)%Z.
Proof.
  intros Hn. pose proof (Z.mod_pos_bound n 10 ltac:(lia)).
  assert (0 <= n / 10)%Z by (apply Z.div_pos; lia).
  assert (n / 10 < 10)%Z by (apply Z.div_lt_upper_bound; lia).
  lia.
Qed.

Lemma year_bounds y :
  (1000 <= y <= 9999)%Z -> (0 <= y / 100 <= 99)%Z /\ (0 <= y mod 100 <= 99)%Z.
Proof.
  intros Hy. pose proof (Z.mod_pos_bound y 100 ltac:(lia)).
  assert (0 <= y / 100)%Z by (apply Z.div_pos; lia).
  assert (y / 100 < 100)%Z by (apply Z.div_lt_upper_bound; lia).
  lia.
Qed.

Lemma all_digits_two n r :
  (0 <= n <= 99)%Z -> all_digits (two n ++ r) = all_digits r.
Proof.
  intros Hn. destruct (two_bounds n Hn) as [H1 H2]. unfold two.
  change (is_digit (digit (n / 10)) && (is_digit (digit (n mod 10)) && all_digits r)
          = all_digits r).
  now rewrite !is_digit_digit by assumption.
Qed.

Lemma stamped_two a b c d e f g :
  stamped (two a ++ two b ++ two c ++ two d ++ "-" ++ two e ++ two f ++ two g)
  = all_digits (two a ++ two b ++ two c ++ two d ++ two e ++ two f ++ two g).
Proof.
  unfold two.
  repeat match goal with
         | |- context [digit ?x] => generalize (digit x); intro
         end.
  unfold stamped. simpl.
  repeat rewrite <- andb_assoc. simpl. now rewrite !andb_true_r.
Qed.

Lemma generateTimestamp_stamped d :
  validDate d -> stamped (generateTimestamp d) = true.
Proof.
  intros Hd. rewrite (generateTimestamp_digits d Hd), stamped_two.
  destruct Hd as (Hy & Hmo & Hd & Hh & Hmi & Hs).
  destruct (year_bounds _ Hy).
  change (two (getSeconds d)) with (two (getSeconds d) ++ EmptyString)%string.
  rewrite !all_digits_two by lia. reflexivity.
Qed.

(** X4 -- The timestamp of a date in a year of four digits has the format
    YYYYMMDD-HHMMSS: fifteen characters, eight digits, a dash and six digits,
    the month counted from 01 and every field padded with zeros. *)
Theorem generateTimestamp_format (d : Date) :
  validDate d ->
  stamped (generateTimestamp d) = true
  /\ generateTimestamp d
     = (two (getFullYear d / 100) ++ two (getFullYear d mod 100)
        ++ two (getMonth d + 1) ++ two (getDate d) ++ "-"
        ++ two (getHours d) ++ two (getMinutes d) ++ two (getSeconds d))%string.
Proof.
  intros Hd. split;
    [now apply generateTimestamp_stamped | now apply generateTimestamp_digits].
Qed.

Lemma generateTimestamp_format_witness :
  generateTimestamp (Build_Date 2026 0 5 6 7 9) = "20260105-060709"
  /\ stamped (generateTimestamp (Build_Date 2026 0 5 6 7 9)) = true.
Proof.
  split; [reflexivity|].
  apply (generateTimestamp_format (Build_Date 2026 0 5 6 7 9)).
  unfold validDate. simpl. lia.
Defined.

(** Comparing strings one character at a time. *)
Lemma compare_cons c1 s1 c2 s2 :
  String.compare (String c1 s1) (String c2 s2)
  = thenBy (Ascii.compare c1 c2) (String.compare s1 s2).
Proof. simpl. now destruct (Ascii.compare c1 c2). Qed.

Lemma compare_digit i j :
  (0 <= i <= 9)%Z -> (0 <= j <= 9)%Z ->
  Ascii.compare (digit i) (digit j) = (i ?= j)%Z.
Proof.
  intros Hi Hj.
  assert (Hall : forallb (fun a => forallb (fun b =>
                     match Ascii.compare (digit a) (digit b), (a ?= b)%Z with
                     | Eq, Eq | Lt, Lt | Gt, Gt => true
                     | _, _ => false
                     end) (map Z.of_nat (seq 0 10))) (map Z.of_nat (seq 0 10)) = true)
    by reflexivity.
  rewrite forallb_forall in Hall.
  specialize (Hall i (below_cases i 10 ltac:(lia))).
  rewrite forallb_forall in Hall.
  specialize (Hall j (below_cases j 10 ltac:(lia))).
  destruct (Ascii.compare (digit i) (digit j)), (i ?= j)%Z;
    first [reflexivity | discriminate].
Qed.

Lemma thenBy_assoc a b c : thenBy (thenBy a b) c = thenBy a (thenBy b c).
Proof. now destruct a. Qed.

Lemma thenBy_Eq_r a : thenBy a Eq = a.
Proof. now destruct a. Qed.

(** Comparing two numbers by quotient, then by remainder. *)
Lemma thenBy_radix q1 r1 q2 r2 B :
  (0 <= r1 < B)%Z -> (0 <= r2 < B)%Z ->
  thenBy (q1 ?= q2)%Z (r1 ?= r2)%Z = (q1 * B + r1 ?= q2 * B + r2)%Z.
Proof.
  intros H1 H2. unfold thenBy.
  destruct (Z.compare_spec q1 q2) as [->|Hq|Hq].
  - symmetry. apply Z.add_compare_mono_l.
  - symmetry. apply Z.compare_lt_iff. nia.
  - symmetry. apply Z.compare_gt_iff. nia.
Qed.

Lemma compare_by_parts n m B :
  (0 < B)%Z ->
  thenBy (n / B ?= m / B)%Z (n mod B ?= m mod B)%Z = (n ?= m)%Z.
Proof.
  intros HB.
  rewrite (thenBy_radix _ _ _ _ B) by (apply Z.mod_pos_bound; lia).
  rewrite (Z.div_mod n B) at 3 by lia. rewrite (Z.div_mod m B) at 3 by lia.
  now rewrite !(Z.mul_comm B).
Qed.

Lemma compare_two a b r1 r2 :
  (0 <= a <= 99)%Z -> (0 <= b <= 99)%Z ->
  String.compare (two a ++ r1) (two b ++ r2)
  = thenBy (a ?= b)%Z (String.compare r1 r2).
Proof.
  intros Ha Hb. destruct (two_bounds a Ha), (two_bounds b Hb).
  unfold two.
  change (String.compare (String (digit (a / 10)) (String (digit (a mod 10)) r1))
            (String (digit (b / 10)) (String (digit (b mod 10)) r2))
          = thenBy (a ?= b)%Z (String.compare r1 r2)).
  rewrite !compare_cons, !compare_digit by assumption.
  rewrite <- thenBy_assoc. now rewrite compare_by_parts.
Qed.

Lemma generateTimestamp_compare a b :
  validDate a -> validDate b ->
  String.compare (generateTimestamp a) (generateTimestamp b) = compareDate a b.
Proof.
  intros Ha Hb.
  rewrite (generateTimestamp_digits a Ha), (generateTimestamp_digits b Hb).
  destruct Ha as (Hya & Hmoa & Hda & Hha & Hmia & Hsa).
  destruct Hb as (Hyb & Hmob & Hdb & Hhb & Hmib & Hsb).
  destruct (year_bounds _ Hya), (year_bounds _ Hyb).
  rewrite !compare_two by lia.
  change ("-" ++ ?x)%string with (String "-" x).
  rewrite compare_cons. change (Ascii.compare "-" "-") with Eq.
  change (thenBy Eq ?c) with c.
  rewrite !compare_two by lia.
  change (two (getSeconds a)) with (two (getSeconds a) ++ EmptyString)%string.
  change (two (getSeconds b)) with (two (getSeconds b) ++ EmptyString)%string.
  rewrite compare_two by lia. simpl (String.compare EmptyString EmptyString).
  rewrite thenBy_Eq_r, <- thenBy_assoc.
  rewrite (compare_by_parts (getFullYear a) (getFullYear b) 100) by lia.
  unfold compareDate.
  rewrite (Z.add_comm (getMonth a) 1), (Z.add_comm (getMonth b) 1).
  now rewrite Z.add_compare_mono_l.
Qed.

(** X5 -- Timestamps sort as time goes: for two dates in years of four
    digits, comparing the timestamps as strings, character by character,
    gives the same answer as comparing the dates field by field.  So later
    runs get greater names, and two runs get the same timestamp only within
    the same second. *)
Theorem generateTimestamp_chronological (a b : Date) :
  validDate a -> validDate b ->
  String.compare (generateTimestamp a) (generateTimestamp b) = compareDate a b
  /\ (String.leb (generateTimestamp a) (generateTimestamp b) = true
      <-> compareDate a b <> Gt)
  /\ (generateTimestamp a = generateTimestamp b <-> compareDate a b = Eq).
Proof.
  intros Ha Hb.
  pose proof (generateTimestamp_compare a b Ha Hb) as Hcmp.
  split; [exact Hcmp|]. split.
  - unfold String.leb. rewrite Hcmp. destruct (compareDate a b); split; congruence.
  - rewrite <- Hcmp. split.
    + intros ->.
      pose proof (String.compare_antisym (generateTimestamp b) (generateTimestamp b))
        as Hsym.
      destruct (String.compare (generateTimestamp b) (generateTimestamp b));
        simpl in Hsym; congruence.
    + apply String.compare_eq_iff.
Qed.

Lemma generateTimestamp_chronological_witness :
  String.compare (generateTimestamp (Build_Date 2026 8 30 23 59 59))
                 (generateTimestamp (Build_Date 2026 9 1 0 0 0)) = Lt.
Proof.
  apply (generateTimestamp_chronological (Build_Date 2026 8 30 23 59 59)
           (Build_Date 2026 9 1 0 0 0));
    unfold validDate; simpl; lia.
Defined.

End TimestampFacts.

(* ===================================================================== *)
(** ** More on the content classifier *)
(* ===================================================================== *)

Module SampleFacts.
Import JsString JsStringFacts Utils Effects Retry Agent EffectFacts ClassifierFacts
  FlowFacts Fake.

Lemma sample_window b b' :
  firstn 2048 b = firstn 2048 b' -> sample b = sample b'.
Proof. intros Hw. rewrite !sample_rawSample. unfold rawSample. now rewrite Hw. Qed.

(** X6 -- [ensureCsv] reads the first 2048 bytes and the length, nothing
    else: two buffers with the same first 2048 bytes, of the same length or
    both longer than 100 bytes, are classified alike under every content
    type.  So whatever follows the first 2048 bytes, HTML included, changes
    nothing. *)
Theorem ensureCsv_reads_2048 (b b' : Buffer) (contentType : string) :
  firstn 2048 b = firstn 2048 b' ->
  (List.length b = List.length b'
   \/ (100 < List.length b /\ 100 < List.length b'))%nat ->
  ensureCsv b contentType = ensureCsv b' contentType.
Proof.
  intros Hw Hlen. unfold ensureCsv. rewrite (sample_window b b' Hw).
  destruct Hlen as [->|[H1 H2]]; [reflexivity|].
  replace (100 <? List.length b)%nat with true by (symmetry; apply Nat.ltb_lt; lia).
  replace (100 <? List.length b')%nat with true by (symmetry; apply Nat.ltb_lt; lia).
  replace (List.length b <? 100)%nat with false by (symmetry; apply Nat.ltb_ge; lia).
  replace (List.length b' <? 100)%nat with false by (symmetry; apply Nat.ltb_ge; lia).
  reflexivity.
Qed.

Lemma ensureCsv_reads_2048_witness :
  ensureCsv (repeat "a"%byte 2047 ++ bytes_of ",<html><body>Login</body></html>")
            "text/csv"
  = ensureCsv (repeat "a"%byte 2047 ++ bytes_of ",") "text/csv".
Proof.
  apply ensureCsv_reads_2048.
  - vm_compute. reflexivity.
  - right. rewrite !length_app, repeat_length. simpl. lia.
Defined.

Lemma ensureCsv_empty contentType :
  ensureCsv [] contentType = negb (htmlContentType contentType).
Proof.
  unfold ensureCsv, htmlContentType.
  destruct (_ || _); [reflexivity|].
  change (sample []) with EmptyString. simpl.
  repeat match goal with
         | |- context [if ?c then _ else _] => destruct c
         end; reflexivity.
Qed.




Section Download.
Context {W : Type} `{Browser W}.
Variable config : Config.

(** X7 -- An empty body passes for CSV.  When the export endpoint answers
    with status 200 and a body of no bytes, [downloadCsv] returns that empty
    buffer, with [bytes] 0, unless the declared content type is an HTML one,
    in which case it throws. *)
Theorem downloadCsv_empty_body (s : St W) (response : Response) (w1 w2 : W) :
  page_request_get (exportUrl config) (world s) = (Ok response, w1) ->
  response_body response w1 = (Ok [], w2) ->
  status response = 200%Z ->
  (htmlContentType (declaredType response) = false ->
   fst (downloadCsv config s)
   = Ok {| buffer := []; contentType := declaredType response; bytes := 0 |})
  /\ (htmlContentType (declaredType response) = true ->
      exists e, fst (downloadCsv config s) = Throw e).
Proof.
  intros Hget Hbody Hst. split; intros Hct.
  - unfold downloadCsv, checkResponse, requestGet, body.
    rewrite tryCatch_run, bind_run, perform_run, Hget. simpl.
    rewrite bind_run, perform_run. simpl. rewrite Hbody. simpl.
    fold (declaredType response).
    rewrite Hst, ensureCsv_empty, Hct. reflexivity.
  - destruct (downloadCsv config s) as [[d|e] s'] eqn:Hrun; [|now exists e].
    exfalso.
    pose proof (downloadCsv_ok config s d) as Hok. rewrite Hrun in Hok.
    destruct (Hok eq_refl) as (Hcsv & _).
    revert Hrun. unfold downloadCsv, checkResponse, requestGet, body.
    rewrite tryCatch_run, bind_run, perform_run, Hget. simpl.
    rewrite bind_run, perform_run. simpl. rewrite Hbody. simpl.
    fold (declaredType response).
    rewrite Hst, ensureCsv_empty, Hct. simpl.
    unfold throw at 1. rewrite bind_run.
    destruct (screenshotIfEnabled _ _ _) as [[[]|e] s1]; discriminate.
Qed.

End Download.

Lemma downloadCsv_empty_body_witness :
  fst (downloadCsv Fake.config (mkSt Worlds.empty_export []))
  = Ok {| buffer := []; contentType := "text/csv"; bytes := 0 |}.
Proof.
  refine (proj1 (downloadCsv_empty_body Fake.config (mkSt Worlds.empty_export [])
                   {| status := 200; contentTypeHeader := Some "text/csv" |}
                   (snd (Fake.answer Worlds.empty_export))
                   (snd (Fake.answer Worlds.empty_export)) _ _ _) _);
    reflexivity.
Defined.

End SampleFacts.

(* ===================================================================== *)
(** ** The delays of the retry engine *)
(* ===================================================================== *)

Module DelayFacts.
Import Effects Retry RetryFacts Tracing Fake.

Section Delays.
Variable options : RetryOptions.

Lemma backoff_capped k : (backoff options k <= maxDelayMs options)%Z.
Proof. unfold backoff. lia. Qed.

Lemma backoff_mono j k :
  (0 <= baseDelayMs options)%Z -> (1 <= j <= k)%nat ->
  (backoff options j <= backoff options k)%Z.
Proof.
  intros Hb Hjk. unfold backoff.
  assert (2 ^ (Z.of_nat j - 1) <= 2 ^ (Z.of_nat k - 1))%Z
    by (apply Z.pow_le_mono_r; lia).
  apply Z.min_le_compat_r. nia.
Qed.

Lemma backoff_floor k :
  (0 <= baseDelayMs options)%Z -> (1 <= k)%nat ->
  (Z.min (baseDelayMs options) (maxDelayMs options) <= backoff options k)%Z.
Proof.
  intros Hb Hk. unfold backoff.
  assert (1 <= 2 ^ (Z.of_nat k - 1))%Z
    by (change 1%Z with (2 ^ 0)%Z at 1; apply Z.pow_le_mono_r; lia).
  apply Z.min_le_compat_r. nia.
Qed.

Lemma backoffs_sorted len : forall k,
  (0 <= baseDelayMs options)%Z -> (1 <= k)%nat ->
  Sorted.StronglySorted Z.le (map (backoff options) (seq k len)).
Proof.
  induction len as [|len IH]; intros k Hb Hk; simpl; constructor.
  - apply IH; [exact Hb | lia].
  - apply Forall_forall. intros x Hx. apply in_map_iff in Hx.
    destruct Hx as (j & <- & Hj). apply in_seq in Hj.
    apply backoff_mono; [exact Hb | lia].
Qed.

Lemma total_capped (l : list Z) (cap : Z) :
  (0 <= cap)%Z -> Forall (fun ms => (ms <= cap)%Z) l ->
  (fold_right Z.add 0 l <= Z.of_nat (List.length l) * cap)%Z.
Proof.
  intros Hc. induction 1 as [|x l Hx _ IH]; simpl fold_right; simpl List.length; [lia|].
  rewrite Nat2Z.inj_succ. lia.
Qed.

End Delays.

(** X8 -- The waiting of [withRetry], under any policy and around any
    operation.  It sleeps at most [retries] times and never longer than
    [maxDelayMs] at a time, so never longer than [retries * maxDelayMs] in
    all when [maxDelayMs] is not negative; and when [baseDelayMs] is not
    negative each delay is at least the smaller of [baseDelayMs] and
    [maxDelayMs] and no delay is shorter than the one before it. *)
Theorem withRetry_delays
    {W : Type} `{Clock W} {A : Type}
    (operation : W -> result exn A * W) (options : RetryOptions) (w : W) :
  let t := trace (snd (withRetry (observed operation) options (mkSt w []))) in
  (List.length (sleeps t) <= retries options)%nat
  /\ Forall (fun ms => (ms <= maxDelayMs options)%Z) (sleeps t)
  /\ ((0 <= maxDelayMs options)%Z ->
      (waited t <= Z.of_nat (retries options) * maxDelayMs options)%Z)
  /\ ((0 <= baseDelayMs options)%Z ->
      Forall (fun ms => (Z.min (baseDelayMs options) (maxDelayMs options) <= ms)%Z)
        (sleeps t)
      /\ Sorted.StronglySorted Z.le (sleeps t)).
Proof.
  intros t.
  destruct (withRetry_loop_shape operation options (retries options) 1 None
              (mkSt w [])) as (t' & Ht & Hrun); [lia|].
  unfold emitted in Ht.
  assert (Hfold : withRetry_loop (observed operation) options
                    (S (retries options)) 1 None (mkSt w [])
                  = withRetry (observed operation) options (mkSt w [])).
  { unfold withRetry. now rewrite Nat.add_1_r. }
  rewrite Hfold in Ht, Hrun. fold t in Ht. simpl in Ht. subst t'.
  pose proof (retry_run_count _ _ _ _ Hrun) as Hcount.
  pose proof (retry_run_sleeps _ _ _ _ Hrun) as Hsleeps.
  assert (Hlen : (List.length (sleeps t) <= retries options)%nat)
    by (rewrite Hsleeps, length_map, length_seq; lia).
  assert (Hcap : Forall (fun ms => (ms <= maxDelayMs options)%Z) (sleeps t)).
  { rewrite Hsleeps. apply Forall_forall. intros x Hx. apply in_map_iff in Hx.
    destruct Hx as (k & <- & _). apply backoff_capped. }
  split; [exact Hlen|]. split; [exact Hcap|]. split.
  - intros Hmax. unfold waited.
    pose proof (total_capped _ _ Hmax Hcap). nia.
  - intros Hbase. split.
    + rewrite Hsleeps. apply Forall_forall. intros x Hx. apply in_map_iff in Hx.
      destruct Hx as (k & <- & Hk). apply in_seq in Hk.
      apply backoff_floor; [exact Hbase | lia].
    + rewrite Hsleeps. apply backoffs_sorted; [exact Hbase | lia].
Qed.

Lemma withRetry_delays_witness :
  let t := trace (snd (withRetry (observed Fake.always_fails)
                         {| retries := 6; baseDelayMs := 1500; maxDelayMs := 30000;
                            taskName := "Task" |} (mkSt 0%nat []))) in
  sleeps t = [1500; 3000; 6000; 12000; 24000; 30000]%Z
  /\ (waited t <= 6 * 30000)%Z.
Proof.
  split; [reflexivity|].
  destruct (withRetry_delays Fake.always_fails
              {| retries := 6; baseDelayMs := 1500; maxDelayMs := 30000;
                 taskName := "Task" |} 0%nat) as (_ & _ & Htotal & _).
  apply Htotal. simpl. lia.
Defined.

End DelayFacts.

(* ===================================================================== *)
(** ** What a login touches *)
(* ===================================================================== *)

Module ConductFacts.
Import JsString Utils Effects Retry Agent EffectFacts Tracing Fake.

Section Rules.
Context {W : Type}.
Variable P : event -> Prop.

Lemma confined_ret {E A} (a : A) : confined P (ret a : M W E A).
Proof. intros s. exists []. split; [apply emitted_refl | constructor]. Qed.

Lemma confined_throw {E A} (e : E) : confined P (throw e : M W E A).
Proof. intros s. exists []. split; [apply emitted_refl | constructor]. Qed.

Lemma confined_read {E A} (f : St W -> A) :
  confined P ((fun s => (Ok (f s), s)) : M W E A).
Proof. intros s. exists []. split; [apply emitted_refl | constructor]. Qed.

Lemma confined_bind {E A B} (m : M W E A) (k : A -> M W E B) :
  confined P m -> (forall a, confined P (k a)) -> confined P (bind m k).
Proof.
  intros Hm Hk s. rewrite bind_run.
  destruct (Hm s) as (t1 & Ht1 & Hp1).
  destruct (m s) as [[a|e] s1]; simpl in *.
  - destruct (Hk a s1) as (t2 & Ht2 & Hp2). exists (t1 ++ t2).
    split; [eapply emitted_trans; eauto | now apply Forall_app].
  - now exists t1.
Qed.

Lemma confined_tryCatch {E E' A} (m : M W E A) (h : E -> M W E' A) :
  confined P m -> (forall e, confined P (h e)) -> confined P (tryCatch m h).
Proof.
  intros Hm Hh s. rewrite tryCatch_run.
  destruct (Hm s) as (t1 & Ht1 & Hp1).
  destruct (m s) as [[a|e] s1]; simpl in *.
  - now exists t1.
  - destruct (Hh e s1) as (t2 & Ht2 & Hp2). exists (t1 ++ t2).
    split; [eapply emitted_trans; eauto | now apply Forall_app].
Qed.

Lemma confined_perform {E A} (h : W -> result E A * W) log :
  (forall r, P (log r)) -> confined P (perform h log).
Proof.
  intros Hlog s. rewrite perform_run. eexists. split; [reflexivity|].
  constructor; [apply Hlog | constructor].
Qed.

Lemma confined_sleep `{Clock W} {E} ms :
  P (EvSleep ms) -> confined P (sleep ms : M W E unit).
Proof.
  intros Hp s. eexists. split; [reflexivity|]. constructor; [exact Hp | constructor].
Qed.

End Rules.

Lemma confined_weaken {W E A} (P Q : event -> Prop) (m : M W E A) :
  (forall e, P e -> Q e) -> confined P m -> confined Q m.
Proof.
  intros Hpq Hm s. destruct (Hm s) as (t & Ht & Hp). exists t. split; [exact Ht|].
  eapply Forall_impl; eauto.
Qed.

Section Login.
Context {W : Type} `{Clock W} `{Browser W}.
Variable config : Config.
Variable selectors : Selectors.

Lemma looking_more selector rest e : looking rest e -> looking (selector :: rest) e.
Proof. destruct e; simpl; auto. Qed.

Lemma confined_clickFirst selectorList options :
  confined (clicking selectorList options) (clickFirst (W:=W) selectorList options).
Proof.
  induction selectorList as [|selector rest IH]; simpl; [apply confined_ret|].
  apply confined_bind.
  - unfold clickFirst_try, locator, isVisible, click.
    repeat first
      [ apply confined_ret
      | apply confined_perform; intros; simpl; auto
      | apply confined_bind; [|intros]
      | apply confined_tryCatch; [|intros]
      | match goal with |- confined _ (if ?c then _ else _) => destruct c end ].
  - intros [|]; [apply confined_ret|].
    eapply confined_weaken; [|exact IH].
    intros e. destruct e; simpl; tauto.
Qed.

Lemma confined_fillFirst selectorList value :
  confined (filling selectorList value) (fillFirst (W:=W) selectorList value).
Proof.
  induction selectorList as [|selector rest IH]; simpl; [apply confined_ret|].
  apply confined_bind.
  - unfold fillFirst_try, locator, isVisible, fill.
    repeat first
      [ apply confined_ret
      | apply confined_perform; intros; simpl; auto
      | apply confined_bind; [|intros]
      | apply confined_tryCatch; [|intros]
      | match goal with |- confined _ (if ?c then _ else _) => destruct c end ].
  - intros [|]; [apply confined_ret|].
    eapply confined_weaken; [|exact IH].
    intros e. destruct e; simpl; tauto.
Qed.

Lemma confined_indicatorVisible indicators :
  confined (looking indicators) (indicatorVisible (W:=W) indicators).
Proof.
  induction indicators as [|indicator rest IH]; simpl; [apply confined_ret|].
  apply confined_bind.
  - unfold locator, isVisible.
    repeat first
      [ apply confined_ret
      | apply confined_perform; intros; simpl; auto
      | apply confined_bind; [|intros]
      | apply confined_tryCatch; [|intros] ].
  - intros [|]; [apply confined_ret|].
    eapply confined_weaken; [|exact IH]. apply looking_more.
Qed.

(** What each pass of a login may do is something a login may do. *)
Lemma login_event_cookie e :
  clicking (cookieAccept selectors) [] e -> login_event config selectors e.
Proof. destruct e; simpl; rewrite ?in_app_iff; tauto. Qed.

Lemma login_event_submit e :
  clicking (submit selectors) [] e -> login_event config selectors e.
Proof. destruct e; simpl; rewrite ?in_app_iff; tauto. Qed.

Lemma login_event_email e :
  filling (emailSelectors selectors) (username config) e ->
  login_event config selectors e.
Proof. destruct e; simpl; rewrite ?in_app_iff; tauto. Qed.

Lemma login_event_password e :
  filling (passwordSelectors selectors) (password config) e ->
  login_event config selectors e.
Proof. destruct e; simpl; rewrite ?in_app_iff; tauto. Qed.

Lemma login_event_indicator e :
  looking (accountIndicators selectors) e -> login_event config selectors e.
Proof. destruct e; simpl; rewrite ?in_app_iff; tauto. Qed.

Lemma confined_enterCredentials :
  confined (login_event config selectors) (enterCredentials (W:=W) config selectors).
Proof.
  unfold enterCredentials, press, waitForLoadState.
  apply confined_bind.
  { eapply confined_weaken; [apply login_event_cookie | apply confined_clickFirst]. }
  intros c. apply confined_bind.
  { destruct c; [apply confined_sleep; reflexivity | apply confined_ret]. }
  intros _. apply confined_bind.
  { eapply confined_weaken; [apply login_event_email | apply confined_fillFirst]. }
  intros f1. destruct (negb f1); [apply confined_throw|].
  apply confined_bind.
  { eapply confined_weaken; [apply login_event_password | apply confined_fillFirst]. }
  intros f2. destruct (negb f2); [apply confined_throw|].
  apply confined_bind.
  { eapply confined_weaken; [apply login_event_submit | apply confined_clickFirst]. }
  intros c2. apply confined_bind.
  { destruct (negb c2);
      [apply confined_perform; intros; reflexivity | apply confined_ret]. }
  intros _. apply confined_perform. intros; exact I.
Qed.

Lemma confined_login :
  confined (login_event config selectors) (login (W:=W) config selectors).
Proof.
  unfold login, submitCredentials, goto, verifyLogin, url.
  apply confined_tryCatch.
  - apply confined_bind.
    + apply confined_bind; [apply confined_perform; intros; reflexivity|].
      intros _. apply confined_enterCredentials.
    + intros _. apply confined_bind.
      * apply confined_bind; [apply confined_read|]. intros u.
        destruct (negb _); [|apply confined_ret].
        eapply confined_weaken;
          [apply login_event_indicator | apply confined_indicatorVisible].
      * intros b. destruct (negb b); [apply confined_throw | apply confined_ret].
  - intros e. apply confined_bind; [|intros; apply confined_throw].
    unfold screenshotIfEnabled, mkdir, screenshot.
    destruct (screenshotOnError config) eqn:Hon; [|apply confined_ret].
    apply confined_bind; [|intros _];
      apply confined_perform; intros; simpl; auto.
Qed.

Lemma login_returns_true (s : St W) v :
  fst (login config selectors s) = Ok v -> v = true.
Proof.
  unfold login. rewrite tryCatch_run, bind_run.
  destruct (submitCredentials config selectors s) as [[[]|e] s1].
  - rewrite bind_run.
    destruct (verifyLogin config selectors s1) as [[b|e] s2].
    + destruct b; simpl.
      * intros Hv. now inversion Hv.
      * unfold throw at 1. rewrite bind_run.
        destruct (screenshotIfEnabled _ _ _) as [[[]|e0] s3]; discriminate.
    + rewrite bind_run.
      destruct (screenshotIfEnabled _ _ _) as [[[]|e0] s3]; discriminate.
  - rewrite bind_run.
    destruct (screenshotIfEnabled _ _ _) as [[[]|e0] s3]; discriminate.
Qed.

End Login.

(** X9 -- What a login touches, from every state of every site.  It opens
    the login page and no other; it looks up, clicks and fills selectors of
    the configuration only; it clicks only cookie and submit buttons; it
    types the user name into e-mail fields only and the password into
    password fields only, and types nothing else; the only key it presses is
    Enter and the only pause it takes is one second; it saves a screenshot
    only when the diagnostics are on; it fetches and delivers nothing.  And
    when it returns, it returns [true]. *)
Theorem login_conduct
    {W : Type} `{Clock W} `{Browser W}
    (config : Config) (selectors : Selectors) (s : St W) :
  (exists t,
      emitted s (snd (login config selectors s)) t
      /\ Forall (login_event config selectors) t)
  /\ (forall v, fst (login config selectors s) = Ok v -> v = true).
Proof.
  split; [apply confined_login | apply login_returns_true].
Qed.

End ConductFacts.

(* ===================================================================== *)
(** ** Diagnostics that fail *)
(* ===================================================================== *)

Module DiagnosticsFacts.
Import JsString JsStringFacts Utils Effects Retry Agent EffectFacts FlowFacts Fake Worlds.

Section Masking.
Context {W : Type} `{Clock W} `{Browser W}.
Variable config : Config.
Variable selectors : Selectors.

(** The screenshot of a [catch] block throws [e'], at the directory or at
    the screenshot itself. *)
Lemma screenshotIfEnabled_throws name (s : St W) e' :
  screenshotOnError config = true ->
  fst (fs_mkdir "screenshots" (world s)) = Throw e'
  \/ (fst (fs_mkdir "screenshots" (world s)) = Ok tt
      /\ fst (page_screenshot name (snd (fs_mkdir "screenshots" (world s)))) = Throw e') ->
  fst (screenshotIfEnabled config name s) = Throw e'.
Proof.
  intros Hon Hfail. unfold screenshotIfEnabled, mkdir, screenshot. rewrite Hon.
  rewrite bind_run, perform_run.
  destruct Hfail as [Hmk|[Hmk Hshot]]; rewrite Hmk; [reflexivity|].
  rewrite perform_run. simpl. now rewrite Hshot.
Qed.

(** X10 -- A diagnostic screenshot that fails replaces the error it was
    taken for.  With the diagnostics on, when the export endpoint answers
    with status 200 and a body that the classifier rejects, and the
    screenshot directory cannot be made or the screenshot cannot be taken,
    [downloadCsv] throws the error of the screenshot instead of the
    [HTML instead of CSV] error; unless the message of that error happens to
    contain these words, [downloadWithRelogin] then throws it as it is, with
    one fetch and no login: the expired session is not renewed. *)
Theorem failed_screenshot_hides_expiry
    (s : St W) (response : Response) (b : Buffer) (w1 w2 : W) (e' : exn) :
  screenshotOnError config = true ->
  page_request_get (exportUrl config) (world s) = (Ok response, w1) ->
  response_body response w1 = (Ok b, w2) ->
  status response = 200%Z ->
  ensureCsv b (declaredType response) = false ->
  fst (fs_mkdir "screenshots" w2) = Throw e'
  \/ (fst (fs_mkdir "screenshots" w2) = Ok tt
      /\ fst (page_screenshot "download-error" (snd (fs_mkdir "screenshots" w2)))
         = Throw e') ->
  fst (downloadCsv config s) = Throw e'
  /\ (includes (message e') "HTML instead of CSV" = false ->
      fst (downloadWithRelogin config selectors s) = Throw e'
      /\ forall t,
           emitted s (snd (downloadWithRelogin config selectors s)) t ->
           logins t = 0%nat /\ fetches t = 1%nat).
Proof.
  intros Hon Hget Hbody Hst Hrej Hfail.
  assert (Hfirst : fst (downloadCsv config s) = Throw e').
  { unfold downloadCsv, checkResponse, requestGet, body.
    rewrite tryCatch_run, bind_run, perform_run, Hget. simpl.
    rewrite bind_run, perform_run. simpl. rewrite Hbody. simpl.
    fold (declaredType response). rewrite Hst, Hrej. simpl.
    unfold throw at 1. rewrite bind_run.
    match goal with |- context [screenshotIfEnabled config ?n ?st] =>
      pose proof (screenshotIfEnabled_throws n st e' Hon Hfail) as Hs;
      destruct (screenshotIfEnabled config n st) as [r s1] end.
    simpl in Hs. now subst r. }
  split; [exact Hfirst|]. intros Hmsg.
  assert (Hrun : downloadWithRelogin config selectors s = downloadCsv config s).
  { unfold downloadWithRelogin. rewrite tryCatch_run.
    destruct (downloadCsv config s) as [[d|e] s1]; simpl in *; [discriminate|].
    inversion Hfirst; subst e. now rewrite Hmsg. }
  rewrite Hrun. split; [exact Hfirst|]. intros t Ht.
  destruct (downloadCsv_trace config s) as (r & t0 & Ht0 & Hq).
  rewrite (emitted_inj _ _ _ _ Ht Ht0).
  apply form_events_count in Hq. destruct Hq as [Hf Hl].
  unfold logins, fetches in *. simpl. now rewrite Hf, Hl.
Qed.

End Masking.

Lemma failed_screenshot_hides_expiry_witness :
  let run := downloadWithRelogin Worlds.config_debug Fake.selectors
               (mkSt {| Worlds.site := expired_then_ok |} []) in
  fst run = Throw Worlds.denied /\ logins (trace (snd run)) = 0%nat.
Proof.
  intros run.
  assert (Hrun : includes (message Worlds.denied) "HTML instead of CSV" = false ->
                 fst run = Throw Worlds.denied
                 /\ forall t, emitted (mkSt {| Worlds.site := expired_then_ok |} [])
                                (snd run) t ->
                              logins t = 0%nat /\ fetches t = 1%nat).
  { refine (proj2 (failed_screenshot_hides_expiry Worlds.config_debug Fake.selectors
                     (mkSt {| Worlds.site := expired_then_ok |} [])
                     (fst html_page) (snd html_page)
                     {| Worlds.site := snd (Fake.answer expired_then_ok) |}
                     {| Worlds.site := snd (Fake.answer expired_then_ok) |}
                     Worlds.denied _ _ _ _ _ _));
      first [reflexivity | left; reflexivity]. }
  destruct (Hrun eq_refl) as [Hthrow Hcount]. split; [exact Hthrow|].
  apply (Hcount (trace (snd run))). reflexivity.
Defined.

End DiagnosticsFacts.

(* ===================================================================== *)
(** ** The run of the agent, from launch to exit *)
(* ===================================================================== *)

Module RunFacts.
Import JsString Utils Effects Retry Agent EffectFacts FlowFacts Tracing Fake.

Section Quiet.
Context {W : Type} `{Clock W} `{Browser W}.
Variable config : Config.
Variable selectors : Selectors.
Variable p : event -> bool.
Hypothesis p_form : forall e, form_event e = true -> p e = true.
Hypothesis p_goto : forall u r, p (EvGoto u r) = true.
Hypothesis p_fetch : forall u r, p (EvRequestGet u r) = true.

(** A login, and a download, add a navigation or a fetch and events of the
    form handling, nothing else. *)
Lemma quiet_login_of : quiet p (login (W:=W) config selectors).
Proof.
  intros s. destruct (login_trace config selectors s) as (r & t & Ht & Hq).
  eexists. split; [exact Ht|]. simpl. rewrite p_goto. simpl.
  rewrite forallb_forall in *. auto.
Qed.

Lemma quiet_downloadCsv_of : quiet p (downloadCsv (W:=W) config).
Proof.
  intros s. destruct (downloadCsv_trace config s) as (r & t & Ht & Hq).
  eexists. split; [exact Ht|]. simpl. rewrite p_fetch. simpl.
  rewrite forallb_forall in *. auto.
Qed.

Lemma quiet_downloadWithRelogin_of :
  quiet p (downloadWithRelogin (W:=W) config selectors).
Proof.
  unfold downloadWithRelogin. apply quiet_tryCatch; [apply quiet_downloadCsv_of|].
  intros e. destruct (includes _ _); [|apply quiet_throw].
  apply quiet_bind; [apply quiet_login_of | intros; apply quiet_downloadCsv_of].
Qed.

End Quiet.

Section Outcome.
Context {W : Type} `{Clock W} `{Browser W} `{Delivery W}.
Variable config : Config.
Variable selectors : Selectors.

Lemma form_event_preparing e : form_event e = true -> preparing e = true.
Proof. destruct e; simpl; congruence. Qed.

Lemma concluding_bind {A B} (m : M W (option exn) A) (k : A -> M W (option exn) B) :
  quiet preparing m -> (forall a, concluding config (k a)) ->
  concluding config (bind m k).
Proof.
  intros Hm Hk s. rewrite bind_run.
  destruct (Hm s) as (t1 & Ht1 & Hq1).
  destruct (m s) as [[a|e] s1]; simpl in *.
  - destruct (Hk a s1) as (before & last & done & Ht & Hb & Hh & Hd).
    exists (t1 ++ before), last, done. repeat split; try assumption; try apply Hd.
    + unfold emitted in *. now rewrite Ht, Ht1, !app_assoc.
    + now rewrite forallb_app, Hq1, Hb.
  - exists t1, [], false. repeat split; try assumption.
    + unfold emitted in *. now rewrite app_nil_r.
    + constructor.
    + discriminate.
    + intros [a Ha]. discriminate.
Qed.

(** The hand-over: the delivery, then the pruning. *)
Lemma concluding_handover b timestamp :
  concluding config
    (bind (await (deliver (W:=W) b timestamp))
       (fun _ => await (pruneHistory (target config) (keepHistory config)))).
Proof.
  intros s. unfold await, deliver, pruneHistory.
  rewrite bind_run, tryCatch_run, perform_run.
  destruct (storage_deliver b timestamp (world s)) as [[[]|e] w1]; simpl.
  - rewrite tryCatch_run, perform_run. simpl.
    destruct (storage_pruneHistory (target config) (keepHistory config) w1)
      as [[[]|e] w2]; simpl.
    + exists [], [EvDeliver b timestamp (Ok tt);
                  EvPruneHistory (target config) (keepHistory config) (Ok tt)], true.
      repeat split; [unfold emitted; simpl; now rewrite <- app_assoc
                    | constructor | now exists tt].
    + exists [], [EvDeliver b timestamp (Ok tt);
                  EvPruneHistory (target config) (keepHistory config) (Throw e)], false.
      repeat split; [unfold emitted; simpl; now rewrite <- app_assoc
                    | constructor | discriminate | intros [a Ha]; discriminate].
  - exists [], [EvDeliver b timestamp (Throw e)], false.
    repeat split; [constructor | discriminate | intros [a Ha]; discriminate].
Qed.

(** The [try] block of [runAgent]. *)
Lemma concluding_work :
  concluding config
    (bind (await (perform chromium_launch EvLaunch)) (fun _ =>
     bind (await (perform browser_newContext EvNewContext)) (fun _ =>
     bind (await (perform context_newPage EvNewPage)) (fun _ =>
     bind (withRetry (login config selectors)
             {| retries := 2; baseDelayMs := 3000; maxDelayMs := 30000;
                taskName := "Login" |}) (fun _ =>
     bind (withRetry (downloadWithRelogin config selectors)
             {| retries := 2; baseDelayMs := 2000; maxDelayMs := 30000;
                taskName := "Download CSV" |}) (fun download =>
     bind (fun s : St W => (Ok (generateTimestamp (now (world s))), s))
       (fun timestamp =>
     bind (await (deliver (buffer download) timestamp)) (fun _ =>
     await (pruneHistory (target config) (keepHistory config)))))))))).
Proof.
  apply concluding_bind; [unfold await; quiet_steps|]. intros _.
  apply concluding_bind; [unfold await; quiet_steps|]. intros _.
  apply concluding_bind; [unfold await; quiet_steps|]. intros _.
  apply concluding_bind.
  { apply quiet_withRetry_loop; [|reflexivity].
    apply quiet_login_of; [apply form_event_preparing | reflexivity]. }
  intros _. apply concluding_bind.
  { apply quiet_withRetry_loop; [|reflexivity].
    apply quiet_downloadWithRelogin_of;
      [apply form_event_preparing | reflexivity | reflexivity]. }
  intros download. apply concluding_bind; [apply quiet_read|].
  intros timestamp. apply concluding_handover.
Qed.

(** Closing a resource returns whatever the closing answers. *)
Lemma quietly_run (h : W -> result exn unit * W) log (s : St W) :
  quietly (perform h log) s
  = (Ok tt, mkSt (snd (h (world s))) (trace s ++ [log (fst (h (world s)))])).
Proof.
  unfold quietly. rewrite tryCatch_run, perform_run.
  destruct (fst (h (world s))) as [[]|e]; reflexivity.
Qed.

(** The [finally] block of [runAgent]. *)
Lemma closes_run (s : St W) :
  exists r1 r2 r3 s',
    bind (quietly (perform page_close EvClosePage)) (fun _ =>
    bind (quietly (perform context_close EvCloseContext)) (fun _ =>
    quietly (perform browser_close EvCloseBrowser))) s = (Ok tt, s')
    /\ trace s' = trace s ++ [EvClosePage r1; EvCloseContext r2; EvCloseBrowser r3].
Proof.
  rewrite bind_run, quietly_run, bind_run, quietly_run, quietly_run. simpl.
  do 4 eexists. split; [reflexivity|]. simpl. now rewrite <- !app_assoc.
Qed.

End Outcome.

(** X11 -- How a run of the agent ends, from every world.  Its trace is a
    preparation with no delivery, pruning, exit or closing in it, then a
    hand-over, then a closing.  Either the hand-over is complete -- one
    delivery that returned, followed by one pruning, for the configured target
    and count, that returned -- and then the page, the context and the
    browser are closed, in this order, and the run returns whatever the
    closings answer.  Or the work failed -- before any delivery, at the
    delivery, or at the pruning that followed a delivery -- and then the
    process exits at once with code 1: nothing is handed over after the
    failure, and the page, the context and the browser are not closed.  So
    there is never more than one delivery, a pruning only follows a delivery
    that returned, and a failed pruning fails the run. *)
Theorem runAgent_outcome
    {W : Type} `{Clock W} `{Browser W} `{Delivery W}
    (config : Config) (selectors : Selectors) (w : W) :
  let run := runAgent config selectors (mkSt w []) in
  exists before last after done,
    trace (snd run) = before ++ last ++ after
    /\ forallb preparing before = true
    /\ handover config last done
    /\ closing done after (fst run).
Proof.
  intros run. unfold run, runAgent.
  rewrite bind_run, tryCatch_run.
  destruct (concluding_work config selectors (mkSt w []))
    as (before & last & done & Ht & Hb & Hh & Hd).
  unfold emitted in Ht. simpl in Ht.
  match type of Ht with
  | trace (snd (?body _)) = _ => destruct (body (mkSt w [])) as [[a|e] s1]
  end; simpl in Ht.
  - assert (done = true) by (apply Hd; now exists a). subst done.
    destruct (closes_run s1) as (r1 & r2 & r3 & s' & Hrun & Hs').
    rewrite Hrun. simpl.
    exists before, last, [EvClosePage r1; EvCloseContext r2; EvCloseBrowser r3], true.
    repeat split; try assumption.
    + now rewrite Hs', Ht, <- app_assoc.
    + now exists r1, r2, r3.
  - assert (done = false).
    { destruct done; [|reflexivity].
      destruct (proj1 Hd eq_refl) as [a Ha]. discriminate. }
    subst done. simpl.
    exists before, last, [EvExit 1], false.
    repeat split; try assumption.
    now rewrite Ht, <- app_assoc.
Qed.

End RunFacts.

(* ===================================================================== *)
(** ** What a run costs *)
(* ===================================================================== *)

Module BudgetFacts.
Import JsString Utils Effects Retry Agent EffectFacts FlowFacts Tracing Fake.

Section Rules.
Context {W : Type}.
Variable price : Kind -> Z.
Hypothesis price_nonneg : forall k, (0 <= price k)%Z.
Hypothesis price_other : price Other = 0%Z.

Lemma cost_app t1 t2 : cost price (t1 ++ t2) = (cost price t1 + cost price t2)%Z.
Proof. induction t1 as [|e t1 IH]; simpl; [reflexivity | rewrite IH; lia]. Qed.

Lemma cost_nonneg t : (0 <= cost price t)%Z.
Proof.
  induction t as [|e t IH]; simpl; [lia|]. pose proof (price_nonneg (kind e)). lia.
Qed.

(** A trace of events that are charged nothing costs nothing. *)
Lemma cost_free (p : event -> bool) t :
  (forall e, p e = true -> kind e = Other) -> forallb p t = true -> cost price t = 0%Z.
Proof.
  intros Hp. induction t as [|e t IH]; simpl; [reflexivity|].
  intros Hq. apply andb_true_iff in Hq. destruct Hq as [He Ht].
  rewrite (Hp e He), price_other, (IH Ht). reflexivity.
Qed.

Lemma within_weaken {E A} n n' (m : M W E A) :
  (n <= n')%Z -> within price n m -> within price n' m.
Proof.
  intros Hn Hm s. destruct (Hm s) as (t & Ht & Hc). exists t. split; [exact Ht | lia].
Qed.

Lemma within_quiet {E A} (p : event -> bool) (m : M W E A) :
  (forall e, p e = true -> kind e = Other) -> quiet p m -> within price 0 m.
Proof.
  intros Hp Hm s. destruct (Hm s) as (t & Ht & Hq). exists t. split; [exact Ht|].
  rewrite (cost_free p t Hp Hq). lia.
Qed.

Lemma within_ret {E A} (a : A) : within price 0 (ret a : M W E A).
Proof. intros s. exists []. split; [apply emitted_refl | simpl; lia]. Qed.

Lemma within_throw {E A} (e : E) : within price 0 (throw e : M W E A).
Proof. intros s. exists []. split; [apply emitted_refl | simpl; lia]. Qed.

Lemma within_read {E A} (f : St W -> A) :
  within price 0 ((fun s => (Ok (f s), s)) : M W E A).
Proof. intros s. exists []. split; [apply emitted_refl | simpl; lia]. Qed.

Lemma within_perform {E A} (h : W -> result E A * W) log n :
  (forall r, price (kind (log r)) <= n)%Z -> within price n (perform h log).
Proof.
  intros Hlog s. rewrite perform_run. eexists. split; [reflexivity|].
  simpl. specialize (Hlog (fst (h (world s)))). lia.
Qed.

Lemma within_sleep `{Clock W} {E} ms :
  within price (price (Pause ms)) (sleep ms : M W E unit).
Proof. intros s. eexists. split; [reflexivity|]. simpl. lia. Qed.

Lemma within_bind {E A B} n1 n2 (m : M W E A) (k : A -> M W E B) :
  (0 <= n2)%Z ->
  within price n1 m -> (forall a, within price n2 (k a)) ->
  within price (n1 + n2) (bind m k).
Proof.
  intros Hn Hm Hk s. rewrite bind_run.
  destruct (Hm s) as (t1 & Ht1 & Hc1).
  destruct (m s) as [[a|e] s1]; simpl in *.
  - destruct (Hk a s1) as (t2 & Ht2 & Hc2). exists (t1 ++ t2).
    split; [eapply emitted_trans; eauto | rewrite cost_app; lia].
  - exists t1. split; [exact Ht1 | lia].
Qed.

Lemma within_tryCatch {E E' A} n1 n2 (m : M W E A) (h : E -> M W E' A) :
  (0 <= n2)%Z ->
  within price n1 m -> (forall e, within price n2 (h e)) ->
  within price (n1 + n2) (tryCatch m h).
Proof.
  intros Hn Hm Hh s. rewrite tryCatch_run.
  destruct (Hm s) as (t1 & Ht1 & Hc1).
  destruct (m s) as [[a|e] s1]; simpl in *.
  - exists t1. split; [exact Ht1 | lia].
  - destruct (Hh e s1) as (t2 & Ht2 & Hc2). exists (t1 ++ t2).
    split; [eapply emitted_trans; eauto | rewrite cost_app; lia].
Qed.

Lemma retryBudget_nonneg options n remaining : forall attempt,
  (0 <= n)%Z -> (0 <= retryBudget price options n remaining attempt)%Z.
Proof.
  induction remaining as [|r IH]; intros attempt Hn; simpl; [lia|].
  specialize (IH (S attempt) Hn).
  destruct (attempt <=? retries options)%nat;
    [pose proof (price_nonneg (Pause (backoff options attempt)))|]; lia.
Qed.

(** The loop of [withRetry] costs its invocations and its pauses. *)
Lemma within_withRetry_loop `{Clock W} {A} (fn : M W exn A) options n :
  (0 <= n)%Z -> within price n fn ->
  forall remaining attempt lastError,
    within price (retryBudget price options n remaining attempt)
      (withRetry_loop fn options remaining attempt lastError).
Proof.
  intros Hn Hfn.
  induction remaining as [|r IH]; intros attempt lastError.
  - apply within_throw.
  - simpl withRetry_loop. simpl retryBudget.
    rewrite <- Z.add_assoc. apply within_tryCatch.
    + pose proof (retryBudget_nonneg options n r (S attempt) Hn).
      destruct (attempt <=? retries options)%nat;
        [pose proof (price_nonneg (Pause (backoff options attempt)))|]; lia.
    + exact Hfn.
    + intros e. apply within_bind.
      * now apply retryBudget_nonneg.
      * destruct (attempt <=? retries options)%nat;
          [apply within_sleep | apply within_ret].
      * intros _. apply IH.
Qed.

End Rules.

Lemma page_event_other e : page_event e = true -> kind e = Other.
Proof. destruct e; simpl; congruence. Qed.

Section Agent.
Context {W : Type} `{Clock W} `{Browser W} `{Delivery W}.
Variable config : Config.
Variable selectors : Selectors.
Variable price : Kind -> Z.
Hypothesis price_nonneg : forall k, (0 <= price k)%Z.
Hypothesis price_other : price Other = 0%Z.

(** The passes over selectors, the verification and the diagnostics only
    touch the page. *)
Lemma page_clickFirst selectorList options :
  quiet page_event (clickFirst (W:=W) selectorList options).
Proof.
  induction selectorList as [|selector rest IH]; simpl; [apply quiet_ret|].
  apply quiet_bind.
  - unfold clickFirst_try, locator, isVisible, click. quiet_steps.
  - intros [|]; [apply quiet_ret | exact IH].
Qed.

Lemma page_fillFirst selectorList value :
  quiet page_event (fillFirst (W:=W) selectorList value).
Proof.
  induction selectorList as [|selector rest IH]; simpl; [apply quiet_ret|].
  apply quiet_bind.
  - unfold fillFirst_try, locator, isVisible, fill. quiet_steps.
  - intros [|]; [apply quiet_ret | exact IH].
Qed.

Lemma page_indicatorVisible indicators :
  quiet page_event (indicatorVisible (W:=W) indicators).
Proof.
  induction indicators as [|indicator rest IH]; simpl; [apply quiet_ret|].
  apply quiet_bind.
  - unfold locator, isVisible. quiet_steps.
  - intros [|]; [apply quiet_ret | exact IH].
Qed.

Lemma page_verifyLogin : quiet page_event (verifyLogin (W:=W) config selectors).
Proof.
  unfold verifyLogin, url. apply quiet_bind; [apply quiet_read|]. intros u.
  destruct (negb _); [apply page_indicatorVisible | apply quiet_ret].
Qed.

Lemma page_screenshotIfEnabled name :
  quiet page_event (screenshotIfEnabled (W:=W) config name).
Proof.
  unfold screenshotIfEnabled, mkdir, screenshot.
  destruct (screenshotOnError config); quiet_steps.
Qed.

Lemma page_checkResponse response :
  quiet page_event (checkResponse (W:=W) response).
Proof. unfold checkResponse, body. quiet_steps. Qed.

(** A login costs one navigation and one pause of a second at most. *)
Lemma within_login :
  within price (price Navigation + price (Pause 1000))
    (login (W:=W) config selectors).
Proof.
  pose proof (price_nonneg Navigation). pose proof (price_nonneg (Pause 1000)).
  unfold login, submitCredentials, goto.
  replace (price Navigation + price (Pause 1000))%Z
    with (((price Navigation + (0 + (price (Pause 1000) + 0))) + (0 + 0)) + (0 + 0))%Z
    by lia.
  apply within_tryCatch; [lia | |].
  - apply within_bind; [lia | |].
    + apply within_bind; [lia | |].
      * apply within_perform. intros r. simpl. lia.
      * intros _. unfold enterCredentials.
        apply within_bind; [lia | |].
        { eapply within_quiet; [exact price_other | apply page_event_other |]. apply page_clickFirst. }
        intros c. apply within_bind; [lia | |].
        { destruct c; [apply within_sleep|].
          eapply within_weaken; [|apply within_ret]. lia. }
        intros _. eapply within_quiet; [exact price_other | apply page_event_other |]. unfold press, waitForLoadState.
        apply quiet_bind; [apply page_fillFirst|]. intros f1.
        destruct (negb f1); [apply quiet_throw|].
        apply quiet_bind; [apply page_fillFirst|]. intros f2.
        destruct (negb f2); [apply quiet_throw|].
        apply quiet_bind; [apply page_clickFirst|]. intros c2.
        apply quiet_bind; [destruct (negb c2); quiet_steps | intros; quiet_steps].
    + intros _. apply within_bind; [lia | |].
      * eapply within_quiet; [exact price_other | apply page_event_other |]. apply page_verifyLogin.
      * intros b. destruct (negb b); [apply within_throw | apply within_ret].
  - intros e. apply within_bind; [lia | |].
    + eapply within_quiet; [exact price_other | apply page_event_other |]. apply page_screenshotIfEnabled.
    + intros _. apply within_throw.
Qed.

(** A download costs one fetch at most. *)
Lemma within_downloadCsv : within price (price Fetch) (downloadCsv (W:=W) config).
Proof.
  pose proof (price_nonneg Fetch).
  unfold downloadCsv, requestGet.
  replace (price Fetch) with ((price Fetch + 0) + (0 + 0))%Z by lia.
  apply within_tryCatch; [lia | |].
  - apply within_bind; [lia | |].
    + apply within_perform. intros r. simpl. lia.
    + intros response. eapply within_quiet; [exact price_other | apply page_event_other |]. apply page_checkResponse.
  - intros e. apply within_bind; [lia | |].
    + eapply within_quiet; [exact price_other | apply page_event_other |]. apply page_screenshotIfEnabled.
    + intros _. apply within_throw.
Qed.

(** An attempt of the download flow costs two fetches and one login at
    most. *)
Lemma within_downloadWithRelogin :
  within price
    (price Fetch + ((price Navigation + price (Pause 1000)) + price Fetch))
    (downloadWithRelogin (W:=W) config selectors).
Proof.
  pose proof (price_nonneg Navigation). pose proof (price_nonneg (Pause 1000)).
  pose proof (price_nonneg Fetch).
  unfold downloadWithRelogin.
  apply within_tryCatch; [lia | apply within_downloadCsv |].
  intros e. destruct (includes _ _).
  - apply within_bind; [lia | apply within_login |].
    intros _. apply within_downloadCsv.
  - eapply within_weaken; [|apply within_throw]. lia.
Qed.

(** A run costs three attempts at a login and three attempts at a
    download, with the pauses between them. *)
Lemma within_runAgent :
  within price
    (retryBudget price
       {| retries := 2; baseDelayMs := 3000; maxDelayMs := 30000;
          taskName := "Login" |}
       (price Navigation + price (Pause 1000)) 3 1
     + retryBudget price
         {| retries := 2; baseDelayMs := 2000; maxDelayMs := 30000;
            taskName := "Download CSV" |}
         (price Fetch + ((price Navigation + price (Pause 1000)) + price Fetch)) 3 1)
    (runAgent (W:=W) config selectors).
Proof.
  pose proof (price_nonneg Navigation). pose proof (price_nonneg (Pause 1000)).
  pose proof (price_nonneg Fetch).
  set (loginOptions := {| retries := 2; baseDelayMs := 3000; maxDelayMs := 30000;
                          taskName := "Login" |}).
  set (downloadOptions := {| retries := 2; baseDelayMs := 2000; maxDelayMs := 30000;
                             taskName := "Download CSV" |}).
  set (n1 := (price Navigation + price (Pause 1000))%Z).
  set (n2 := (price Fetch + (n1 + price Fetch))%Z).
  pose proof (retryBudget_nonneg price price_nonneg loginOptions n1 3 1 ltac:(lia)) as B1.
  pose proof (retryBudget_nonneg price price_nonneg downloadOptions n2 3 1 ltac:(lia))
    as B2.
  unfold runAgent.
  replace (retryBudget price loginOptions n1 3 1
           + retryBudget price downloadOptions n2 3 1)%Z
    with (((0 + (0 + (0 + (retryBudget price loginOptions n1 3 1
             + (retryBudget price downloadOptions n2 3 1 + (0 + (0 + 0)))))))
           + 0) + (0 + (0 + 0)))%Z by lia.
  assert (Hstep : forall (h : W -> result exn unit * W) log,
             kind (log (Ok tt)) = Other ->
             (forall r, kind (log r) = kind (log (Ok tt))) ->
             within price 0 (await (perform h log))).
  { intros h log Hk Hall. unfold await.
    replace 0%Z with (0 + 0)%Z by lia.
    apply within_tryCatch; [lia | |].
    - apply within_perform. intros r. rewrite Hall, Hk, price_other. lia.
    - intros e. apply within_throw. }
  assert (Hclose : forall (h : W -> result exn unit * W) log,
             kind (log (Ok tt)) = Other ->
             (forall r, kind (log r) = kind (log (Ok tt))) ->
             within price 0 (quietly (perform h log))).
  { intros h log Hk Hall. unfold quietly.
    replace 0%Z with (0 + 0)%Z by lia.
    apply within_tryCatch; [lia | |].
    - apply within_perform. intros r. rewrite Hall, Hk, price_other. lia.
    - intros e. apply within_ret. }
  apply within_bind; [lia | |].
  - apply within_tryCatch; [lia | |].
    + apply within_bind; [lia | now apply Hstep |]. intros _.
      apply within_bind; [lia | now apply Hstep |]. intros _.
      apply within_bind; [lia | now apply Hstep |]. intros _.
      apply within_bind; [lia | |].
      { apply within_withRetry_loop;
          [exact price_nonneg | unfold n1; lia | apply within_login]. }
      intros _. apply within_bind; [lia | |].
      { apply within_withRetry_loop;
          [exact price_nonneg | unfold n2, n1; lia | apply within_downloadWithRelogin]. }
      intros download. apply within_bind; [lia | |].
      { apply within_read. }
      intros timestamp. apply within_bind; [lia | |].
      { unfold deliver. now apply Hstep. }
      intros _. unfold pruneHistory. now apply Hstep.
    + intros e. intros s. eexists. split; [reflexivity|]. simpl.
      rewrite price_other. lia.
  - intros _. apply within_bind; [lia | now apply Hclose |].
    intros _. apply within_bind; [lia | now apply Hclose |].
    intros _. now apply Hclose.
Qed.

End Agent.

(** Counting with prices. *)
Lemma logins_cost t : Z.of_nat (logins t) = cost perNavigation t.
Proof.
  unfold logins. induction t as [|e t IH]; [reflexivity|].
  change (cost perNavigation (e :: t))
    with (perNavigation (kind e) + cost perNavigation t)%Z.
  rewrite <- IH. destruct e; cbn [filter is_goto kind perNavigation List.length];
    rewrite ?Nat2Z.inj_succ; lia.
Qed.

Lemma fetches_cost t : Z.of_nat (fetches t) = cost perFetch t.
Proof.
  unfold fetches. induction t as [|e t IH]; [reflexivity|].
  change (cost perFetch (e :: t)) with (perFetch (kind e) + cost perFetch t)%Z.
  rewrite <- IH. destruct e; cbn [filter is_fetch kind perFetch List.length];
    rewrite ?Nat2Z.inj_succ; lia.
Qed.

Lemma waited_cost t : (waited t <= cost perMillisecond t)%Z.
Proof.
  unfold waited. induction t as [|e t IH]; [simpl; lia|].
  change (cost perMillisecond (e :: t))
    with (perMillisecond (kind e) + cost perMillisecond t)%Z.
  destruct e; cbn [sleeps fold_right kind perMillisecond]; lia.
Qed.

(** X12 -- What a run asks of the site at most, from every world: six
    navigations to the login page, six requests to the export endpoint, and
    twenty-one seconds of pauses -- three attempts at the login and three at
    the download, each download attempt with one more login and one more
    fetch at most, one second after each cookie banner, and the back-off
    between attempts. *)
Theorem runAgent_budget
    {W : Type} `{Clock W} `{Browser W} `{Delivery W}
    (config : Config) (selectors : Selectors) (w : W) :
  let t := trace (snd (runAgent config selectors (mkSt w []))) in
  (logins t <= 6)%nat /\ (fetches t <= 6)%nat /\ (waited t <= 21000)%Z.
Proof.
  intros t.
  assert (Ht : forall price budget,
             within price budget (runAgent (W:=W) config selectors) ->
             (cost price t <= budget)%Z).
  { intros price budget Hw. destruct (Hw (mkSt w [])) as (t' & Ht' & Hc).
    unfold emitted in Ht'. simpl in Ht'. unfold t. now rewrite Ht'. }
  split; [|split].
  - apply Nat2Z.inj_le. rewrite logins_cost.
    apply (Ht perNavigation), within_runAgent; [|reflexivity].
    intros []; simpl; lia.
  - apply Nat2Z.inj_le. rewrite fetches_cost.
    apply (Ht perFetch), within_runAgent; [|reflexivity].
    intros []; simpl; lia.
  - eapply Z.le_trans; [apply waited_cost|].
    apply (Ht perMillisecond), within_runAgent; [|reflexivity].
    intros []; simpl; lia.
Qed.

(** The bound on the fetches is reached: a site whose sessions expire at
    once costs six fetches and four logins, and the run exits with code 1. *)
Example runAgent_six_fetches :
  let run := runAgent Fake.config Fake.selectors (mkSt Worlds.always_expired []) in
  fst run = Throw (ProcessExit 1)
  /\ fetches (trace (snd run)) = 6%nat
  /\ logins (trace (snd run)) = 4%nat
  /\ waited (trace (snd run)) = 6000%Z.
Proof. vm_compute. repeat split. Qed.

End BudgetFacts.

(* ===================================================================== *)
(** ** More on delivery and retention *)
(* ===================================================================== *)

Module RetentionFacts.
Import JsString JsStringFacts Utils Effects Retry Storage EffectFacts StorageFacts
  StorageClaims Calendar TimestampFacts Fake.

(** X13 -- A delivery with its configuration missing sends nothing.  In both
    revisions, when the target is WordPress and one of [WP_BASE_URL],
    [WP_USER], [WP_APP_PASS] is unset or empty, or the target is S3 and one of
    [S3_ENDPOINT], [S3_BUCKET], [S3_ACCESS_KEY], [S3_SECRET_KEY] is unset or
    empty, [deliver] throws the error that names the missing configuration
    before any request: the world and the trace are as they were. *)
Theorem deliver_missing_configuration
    {W : Type} `{Clock W} `{Backends W}
    (env : Env) (buffer : Buffer) (timestamp : string) (s : St W) :
  (TARGET env = Some "wp" ->
   unset (WP_BASE_URL env) || unset (WP_USER env) || unset (WP_APP_PASS env) = true ->
   let missing :=
     newError "Missing WordPress configuration (WP_BASE_URL, WP_USER, WP_APP_PASS)" in
   Latest.deliver env buffer timestamp s = (Throw missing, s)
   /\ Older.deliver env buffer timestamp s = (Throw missing, s))
  /\ (TARGET env = Some "s3" ->
      unset (S3_ENDPOINT env) || unset (S3_BUCKET env)
      || unset (S3_ACCESS_KEY env) || unset (S3_SECRET_KEY env) = true ->
      let missing := newError "Missing S3 configuration" in
      Latest.deliver env buffer timestamp s = (Throw missing, s)
      /\ Older.deliver env buffer timestamp s = (Throw missing, s)).
Proof.
  split; intros Htarget Hunset missing;
    unfold Latest.deliver, Older.deliver; rewrite ?bind_run; simpl;
    rewrite !rethrow_run, Htarget; unfold deliverTo; simpl;
    unfold uploadToWordPress, uploadToS3; rewrite !bind_run, Hunset;
    split; reflexivity.
Qed.

Lemma deliver_missing_configuration_witness :
  let env :=
    {| TARGET := Some "wp"; WP_DEST_FILE := None;
       WP_BASE_URL := Some "http://ricondizionati.shop"; WP_USER := Some "editor";
       WP_APP_PASS := Some EmptyString; S3_ENDPOINT := None; S3_BUCKET := None;
       S3_ACCESS_KEY := None; S3_SECRET_KEY := None; S3_KEY_PREFIX := None;
       S3_KEY_PREFIX_HISTORY := None |} in
  trace (snd (Latest.deliver env (bytes_of "id,name") "20260101-060000"
                (mkSt four_copies []))) = [].
Proof.
  intros env.
  destruct (deliver_missing_configuration env (bytes_of "id,name") "20260101-060000"
              (mkSt four_copies [])) as [Hwp _].
  destruct (Hwp eq_refl eq_refl) as [Hlatest _]. now rewrite Hlatest.
Defined.

Lemma orElse_some v fallback : v <> EmptyString -> orElse (Some v) fallback = v.
Proof. destruct v; [congruence | reflexivity]. Qed.

(** X14 -- A target that is none of [wp], [s3] and [fs] is delivered to the
    local directory and never pruned.  With [TARGET] set to any other word,
    the older [deliver] writes the catalog to [output/ingrosmart_catalog.csv]
    and then the time-stamped copy under [output/history], as for [fs]; and
    [pruneHistory], called with that same word, removes nothing, whatever
    the count: the copies pile up. *)
Theorem unknown_target_local_unpruned
    {W : Type} `{Backends W}
    (env : Env) (target : string) (buffer : Buffer) (timestamp : string)
    (keepCount : Z) (s : St W) :
  TARGET env = Some target ->
  target <> EmptyString -> target <> "wp" -> target <> "s3" -> target <> "fs" ->
  (exists t,
      emitted s (snd (Older.deliver env buffer timestamp s)) t
      /\ (exists rest,
            ["output/ingrosmart_catalog.csv";
             ("output/history/ingrosmart-" ++ timestamp ++ ".csv")%string]
            = written t ++ rest)
      /\ (fst (Older.deliver env buffer timestamp s) = Ok tt ->
          written t
          = ["output/ingrosmart_catalog.csv";
             ("output/history/ingrosmart-" ++ timestamp ++ ".csv")%string]))
  /\ Older.pruneHistory env target keepCount s = (Ok tt, s).
Proof.
  intros Htarget Hset Hwp Hs3 Hfs.
  apply String.eqb_neq in Hwp, Hs3, Hfs. split.
  - destruct (older_deliver_written env buffer timestamp s) as (t & Ht & Hpre & Hok).
    exists t. split; [exact Ht|].
    unfold catalogDestination, historyDestination, catalogAt, historyAt in Hpre, Hok.
    rewrite Htarget, (orElse_some _ _ Hset), Hwp, Hs3 in Hpre, Hok.
    split; assumption.
  - unfold Older.pruneHistory.
    destruct (keepCount <=? 0)%Z; [reflexivity|].
    now rewrite Hs3, Hfs.
Qed.

Lemma unknown_target_local_unpruned_witness :
  let env :=
    {| TARGET := Some "FS"; WP_DEST_FILE := None; WP_BASE_URL := None;
       WP_USER := None; WP_APP_PASS := None; S3_ENDPOINT := None;
       S3_BUCKET := None; S3_ACCESS_KEY := None; S3_SECRET_KEY := None;
       S3_KEY_PREFIX := None; S3_KEY_PREFIX_HISTORY := None |} in
  unlinked (trace (snd (Older.pruneHistory env "FS" 2 (mkSt four_copies [])))) = [].
Proof.
  intros env.
  destruct (unknown_target_local_unpruned env "FS" (bytes_of "id,name")
              "20260105-060000" 2 (mkSt four_copies []) eq_refl)
    as [_ Hprune]; try discriminate.
  now rewrite Hprune.
Defined.

(** X15 -- The older [pruneHistory] never fails the run: for every target
    and count, whatever the directory or the bucket answers, it returns.
    Its local part, [pruneLocalHistory], swallows a failure itself only when
    the code of the error is [ENOENT]: a history directory that does not
    exist is no error, and any other failure of the listing is thrown on. *)
Theorem older_pruneHistory_never_throws
    {W : Type} `{Backends W}
    (env : Env) (target : string) (keepCount : Z) (s : St W) :
  fst (Older.pruneHistory env target keepCount s) = Ok tt
  /\ (forall e w1,
        fs_readdir historyDir (world s) = (Throw e, w1) ->
        let s1 := mkSt w1 (trace s ++ [EvReaddir historyDir (Throw e)]) in
        (code e = Some "ENOENT" ->
         Older.pruneLocalHistory keepCount s = (Ok tt, s1))
        /\ (code e <> Some "ENOENT" ->
            Older.pruneLocalHistory keepCount s = (Throw e, s1))).
Proof.
  split.
  - unfold Older.pruneHistory.
    destruct (keepCount <=? 0)%Z; [reflexivity|].
    rewrite tryCatch_run.
    match goal with |- context [match ?m with _ => _ end] =>
      destruct m as [[[]|e] s1] end; reflexivity.
  - intros e w1 Hdir s1. unfold Older.pruneLocalHistory.
    rewrite tryCatch_run, bind_run, perform_run, Hdir. simpl. fold s1. split.
    + intros ->. reflexivity.
    + intros Hcode. destruct (code e) as [c|]; [|reflexivity].
      destruct (String.eqb_spec c "ENOENT") as [->|Hne]; [congruence | reflexivity].
Qed.

Section Pruning.
Context {W : Type} `{Backends W}.

(** The unlinks of the loop, as far as it gets. *)
Lemma unlinkAll_prefix toDelete : forall s : St W,
  exists t rest,
    emitted s (snd (Older.unlinkAll toDelete s)) t
    /\ map (join historyDir) toDelete = unlinked t ++ rest.
Proof.
  induction toDelete as [|file files IH]; intros s; simpl.
  - exists [], []. split; [apply emitted_refl | reflexivity].
  - rewrite bind_run, perform_run.
    destruct (fst (fs_unlink (join historyDir file) (world s))) as [[]|e].
    + match goal with |- context [Older.unlinkAll files ?st] =>
        destruct (IH st) as (t & rest & Ht & Hu) end.
      exists (EvUnlink (join historyDir file) (Ok tt) :: t), rest. split.
      * unfold emitted in *. rewrite Ht. simpl. now rewrite <- app_assoc.
      * simpl. now rewrite Hu.
    + exists [EvUnlink (join historyDir file) (Throw e)],
        (map (join historyDir) files).
      split; reflexivity.
Qed.

Lemma deleteAll_prefix toDelete : forall s : St W,
  exists t rest,
    emitted s (snd (Older.deleteAll toDelete s)) t
    /\ map Key toDelete = deletedKeys t ++ rest.
Proof.
  induction toDelete as [|obj objs IH]; intros s; simpl.
  - exists [], []. split; [apply emitted_refl | reflexivity].
  - rewrite bind_run, perform_run.
    destruct (fst (s3_send_delete (Key obj) (world s))) as [[]|e].
    + match goal with |- context [Older.deleteAll objs ?st] =>
        destruct (IH st) as (t & rest & Ht & Hu) end.
      exists (EvS3Delete (Key obj) (Ok tt) :: t), rest. split.
      * unfold emitted in *. rewrite Ht. simpl. now rewrite <- app_assoc.
      * simpl. now rewrite Hu.
    + exists [EvS3Delete (Key obj) (Throw e)], (map Key objs).
      split; reflexivity.
Qed.

End Pruning.

Lemma swallow_state {W E A} (m : M W E unit) (s : St W) :
  snd (tryCatch m (fun _ => ret tt : M W A unit) s) = snd (m s).
Proof. rewrite tryCatch_run. now destruct (m s) as [[[]|e] s1]. Qed.

Lemma in_prefix {A} (x : A) (l l' rest : list A) : l' = l ++ rest -> In x l -> In x l'.
Proof. intros ->. intros Hx. apply in_or_app. now left. Qed.

Lemma history_files_listed files f n :
  In f (skipn n (rev (sort (filter Older.isHistoryCsv files)))) ->
  In f files /\ Older.isHistoryCsv f = true.
Proof.
  intros Hf. apply in_skipn, in_rev in Hf.
  apply (Permutation.Permutation_in _ (sortBy_perm String.leb _)) in Hf.
  now apply filter_In in Hf.
Qed.

Lemma history_objects_listed contents obj n :
  In obj (skipn n (sortBy newerFirst (filter Older.isHistoryObject contents))) ->
  In obj contents /\ Older.isHistoryObject obj = true.
Proof.
  intros Hf. apply in_skipn in Hf.
  apply (Permutation.Permutation_in _ (sortBy_perm newerFirst _)) in Hf.
  now apply filter_In in Hf.
Qed.

(** X16 -- What the older pruning of the local directory may unlink, whatever
    the unlinks answer.  For a positive count and a directory that can be
    listed, the paths it unlinks are, in order, the first ones of the list of
    history copies after the [keepCount] greatest names: each is a listed
    file named [ingrosmart-....csv], and none of the [keepCount] greatest
    names is smaller than it.  No other file of the directory is touched, and
    an unlink that fails ends the pruning. *)
Theorem older_prune_local_spares
    {W : Type} `{Backends W}
    (env : Env) (keepCount : Z) (files : list string) (w1 : W) (s : St W) :
  (0 < keepCount)%Z ->
  fs_readdir historyDir (world s) = (Ok files, w1) ->
  let csvFiles := rev (sort (filter Older.isHistoryCsv files)) in
  exists t rest,
    emitted s (snd (Older.pruneHistory env "fs" keepCount s)) t
    /\ map (join historyDir) (skipn (Z.to_nat keepCount) csvFiles) = unlinked t ++ rest
    /\ (forall path,
          In path (unlinked t) ->
          exists f,
            path = join historyDir f /\ In f files /\ Older.isHistoryCsv f = true
            /\ forall kept, In kept (firstn (Z.to_nat keepCount) csvFiles) -> le f kept).
Proof.
  intros Hpos Hdir csvFiles.
  assert (Hrun : exists t rest,
             emitted s (snd (Older.pruneHistory env "fs" keepCount s)) t
             /\ map (join historyDir) (skipn (Z.to_nat keepCount) csvFiles)
                = unlinked t ++ rest).
  { unfold Older.pruneHistory.
    replace (keepCount <=? 0)%Z with false by (symmetry; apply Z.leb_gt; lia).
    change (String.eqb "fs" "s3") with false. change (String.eqb "fs" "fs") with true.
    cbv iota. rewrite tryCatch_run. unfold Older.pruneLocalHistory.
    rewrite tryCatch_run, bind_run, perform_run, Hdir. simpl fst. simpl snd. cbv iota.
    fold csvFiles.
    destruct (Z.of_nat (List.length csvFiles) >? keepCount)%Z eqn:Hmore.
    - unfold sliceFrom.
      replace (keepCount <? 0)%Z with false by (symmetry; apply Z.ltb_ge; lia).
      match goal with |- context [Older.unlinkAll ?l ?st] =>
        destruct (unlinkAll_prefix l st) as (t & rest & Ht & Hu);
        destruct (Older.unlinkAll l st) as [r s1] end.
      exists (EvReaddir historyDir (Ok files) :: t), rest. split; [|exact Hu].
      assert (Hs1 : emitted s s1 (EvReaddir historyDir (Ok files) :: t)).
      { unfold emitted in *. simpl in Ht. rewrite Ht. simpl. now rewrite <- app_assoc. }
      destruct r as [[]|e]; simpl; [exact Hs1|].
      destruct (negb _); simpl; exact Hs1.
    - exists [EvReaddir historyDir (Ok files)], []. split; [reflexivity|]. simpl.
      rewrite skipn_all2; [reflexivity|].
      rewrite Z.gtb_ltb in Hmore. apply Z.ltb_ge in Hmore. lia. }
  destruct Hrun as (t & rest & Ht & Hu). exists t, rest.
  split; [exact Ht|]. split; [exact Hu|].
  intros path Hpath. apply (in_prefix _ _ _ _ Hu) in Hpath.
  apply in_map_iff in Hpath. destruct Hpath as (f & <- & Hf).
  exists f. split; [reflexivity|].
  destruct (history_files_listed _ _ _ Hf) as [Hin Hcsv].
  repeat split; try assumption.
  intros kept Hkept. eapply kept_are_newest; eassumption.
Qed.

Lemma older_prune_local_spares_witness :
  exists t rest,
    emitted (mkSt four_copies []) (snd (Older.pruneHistory env_fs "fs" 2
                                          (mkSt four_copies []))) t
    /\ ["output/history/ingrosmart-20260102-060000.csv";
        "output/history/ingrosmart-20260101-060000.csv"] = unlinked t ++ rest.
Proof.
  assert (Hdir : fs_readdir historyDir (world (mkSt four_copies []))
                 = (Ok (history four_copies), four_copies)) by reflexivity.
  destruct (older_prune_local_spares env_fs 2 (history four_copies) four_copies
              (mkSt four_copies []) ltac:(lia) Hdir) as (t & rest & Ht & Hu & _).
  exists t, rest. split; [exact Ht | exact Hu].
Defined.

(** X17 -- What the older pruning of the bucket may delete, whatever the
    deletions answer.  With no endpoint or no bucket configured it sends no
    request at all.  Otherwise, for a positive count and a listing that
    answers, the keys it deletes are, in order, the first ones of the listed
    history objects after the [keepCount] most recently modified: each is
    the key of a listed object that contains [ingrosmart-] and ends in
    [.csv], and none of the [keepCount] most recent objects is older than
    it.  A listing with no contents deletes nothing. *)
Theorem older_prune_s3_spares
    {W : Type} `{Backends W}
    (env : Env) (keepCount : Z) (s : St W) :
  (0 < keepCount)%Z ->
  let prefix := orElse (S3_KEY_PREFIX_HISTORY env) "ingrosmart/history/" in
  (unset (S3_ENDPOINT env) || unset (S3_BUCKET env) = true ->
   Older.pruneHistory env "s3" keepCount s = (Ok tt, s))
  /\ (unset (S3_ENDPOINT env) || unset (S3_BUCKET env) = false ->
      forall w1,
        s3_send_list prefix (world s) = (Ok None, w1) ->
        Older.pruneHistory env "s3" keepCount s
        = (Ok tt, mkSt w1 (trace s ++ [EvS3List prefix (Ok None)])))
  /\ (unset (S3_ENDPOINT env) || unset (S3_BUCKET env) = false ->
      forall contents w1,
        s3_send_list prefix (world s) = (Ok (Some contents), w1) ->
        let sorted := sortBy newerFirst (filter Older.isHistoryObject contents) in
        exists t rest,
          emitted s (snd (Older.pruneHistory env "s3" keepCount s)) t
          /\ map Key (skipn (Z.to_nat keepCount) sorted) = deletedKeys t ++ rest
          /\ (forall key,
                In key (deletedKeys t) ->
                exists obj,
                  Key obj = key /\ In obj contents
                  /\ Older.isHistoryObject obj = true
                  /\ forall kept,
                       In kept (firstn (Z.to_nat keepCount) sorted) ->
                       (LastModified obj <= LastModified kept)%Z)).
Proof.
  intros Hpos prefix.
  assert (Hstart : Older.pruneHistory env "s3" keepCount s
                   = tryCatch (Older.pruneS3History env keepCount)
                       (fun _ => ret tt) s).
  { unfold Older.pruneHistory.
    replace (keepCount <=? 0)%Z with false by (symmetry; apply Z.leb_gt; lia).
    reflexivity. }
  split; [|split].
  - intros Hunset. rewrite Hstart, tryCatch_run. unfold Older.pruneS3History.
    now rewrite Hunset.
  - intros Hunset w1 Hlist. rewrite Hstart, tryCatch_run.
    unfold Older.pruneS3History. fold prefix.
    rewrite Hunset, bind_run, perform_run, Hlist. reflexivity.
  - intros Hunset contents w1 Hlist.
    set (sorted := sortBy newerFirst (filter Older.isHistoryObject contents)).
    assert (Hrun : exists t rest,
               emitted s (snd (Older.pruneS3History env keepCount s)) t
               /\ map Key (skipn (Z.to_nat keepCount) sorted) = deletedKeys t ++ rest).
    { unfold Older.pruneS3History. fold prefix. rewrite Hunset.
      rewrite bind_run, perform_run, Hlist. simpl fst. simpl snd. cbv iota.
      fold sorted.
      assert (Hlen : (List.length sorted <= List.length contents)%nat).
      { unfold sorted.
        rewrite (Permutation.Permutation_length (sortBy_perm newerFirst _)).
        apply filter_length_le. }
      destruct (Z.of_nat (List.length contents) <=? keepCount)%Z eqn:Hfew.
      - exists [EvS3List prefix (Ok (Some contents))], []. split; [reflexivity|].
        simpl. rewrite skipn_all2; [reflexivity|]. apply Z.leb_le in Hfew. lia.
      - destruct (Z.of_nat (List.length sorted) <=? keepCount)%Z eqn:Hfew2.
        + exists [EvS3List prefix (Ok (Some contents))], []. split; [reflexivity|].
          simpl. rewrite skipn_all2; [reflexivity|]. apply Z.leb_le in Hfew2. lia.
        + unfold sliceFrom.
          replace (keepCount <? 0)%Z with false by (symmetry; apply Z.ltb_ge; lia).
          match goal with |- context [Older.deleteAll ?l ?st] =>
            destruct (deleteAll_prefix l st) as (t & rest & Ht & Hu) end.
          exists (EvS3List prefix (Ok (Some contents)) :: t), rest.
          split; [|exact Hu].
          unfold emitted in *. simpl in Ht. rewrite Ht. simpl.
          now rewrite <- app_assoc. }
    rewrite Hstart, swallow_state.
    destruct Hrun as (t & rest & Ht & Hu). exists t, rest.
    split; [exact Ht|]. split; [exact Hu|].
    intros key Hkey. apply (in_prefix _ _ _ _ Hu) in Hkey.
    apply in_map_iff in Hkey. destruct Hkey as (obj & <- & Hobj).
    exists obj. split; [reflexivity|].
    destruct (history_objects_listed _ _ _ Hobj) as [Hin Hcsv].
    repeat split; try assumption.
    intros kept Hkept. eapply kept_are_most_recent; eassumption.
Qed.

Lemma older_prune_s3_spares_witness :
  exists t rest,
    emitted (mkSt four_copies []) (snd (Older.pruneHistory env_s3 "s3" 1
                                          (mkSt four_copies []))) t
    /\ ["ingrosmart/history/ingrosmart-20260102-060000.csv";
        "ingrosmart/history/ingrosmart-20260101-060000.csv"] = deletedKeys t ++ rest.
Proof.
  assert (Hlist : s3_send_list "ingrosmart/history/" (world (mkSt four_copies []))
                  = (Ok (Some (objects four_copies)), four_copies)) by reflexivity.
  destruct (older_prune_s3_spares env_s3 1 (mkSt four_copies []) ltac:(lia))
    as (_ & _ & Hrun).
  destruct (Hrun eq_refl (objects four_copies) four_copies Hlist)
    as (t & rest & Ht & Hu & _).
  exists t, rest. split; [exact Ht | exact Hu].
Defined.

(** *** Names of the copies *)

Lemma length_append a b :
  String.length (a ++ b) = (String.length a + String.length b)%nat.
Proof. induction a; simpl; [reflexivity | now rewrite IHa]. Qed.

Lemma substring_skip p : forall n x,
  substring (String.length p) n (p ++ x) = substring 0 n x.
Proof. induction p; intros n x; simpl; [reflexivity | apply IHp]. Qed.

Lemma substring_all x : substring 0 (String.length x) x = x.
Proof. induction x; simpl; [reflexivity | now rewrite IHx]. Qed.

Lemma endsWith_append p x : endsWith (p ++ x) x = true.
Proof.
  unfold endsWith. rewrite length_append.
  replace (String.length x <=? String.length p + String.length x)%nat with true
    by (symmetry; apply Nat.leb_le; lia).
  replace (String.length p + String.length x - String.length x)%nat
    with (String.length p) by lia.
  rewrite substring_skip, substring_all. simpl. apply String.eqb_refl.
Qed.

Lemma endsWith_inner a b x : endsWith (a ++ b ++ x) x = true.
Proof. rewrite <- append_assoc. apply endsWith_append. Qed.

Lemma isHistoryCsv_stamped timestamp :
  Older.isHistoryCsv ("ingrosmart-" ++ timestamp ++ ".csv") = true.
Proof.
  unfold Older.isHistoryCsv. apply andb_true_iff. split.
  - unfold startsWith. apply prefix_append.
  - exact (endsWith_append ("ingrosmart-" ++ timestamp) ".csv").
Qed.

(** X18 -- The copies that the older [deliver] writes are the ones that the
    older pruning looks for.  Whatever the timestamp, the name
    [ingrosmart-<timestamp>.csv] passes the filter of the local pruning, and
    the key made of the history prefix and that name passes the filter of
    the bucket pruning, whatever the prefix; the two slot names of the most
    recent revision pass neither, so an older pruning leaves the slots
    alone. *)
Theorem history_copies_are_prunable (env : Env) (timestamp : string) :
  Older.isHistoryCsv ("ingrosmart-" ++ timestamp ++ ".csv") = true
  /\ (forall lastModified,
        Older.isHistoryObject
          {| Key := historyAt env "s3" ("ingrosmart-" ++ timestamp ++ ".csv");
             LastModified := lastModified |} = true)
  /\ (forall minute lastModified,
        Older.isHistoryCsv (slotFilename minute) = false
        /\ Older.isHistoryObject
             {| Key := ("ingrosmart/history/" ++ slotFilename minute)%string;
                LastModified := lastModified |} = false).
Proof.
  split; [|split].
  - apply isHistoryCsv_stamped.
  - intros lastModified. unfold Older.isHistoryObject, historyAt. simpl Key.
    change (String.eqb "s3" "wp") with false. change (String.eqb "s3" "s3") with true.
    cbv iota.
    set (prefix := orElse (S3_KEY_PREFIX_HISTORY env) "ingrosmart/history/").
    apply andb_true_iff. split.
    + apply includes_iff. exists prefix, (timestamp ++ ".csv")%string.
      reflexivity.
    + exact (endsWith_inner prefix ("ingrosmart-" ++ timestamp) ".csv").
  - intros minute lastModified. unfold slotFilename.
    destruct (minute <? 30)%Z; split; reflexivity.
Qed.

(** Comparing strings that start alike, or end alike at equal lengths. *)
Lemma compare_common_prefix p a b :
  String.compare (p ++ a) (p ++ b) = String.compare a b.
Proof.
  induction p as [|c p IH]; simpl; [reflexivity|].
  unfold Ascii.compare. now rewrite N.compare_refl.
Qed.

Lemma compare_refl_string a : String.compare a a = Eq.
Proof.
  pose proof (String.compare_antisym a a) as Hsym.
  destruct (String.compare a a); simpl in Hsym; congruence.
Qed.

Lemma compare_common_suffix r : forall a b,
  String.length a = String.length b ->
  String.compare (a ++ r) (b ++ r) = String.compare a b.
Proof.
  induction a as [|x a IH]; intros [|y b] Hlen; simpl in *; try discriminate.
  - apply compare_refl_string.
  - destruct (Ascii.compare x y); [apply IH; lia | reflexivity | reflexivity].
Qed.

Lemma generateTimestamp_length d :
  validDate d -> String.length (generateTimestamp d) = 15%nat.
Proof.
  intros Hd. pose proof (generateTimestamp_stamped d Hd) as Hs.
  unfold stamped in Hs. repeat (apply andb_true_iff in Hs; destruct Hs as [Hs _]).
  now apply Nat.eqb_eq in Hs.
Qed.

Lemma historyName_compare a b :
  validDate a -> validDate b ->
  String.compare (historyName a) (historyName b) = compareDate a b.
Proof.
  intros Ha Hb. unfold historyName. rewrite compare_common_prefix.
  rewrite compare_common_suffix
    by (now rewrite !generateTimestamp_length).
  now apply generateTimestamp_compare.
Qed.

Lemma filter_all {A} (f : A -> bool) l :
  (forall x, In x l -> f x = true) -> filter f l = l.
Proof.
  induction l as [|x l IH]; intros Hall; simpl; [reflexivity|].
  rewrite (Hall x) by now left. f_equal. apply IH. intros y Hy. apply Hall. now right.
Qed.

Lemma append_inj_l p a b : (p ++ a = p ++ b)%string -> a = b.
Proof. induction p as [|c p IH]; simpl; intros Heq; [exact Heq|]. inversion Heq. auto. Qed.

Lemma in_joined dir f l : In (join dir f) (map (join dir) l) -> In f l.
Proof.
  intros Hin. apply in_map_iff in Hin. destruct Hin as (g & Heq & Hg).
  unfold join in Heq. apply append_inj_l in Heq. inversion Heq. now subst.
Qed.

(** X19 -- The older pruning of the local directory keeps the latest runs.
    When the history directory holds the copies of runs made at the given
    dates, named by [deliver] from the timestamp of each run, and the unlinks
    succeed, pruning with a positive count unlinks all but [keepCount] of
    them, and every run whose copy it unlinks is strictly older than every
    run whose copy it keeps.  (The order of the names is the order of time
    for dates in years of four digits.) *)
Theorem older_prune_keeps_latest_runs
    {W : Type} `{Backends W}
    (env : Env) (keepCount : Z) (dates : list Date) (w1 : W) (s : St W) :
  (0 < keepCount)%Z ->
  Forall validDate dates ->
  fs_readdir historyDir (world s) = (Ok (map historyName dates), w1) ->
  (forall path w, fst (fs_unlink path w) = Ok tt) ->
  exists t,
    emitted s (snd (Older.pruneHistory env "fs" keepCount s)) t
    /\ List.length (unlinked t) = (List.length dates - Z.to_nat keepCount)%nat
    /\ (forall gone kept,
          In gone dates -> In kept dates ->
          In (join historyDir (historyName gone)) (unlinked t) ->
          ~ In (join historyDir (historyName kept)) (unlinked t) ->
          compareDate gone kept = Lt).
Proof.
  intros Hpos Hvalid Hdir Hunlink.
  destruct (older_prune_local env keepCount (map historyName dates) w1 s
              Hpos Hdir Hunlink) as (t & Ht & Hu).
  rewrite filter_all in Hu.
  2:{ intros x Hx. apply in_map_iff in Hx. destruct Hx as (d & <- & _).
      apply isHistoryCsv_stamped. }
  set (names := rev (sort (map historyName dates))) in *.
  exists t. split; [exact Ht|]. split.
  - rewrite Hu, length_map, length_skipn. unfold names.
    rewrite length_rev. unfold sort.
    rewrite (Permutation.Permutation_length (sortBy_perm String.leb _)).
    now rewrite length_map.
  - intros gone kept Hgone Hkept Hun Hnot. rewrite Hu in Hun, Hnot.
    apply in_joined in Hun.
    assert (Hk : In (historyName kept) (firstn (Z.to_nat keepCount) names)).
    { assert (Hin : In (historyName kept) names).
      { unfold names. apply -> in_rev.
        apply (Permutation.Permutation_in _
                 (Permutation.Permutation_sym (sortBy_perm String.leb _))).
        now apply in_map. }
      rewrite <- (firstn_skipn (Z.to_nat keepCount) names) in Hin.
      apply in_app_or in Hin. destruct Hin as [Hin|Hin]; [exact Hin|].
      exfalso. apply Hnot. now apply in_map. }
    pose proof (kept_are_newest _ _ _ _ Hk Hun) as Hle.
    rewrite Forall_forall in Hvalid.
    unfold le, String.leb in Hle.
    rewrite (historyName_compare gone kept (Hvalid _ Hgone) (Hvalid _ Hkept)) in Hle.
    destruct (compareDate gone kept) eqn:Hcmp; [|reflexivity|discriminate].
    exfalso. apply Hnot.
    rewrite <- (historyName_compare gone kept (Hvalid _ Hgone) (Hvalid _ Hkept)) in Hcmp.
    apply String.compare_eq_iff in Hcmp. rewrite <- Hcmp. now apply in_map.
Qed.

Lemma older_prune_keeps_latest_runs_witness :
  let dates := [Build_Date 2026 0 2 6 0 0; Build_Date 2025 11 31 23 59 59;
                Build_Date 2026 0 1 6 0 0] in
  let disk := {| history := map historyName dates; objects := []; clockMinute := 0 |} in
  exists t,
    emitted (mkSt disk []) (snd (Older.pruneHistory env_fs "fs" 2 (mkSt disk []))) t
    /\ List.length (unlinked t) = 1%nat.
Proof.
  intros dates disk.
  assert (Hdir : fs_readdir historyDir (world (mkSt disk []))
                 = (Ok (map historyName dates), disk)) by reflexivity.
  destruct (older_prune_keeps_latest_runs env_fs 2 dates disk (mkSt disk [])
              ltac:(lia)) as (t & Ht & Hlen & _);
    [ | exact Hdir | reflexivity | exists t; split; [exact Ht | exact Hlen] ].
  repeat constructor; simpl; lia.
Defined.

(** *** Deliveries that fail *)



Section Failures.
Context {W : Type} `{Clock W} `{Backends W}.
Variable env : Env.


End Failures.


End RetentionFacts.

(* ===================================================================== *)
(** ** The order of a login *)
(* ===================================================================== *)

Module OrderFacts.
Import JsString Utils Effects Retry Agent EffectFacts ActionFacts DeliveryFacts Tracing
  ConductFacts Fake.

Lemma first_acted_hit (action : string -> result exn unit -> event) selectorList t :
  first_acted action selectorList t true ->
  exists sel, In sel selectorList /\ In (action sel (Ok tt)) t.
Proof.
  remember true as b eqn:Hb. induction 1 as [|selector rest|selector rest t1 t2 b Hm Hf IH].
  - discriminate.
  - exists selector. split; [now left|]. unfold hit. simpl. auto.
  - destruct (IH Hb) as (sel & Hin & Hev). exists sel. split; [now right|].
    apply in_or_app. now right.
Qed.

Section Order.
Context {W : Type} `{Clock W} `{Browser W}.
Variable config : Config.
Variable selectors : Selectors.

Lemma emailTyped_app t t' : emailTyped config selectors t -> emailTyped config selectors (t ++ t').
Proof. intros (sel & Hs & Hin). exists sel. split; [exact Hs|]. apply in_or_app. now left. Qed.

Lemma passwordTyped_app t t' : passwordTyped config selectors t -> passwordTyped config selectors (t ++ t').
Proof. intros (sel & Hs & Hin). exists sel. split; [exact Hs|]. apply in_or_app. now left. Qed.

(** Events that do not send the form keep the order. *)
Lemma orderly_calm t t' :
  orderly config selectors t -> Forall (fun e => ~ submitting selectors e) t' -> orderly config selectors (t ++ t').
Proof.
  intros Ho Hc t1 e t2 Heq Hsub.
  apply app_eq_app in Heq. destruct Heq as [l [[-> Hl]|[-> Hl]]].
  - destruct l as [|x l]; simpl in Hl.
    + exfalso. rewrite <- Hl in Hc. inversion Hc; subst. auto.
    + inversion Hl; subst. eapply Ho; eauto.
  - exfalso. rewrite Hl in Hc. apply Forall_app in Hc. destruct Hc as [_ Hc].
    inversion Hc; subst. auto.
Qed.

(** Once both credentials are typed, anything keeps the order. *)
Lemma orderly_typed t t' :
  orderly config selectors t -> emailTyped config selectors t -> passwordTyped config selectors t -> orderly config selectors (t ++ t').
Proof.
  intros Ho He Hp t1 e t2 Heq Hsub.
  apply app_eq_app in Heq. destruct Heq as [l [[-> Hl]|[-> Hl]]].
  - destruct l as [|x l]; simpl in Hl.
    + rewrite app_nil_r in He, Hp. now split.
    + inversion Hl; subst. eapply Ho; eauto.
  - split; [now apply emailTyped_app | now apply passwordTyped_app].
Qed.

Lemma hoare_calm {E A} (I : list event -> Prop) (m : M W E A) :
  confined (fun e => ~ submitting selectors e) m ->
  (forall t t', I t -> Forall (fun e => ~ submitting selectors e) t' -> I (t ++ t')) ->
  hoare (fun s => I (trace s)) m (fun _ s => I (trace s)) (fun _ s => I (trace s)).
Proof.
  intros Hq Hstable s Hs. destruct (Hq s) as (t & Ht & Hp).
  unfold emitted in Ht.
  destruct (m s) as [[a|e] s1]; simpl in *; rewrite Ht; auto.
Qed.

Lemma hoare_any {E A} (m : M W E A) :
  confined (fun _ => True) m ->
  hoare (fun s => orderly config selectors (trace s) /\ emailTyped config selectors (trace s) /\ passwordTyped config selectors (trace s))
    m (fun _ s => orderly config selectors (trace s)) (fun _ s => orderly config selectors (trace s)).
Proof.
  intros Hq s (Ho & He & Hp). destruct (Hq s) as (t & Ht & _).
  unfold emitted in Ht.
  destruct (m s) as [[a|e] s1]; simpl in *; rewrite Ht; now apply orderly_typed.
Qed.

Lemma calm_clicking e :
  clicking (cookieAccept selectors) [] e -> ~ submitting selectors e.
Proof. destruct e; simpl; tauto. Qed.

Lemma calm_filling l v e : filling l v e -> ~ submitting selectors e.
Proof. destruct e; simpl; tauto. Qed.

Lemma calm_looking l e : looking l e -> ~ submitting selectors e.
Proof. destruct e; simpl; tauto. Qed.

Lemma calm_screenshot name :
  confined (fun e => ~ submitting selectors e) (screenshotIfEnabled (W:=W) config name).
Proof.
  unfold screenshotIfEnabled, mkdir, screenshot.
  destruct (screenshotOnError config); [|apply confined_ret].
  apply confined_bind; [|intros _]; apply confined_perform; intros r; simpl; tauto.
Qed.

(** A pass that types [value] with success leaves the event in the trace. *)
Lemma hoare_fill (I : list event -> Prop) selectorList value :
  (forall t t', I t -> Forall (fun e => ~ submitting selectors e) t' -> I (t ++ t')) ->
  hoare (fun s : St W => I (trace s))
    (fillFirst selectorList value)
    (fun b s => I (trace s)
                /\ (b = true ->
                    exists sel, In sel selectorList
                                /\ In (EvFill sel value (Ok tt)) (trace s)))
    (fun _ s => I (trace s)).
Proof.
  intros Hstable s Hs.
  destruct (fillFirst_shape selectorList value s) as (b & t & Hb & Ht & Hshape).
  destruct (confined_fillFirst selectorList value s) as (t' & Ht' & Hc).
  rewrite (emitted_inj _ _ _ _ Ht' Ht) in Hc. unfold emitted in Ht.
  destruct (fillFirst selectorList value s) as [r s1]; simpl in *. subst r.
  rewrite Ht. split.
  - apply Hstable; [exact Hs|]. eapply Forall_impl; [|exact Hc].
    intros e. apply calm_filling.
  - intros ->. destruct (first_acted_hit _ _ _ Hshape) as (sel & Hin & Hev).
    exists sel. split; [exact Hin|]. apply in_or_app. now right.
Qed.

Lemma hoare_pre {E A} (P P' : St W -> Prop) (m : M W E A) Q R :
  (forall s, P' s -> P s) -> hoare P m Q R -> hoare P' m Q R.
Proof. intros Hp Hm s Hs. apply Hm, Hp, Hs. Qed.

Lemma hoare_throws {E A} (P : St W -> Prop) (m : M W E A) Q (R R' : E -> St W -> Prop) :
  (forall e s, R e s -> R' e s) -> hoare P m Q R -> hoare P m Q R'.
Proof.
  intros Hr Hm s Hs. specialize (Hm s Hs).
  destruct (m s) as [[a|e] s1]; [exact Hm | now apply Hr].
Qed.

Lemma calm_stable t t' :
  orderly config selectors t -> Forall (fun e => ~ submitting selectors e) t' ->
  orderly config selectors (t ++ t').
Proof. apply orderly_calm. Qed.

Lemma calm_stable_email t t' :
  orderly config selectors t /\ emailTyped config selectors t ->
  Forall (fun e => ~ submitting selectors e) t' ->
  orderly config selectors (t ++ t') /\ emailTyped config selectors (t ++ t').
Proof.
  intros [Ho He] Hc. split; [now apply orderly_calm | now apply emailTyped_app].
Qed.

(** The form is sent once both fields are filled, not before. *)
Lemma hoare_enterCredentials :
  hoare (fun s : St W => orderly config selectors (trace s))
    (enterCredentials config selectors)
    (fun _ s => orderly config selectors (trace s))
    (fun _ s => orderly config selectors (trace s)).
Proof.
  unfold enterCredentials.
  eapply hoare_bind.
  { apply (hoare_calm (orderly config selectors)); [|apply calm_stable].
    eapply confined_weaken; [apply calm_clicking | apply confined_clickFirst]. }
  intros c. eapply hoare_bind.
  { apply (hoare_calm (orderly config selectors)); [|apply calm_stable].
    destruct c; [apply confined_sleep; simpl; tauto | apply confined_ret]. }
  intros ?. eapply hoare_bind.
  { apply (hoare_fill (orderly config selectors)). apply calm_stable. }
  intros f1. destruct f1; simpl.
  2:{ intros s [Ho _]. exact Ho. }
  eapply hoare_bind.
  { eapply hoare_pre;
      [|eapply hoare_throws;
        [|apply (hoare_fill (fun t => orderly config selectors t
                                      /\ emailTyped config selectors t));
          apply calm_stable_email]].
    - intros s [Ho He]. split; [exact Ho|]. now apply He.
    - intros e s [Ho _]. exact Ho. }
  intros f2. destruct f2; simpl.
  2:{ intros s [[Ho _] _]. exact Ho. }
  eapply hoare_pre; [|apply hoare_any].
  - intros s [[Ho He] Hp]. split; [exact Ho|]. split; [exact He|]. now apply Hp.
  - unfold press, waitForLoadState.
    apply confined_bind.
    { eapply confined_weaken; [|apply confined_clickFirst]. intros; exact I. }
    intros c2. apply confined_bind.
    { destruct (negb c2); [apply confined_perform; intros; exact I | apply confined_ret]. }
    intros _. apply confined_perform. intros; exact I.
Qed.

Lemma hoare_login_order :
  hoare (fun s : St W => orderly config selectors (trace s))
    (login config selectors)
    (fun _ s => orderly config selectors (trace s))
    (fun _ s => orderly config selectors (trace s)).
Proof.
  unfold login, submitCredentials.
  eapply hoare_tryCatch with (R := fun _ s => orderly config selectors (trace s)).
  - eapply hoare_bind.
    + eapply hoare_bind.
      * apply (hoare_calm (orderly config selectors)); [|apply calm_stable].
        unfold goto. apply confined_perform. intros r. simpl. tauto.
      * intros ?. apply hoare_enterCredentials.
    + intros ?. eapply hoare_bind.
      * apply (hoare_calm (orderly config selectors)); [|apply calm_stable].
        unfold verifyLogin, url. apply confined_bind; [apply confined_read|].
        intros u. destruct (negb _); [|apply confined_ret].
        eapply confined_weaken; [apply calm_looking | apply confined_indicatorVisible].
      * intros b. destruct (negb b); intros s Hs; exact Hs.
  - intros e. eapply hoare_bind.
    + apply (hoare_calm (orderly config selectors));
        [apply calm_screenshot | apply calm_stable].
    + intros ? s Hs. exact Hs.
Qed.

End Order.

(** X22 -- A login sends the form only once it is filled in.  In the trace
    of a login, from every state of every site, each event that sends the
    form -- a click on a button that is no cookie button, the Enter key, the
    wait for the page that follows -- comes after a successful typing of the
    user name into an e-mail field and a successful typing of the password
    into a password field.  So when a field cannot be found, nothing is
    submitted. *)
Theorem login_sends_filled_form
    {W : Type} `{Clock W} `{Browser W}
    (config : Config) (selectors : Selectors) (w : W) :
  let t := trace (snd (login config selectors (mkSt w []))) in
  forall t1 e t2,
    t = t1 ++ e :: t2 -> submitting selectors e ->
    emailTyped config selectors t1 /\ passwordTyped config selectors t1.
Proof.
  intros t.
  assert (Hstart : orderly config selectors (trace (mkSt w []))).
  { intros t1 e t2 Heq. destruct t1; discriminate. }
  pose proof (hoare_login_order config selectors (mkSt w []) Hstart) as Hrun.
  fold (orderly config selectors t).
  destruct (login config selectors (mkSt w [])) as [[v|e] s1]; exact Hrun.
Qed.

Lemma login_sends_filled_form_witness :
  submitting Fake.selectors
    (nth 13 (trace (snd (login Fake.config Fake.selectors (mkSt Fake.expired_then_ok []))))
       (EvWaitForLoadState (Ok tt)))
  /\ emailTyped Fake.config Fake.selectors
       (firstn 13
          (trace (snd (login Fake.config Fake.selectors (mkSt Fake.expired_then_ok [])))))
  /\ passwordTyped Fake.config Fake.selectors
       (firstn 13
          (trace (snd (login Fake.config Fake.selectors (mkSt Fake.expired_then_ok []))))).
Proof.
  assert (Hs : submitting Fake.selectors (EvClick "#send2" [] (Ok tt))).
  { simpl. intros [Hc|[Hc|[]]]; discriminate Hc. }
  split; [exact Hs|].
  refine (login_sends_filled_form Fake.config Fake.selectors Fake.expired_then_ok
            (firstn 13 (trace (snd (login Fake.config Fake.selectors
                                      (mkSt Fake.expired_then_ok [])))))
            (EvClick "#send2" [] (Ok tt))
            [EvWaitForLoadState (Ok tt)] _ Hs).
  reflexivity.
Defined.

End OrderFacts.
